(** * Vectorized card tables of pyNastran's [bdf_vectorized3]

    A shallow embedding of the columnar card tables (SET1, SPC1, SPCADD,
    MPCADD, LOAD, DEFORM, PLOTEL, MAT1, CONM2) and of the reduction
    routines [get_reduced_loads] and [SPCADD.get_reduced_spcs].

    Conventions
    - an [int32] column is a [list Z] (ids are taken inside the [int32]
      range, no wrap-around is exercised), a [float64] column is a list of
      IEEE binary64 [float]s, Python's [==] on floats is [PrimFloat.eqb];
    - a per-row count column and every index array is a [list nat];
    - a Python [dict] is a [gmap];
    - an exception is the [Raise] branch of [result]; the logger is a list
      of entries threaded through [LogM];
    - a method that mutates its table returns the new table; what a
      method had already changed when it raises is not followed further. *)

From Stdlib Require Import ZArith List Sorted Floats.PrimFloat.
From Stdlib Require Ascii String.
From stdpp Require Import gmap list strings.

(** ** Exceptions and logging *)

(** The Python exceptions met below.  [OutOfModel] is not one of them: it
    marks the inputs that the embedding does not cover. *)
Inductive exn : Type :=
| AssertionError
| RuntimeError
| KeyError (key : Z)
| IndexError
| TypeError
| ValueError
| OverflowError
| SyntaxError
| OutOfModel.

Inductive result (A : Type) : Type :=
| Ok (a : A)
| Raise (e : exn).
Arguments Ok {A} a.
Arguments Raise {A} e.

#[global] Instance result_ret : MRet result := fun A a => Ok a.
#[global] Instance result_bind : MBind result := fun A B k r =>
  match r with Ok a => k a | Raise e => Raise e end.


(** [assert cond] *)
Definition py_assert (cond : bool) : result unit :=
  if cond then Ok tt else Raise AssertionError.

Inductive log_level : Type := ERROR | WARNING | DEBUG.

(** The messages the reduction routines send to [model.log]; the numbers
    are the ids interpolated into the f-strings. *)
Inductive log_msg : Type :=
| NoReferencedLoads (load_id sid : Z)
| ReferencesAnotherLOAD (sid load_id : Z)
| CannotFindLoad (load_id : Z)
| NoReferencedSPCs (spc_id sid : Z).

Definition log_entry : Type := log_level * log_msg.

(** Computations that write to the logger and may raise. *)
Definition LogM (A : Type) : Type :=
  list log_entry -> list log_entry * result A.

Definition lret {A} (a : A) : LogM A := fun log => (log, Ok a).
Definition lraise {A} (e : exn) : LogM A := fun log => (log, Raise e).
Definition lbind {A B} (m : LogM A) (k : A -> LogM B) : LogM B :=
  fun log => match m log with
             | (log', Ok a) => k a log'
             | (log', Raise e) => (log', Raise e)
             end.
Definition log_write (lvl : log_level) (msg : log_msg) : LogM unit :=
  fun log => (log ++ [(lvl, msg)], Ok tt).
Definition llift {A} (r : result A) : LogM A := fun log => (log, r).

Notation "'ldo' x <- m ; k" := (lbind m (fun x => k))
  (at level 10, x name, m at level 100, k at level 200).
Notation "'ldo_' m ; k" := (lbind m (fun _ => k))
  (at level 10, m at level 100, k at level 200).

(** ** Rendered output

    [write_file] hands a field list to [print_card_8] or [print_card_16];
    the rendering to text is the external field writer's.  A written card
    is recorded as the field width of the printer it was given to and the
    field list, [array_str] leaving the integers as they are. *)

Inductive out_field : Type :=
| OStr (s : string)
| OInt (z : Z)
| OFloat (x : float)
| OBlank.

Record card_line : Type := {
  field_width : nat;
  list_fields : list out_field;
}.

(** ** numpy and base-card helpers *)

(** [a[i]] for an index array [i]: numpy raises [IndexError] when an index
    is out of range. *)
Fixpoint np_index {A} (a : list A) (i : list nat) : result (list A) :=
  match i with
  | [] => Ok []
  | k :: i' =>
      match a !! k with
      | Some x => xs ← np_index a i'; Ok (x :: xs)
      | None => Raise IndexError
      end
  end.

(** The range of the dtype [int32]. *)
Definition int32_min : Z := -2147483648.
Definition int32_max : Z := 2147483647.

Definition fits_int32 (z : Z) : bool :=
  (int32_min <=? z)%Z && (z <=? int32_max)%Z.

(** [a[i] = z] on an array of dtype [int32]: numpy raises
    [OverflowError] on a Python integer outside the range of [int32]. *)
Definition int32_store (z : Z) : result Z :=
  if fits_int32 z then Ok z else Raise OverflowError.

(** [np.array(zs, dtype='int32')] on Python integers, and the stores
    [a[i] = z] that a loop makes one after the other into
    [a = np.zeros(n, dtype='int32')] when nothing else in the loop can
    raise: [OverflowError] if one of the integers is outside the range of
    [int32], the integers as they are otherwise. *)
Definition np_int32 (zs : list Z) : result (list Z) :=
  if forallb fits_int32 zs then Ok zs else Raise OverflowError.

(** [a[i0:i1]]: a Python slice never raises. *)
Definition py_slice {A} (a : list A) (i0 i1 : nat) : list A :=
  take (i1 - i0) (drop i0 a).

(** [np.unique] on an integer array: the sorted distinct values. *)
Fixpoint uinsert (x : Z) (l : list Z) : list Z :=
  match l with
  | [] => [x]
  | y :: l' =>
      if (x <? y)%Z then x :: l
      else if (x =? y)%Z then l
      else y :: uinsert x l'
  end.

Definition np_unique (l : list Z) : list Z := foldr uinsert [] l.

(** [a.max()] and [a.min()]: numpy raises [ValueError] on an empty array. *)
Definition np_max (l : list Z) : result Z :=
  match l with
  | [] => Raise ValueError
  | x :: l' => Ok (foldl Z.max x l')
  end.

Definition np_min_nat (l : list nat) : result nat :=
  match l with
  | [] => Raise ValueError
  | x :: l' => Ok (foldl Nat.min x l')
  end.

(** [np.argsort]: the indices that put the array in ascending order; equal
    values are kept in their relative order here. *)
Fixpoint insert_index (a : list Z) (k : nat) (l : list nat) : list nat :=
  match l with
  | [] => [k]
  | j :: l' =>
      if (default 0%Z (a !! k) <=? default 0%Z (a !! j))%Z then k :: l
      else j :: insert_index a k l'
  end.

Definition np_argsort (a : list Z) : list nat :=
  foldr (insert_index a) [] (seq 0 (length a)).

(** [np.where(x == a)[0]] *)
Fixpoint np_where_eq (x : Z) (a : list Z) (i : nat) : list nat :=
  match a with
  | [] => []
  | y :: a' =>
      if (x =? y)%Z then i :: np_where_eq x a' (S i)
      else np_where_eq x a' (S i)
  end.

Definition sum_nat (l : list nat) : nat := foldr Nat.add 0 l.

Fixpoint idim_from (offset : nat) (ndim : list nat) : list (nat * nat) :=
  match ndim with
  | [] => []
  | c :: ndim' => (offset, offset + c) :: idim_from (offset + c) ndim'
  end.

(** Modelled from the spec: [base_card.make_idim] is not part of the
    sources at hand.  The per-row slice boundaries are the prefix sums of
    the count column, [idim[i] = (offset_i, offset_i + count_i)], one pair
    for each of the [n] rows. *)
Definition make_idim (n : nat) (ndim : list nat) : list (nat * nat) :=
  take n (idim_from 0 ndim).

(** Modelled from the spec: [base_card.hslice_by_idim] is not part of the
    sources at hand.  The flat array is re-sliced per selected row, in the
    order of the index array, and the pieces are concatenated. *)
Fixpoint hslice_by_idim {A} (i : list nat) (idim : list (nat * nat))
    (elements : list A) : result (list A) :=
  match i with
  | [] => Ok []
  | k :: i' =>
      match idim !! k with
      | Some (i0, i1) =>
          rest ← hslice_by_idim i' idim elements;
          Ok (py_slice elements i0 i1 ++ rest)
      | None => Raise IndexError
      end
  end.

(** Modelled from the spec: the decorators [parse_cards_check] of
    [VectorizedBaseCard], [Load], [Material] and [Element] are in
    [base_card.py], which is not among the sources at hand.  [parse_cards]
    called with no staged row is a no-op; otherwise the decorated body
    runs. *)
Definition parse_cards_check {T C : Type} (cards : T -> list C)
    (func : T -> result T) (self : T) : result T :=
  match cards self with
  | [] => Ok self
  | _ :: _ => func self
  end.

(** Modelled from the spec: the decorator [parse_material_check] is in
    [base_card.py], which is not among the sources at hand.  A table with
    [n == 0] writes nothing and returns; otherwise the decorated body
    runs. *)
Definition parse_material_check {T : Type} (n : T -> nat)
    (func : T -> nat -> result (list card_line)) (self : T) (size : nat)
    : result (list card_line) :=
  if n self =? 0 then Ok [] else func self size.

(** ** The tokenized card (field reader)

    The [BDFCard] is an external collaborator: an indexable list of raw
    fields, a blank field being [None].  A card that comes out of the
    tokenizer holds the text of its fields (the card quoted in
    [PLOTEL.add_card] reads ['PLOTEL', '3101', '3101', '3102', None, ...]);
    a card built from a Python list holds the values it was given.  The
    conversion of the text of a real field is the field reader's own: a
    real field is represented by its value. *)

Inductive field_value : Type :=
| FInt (z : Z)
| FFloat (x : float)
| FStr (s : string).

Definition BDFCard : Type := list (option field_value).

(** [card.field(i)]: the raw field, [None] past the end of the card. *)
Definition card_field (card : BDFCard) (i : nat) : option field_value :=
  match card !! i with
  | Some f => f
  | None => None
  end.

(** [card.fields(i)]: the raw fields from position [i] on. *)
Definition card_fields (card : BDFCard) (i : nat) : list (option field_value) :=
  drop i card.

(** Python's truth value of a raw field, as in [if card.field(i):]. *)
Definition field_truthy (f : option field_value) : bool :=
  match f with
  | None => false
  | Some (FInt z) => negb (z =? 0)%Z
  | Some (FFloat x) => negb (x =? 0)%float
  | Some (FStr s) => negb (String.eqb s "")
  end.

(** The value of a decimal digit. *)
Definition digit_of (c : Ascii.ascii) : option Z :=
  let n := Ascii.nat_of_ascii c in
  if (48 <=? n) && (n <=? 57) then Some (Z.of_nat (n - 48)) else None.

Fixpoint digits_value (s : string) (acc : Z) : option Z :=
  match s with
  | EmptyString => Some acc
  | String c s' =>
      match digit_of c with
      | Some d => digits_value s' (10 * acc + d)%Z
      | None => None
      end
  end.

(** The integer a text denotes: decimal digits after an optional sign. *)
Definition int_of_text (s : string) : option Z :=
  match s with
  | EmptyString => None
  | String c0 rest =>
      let code := Ascii.nat_of_ascii c0 in
      if code =? 45 then (* a minus sign *)
        match rest with
        | EmptyString => None
        | _ => Z.opp <$> digits_value rest 0
        end
      else if code =? 43 then (* a plus sign *)
        match rest with
        | EmptyString => None
        | _ => digits_value rest 0
        end
      else digits_value s 0
  end.

(** Modelled from the spec: [assign_type.integer], a required integer
    field, given as a value or as text. *)
Definition integer (card : BDFCard) (i : nat) : result Z :=
  match card_field card i with
  | Some (FInt z) => Ok z
  | Some (FStr s) =>
      match int_of_text s with
      | Some z => Ok z
      | None => Raise SyntaxError
      end
  | _ => Raise SyntaxError
  end.

(** Modelled from the spec: [assign_type.double], a required real field. *)
Definition double (card : BDFCard) (i : nat) : result float :=
  match card_field card i with
  | Some (FFloat x) => Ok x
  | _ => Raise SyntaxError
  end.

(** Modelled from the spec: [assign_type.integer_or_blank]; a blank field
    resolves to the default. *)
Definition integer_or_blank (card : BDFCard) (i : nat) (default : Z) : result Z :=
  match card_field card i with
  | None => Ok default
  | _ => integer card i
  end.

(** Modelled from the spec: [assign_type.double_or_blank]; a blank field
    resolves to the default. *)
Definition double_or_blank (card : BDFCard) (i : nat) (default : float) : result float :=
  match card_field card i with
  | Some (FFloat x) => Ok x
  | None => Ok default
  | _ => Raise SyntaxError
  end.

(** [np.unique] on an array of text: the distinct texts in the order of
    their characters. *)
Fixpoint uinsert_text (x : string) (l : list string) : list string :=
  match l with
  | [] => [x]
  | y :: l' =>
      match String.compare x y with
      | Lt => x :: l
      | Eq => l
      | Gt => y :: uinsert_text x l'
      end
  end.

Definition np_unique_text (l : list string) : list string :=
  foldr uinsert_text [] l.

Fixpoint all_integers (fields : list (option field_value)) : option (list Z) :=
  match fields with
  | [] => Some []
  | Some (FInt z) :: fields' => cons z <$> all_integers fields'
  | _ :: _ => None
  end.

Fixpoint all_texts (fields : list (option field_value))
    : option (list string) :=
  match fields with
  | [] => Some []
  | Some (FStr s) :: fields' => cons s <$> all_texts fields'
  | _ :: _ => None
  end.

(** [np.unique(fields).tolist()] on raw fields: integers are ordered as
    numbers, texts as texts.  A list that mixes the two, or holds a blank
    or a real, is not covered. *)
Definition np_unique_fields (fields : list (option field_value))
    : result (list field_value) :=
  match all_integers fields, all_texts fields with
  | Some zs, _ => Ok (map FInt (np_unique zs))
  | None, Some ss => Ok (map FStr (np_unique_text ss))
  | None, None => Raise OutOfModel
  end.

(** One element of [np.array(values, dtype='int32')]: an integer is
    taken as it is, a text is read as the integer it denotes and raises
    [ValueError] when it denotes none; an integer outside the range of
    [int32] raises [OverflowError]. *)
Definition int32_item (value : field_value) : result Z :=
  match value with
  | FInt z => int32_store z
  | FStr s =>
      match int_of_text s with
      | Some z => int32_store z
      | None => Raise ValueError
      end
  | FFloat _ => Raise OutOfModel
  end.

(** [np.array(values, dtype='int32')]: the elements are converted in
    order, the first one that cannot be stored raises. *)
Fixpoint int32_array (values : list field_value) : result (list Z) :=
  match values with
  | [] => Ok []
  | value :: values' =>
      z ← int32_item value;
      zs ← int32_array values';
      Ok (z :: zs)
  end.

(** ** Concrete static-load tables ([class Load], [DEFORM])

    [model.load_cards] is a list of tables of different card types that
    share the [load_id] column and the slicing interface of [class Load].
    Every concrete table is given the columns of DEFORM, the one whose
    methods are translated here; the [type] tag tells the tables apart. *)

Module Load.

Record table : Type := {
  type : string;
  cards : list (Z * Z * float * string);
  n : nat;
  load_id : list Z;
  elements : list Z;
  enforced : list float;
}.

Definition init (type : string) : table :=
  {| type := type; cards := []; n := 0;
     load_id := []; elements := []; enforced := [] |}.

(** [DEFORM.__apply_slice__(self, load, i)] on a fresh [load]. *)
Definition __apply_slice__ (self load : table) (i : list nat) : result table :=
  load_id' ← np_index (load_id self) i;
  elements' ← np_index (elements self) i;
  enforced' ← np_index (enforced self) i;
  Ok {| type := type load; cards := cards load; n := length i;
        load_id := load_id'; elements := elements'; enforced := enforced' |}.

(** [DEFORM.slice_card_by_index] *)
Definition slice_card_by_index (self : table) (i : list nat) : result table :=
  __apply_slice__ self (init (type self)) i.

(** The loop [for i, load_idi in enumerate(self.load_id)] of
    [slice_card_by_load_id] for an integer [load_id]. *)
Fixpoint index_of_load_id (load_id : Z) (column : list Z) (i : nat) : list nat :=
  match column with
  | [] => []
  | load_idi :: column' =>
      if (load_idi =? load_id)%Z
      then i :: index_of_load_id load_id column' (S i)
      else index_of_load_id load_id column' (S i)
  end.

Definition slice_card_by_load_id (self : table) (load_id0 : Z) : result table :=
  _ ← py_assert (0 <? length (load_id self));
  let index := index_of_load_id load_id0 (load_id self) 0 in
  _ ← py_assert (0 <? length index);
  slice_card_by_index self index.

End Load.

Module DEFORM.
Import Load.

Definition init : table := Load.init "DEFORM".

Definition append_card (t : table) (c : Z * Z * float * string) : table :=
  {| type := type t; cards := cards t ++ [c]; n := n t;
     load_id := load_id t; elements := elements t; enforced := enforced t |}.

Definition incr_n (t : table) : table :=
  {| type := type t; cards := cards t; n := S (n t);
     load_id := load_id t; elements := elements t; enforced := enforced t |}.

Definition add (t : table) (sid eid : Z) (deformation : float)
    (comment : string) : table :=
  incr_n (append_card t (sid, eid, deformation, comment)).

Definition add_card (t : table) (card : BDFCard) (comment : string)
    : result table :=
  sid ← integer card 1;
  eid ← integer card 2;
  deformation ← double card 3;
  let t := append_card t (sid, eid, deformation, comment) in
  let comment := ""%string in
  let t := incr_n t in
  t ← (if field_truthy (card_field card 4) then
         eid ← integer card 4;
         deformation ← double card 5;
         let t := append_card t (sid, eid, deformation, comment) in
         Ok (incr_n t)
       else Ok t);
  t ← (if field_truthy (card_field card 6) then
         eid ← integer card 6;
         deformation ← double card 7;
         let t := append_card t (sid, eid, deformation, comment) in
         Ok (incr_n t)
       else Ok t);
  Ok t.

End DEFORM.

(** ** PLOTEL *)

Module PLOTEL.

Record table : Type := {
  cards : list (Z * list Z * string);
  n : nat;
  element_id : list Z;
  nodes : list (list Z);
}.

Definition init : table :=
  {| cards := []; n := 0; element_id := []; nodes := [] |}.

Definition append_card (t : table) (c : Z * list Z * string) : table :=
  {| cards := cards t ++ [c]; n := n t;
     element_id := element_id t; nodes := nodes t |}.

Definition incr_n (t : table) : table :=
  {| cards := cards t; n := S (n t);
     element_id := element_id t; nodes := nodes t |}.

Definition add (t : table) (eid : Z) (nodes : list Z) (comment : string)
    : table :=
  incr_n (append_card t (eid, nodes, comment)).

Definition add_card (t : table) (card : BDFCard) (comment : string)
    : result table :=
  eid ← integer card 1;
  g1 ← integer card 2;
  g2 ← integer card 3;
  let nodes := [g1; g2] in
  let t := append_card t (eid, nodes, comment) in
  let t := incr_n t in
  t ← (if field_truthy (card_field card 5) then
         eid ← integer card 5;
         g1 ← integer card 6;
         g2 ← integer card 7;
         let nodes := [g1; g2] in
         let t := append_card t (eid, nodes, ""%string) in
         let t := incr_n t in
         _ ← py_assert (length card <=? 8);
         Ok t
       else
         _ ← py_assert (length card <=? 5);
         Ok t);
  let t := incr_n t in
  Ok t.

End PLOTEL.

(** ** LOAD: a scaled union of concrete loads *)

Module LOAD.

(** A staged tuple [(sid, scale, scale_factors, load_ids, comment)]. *)
Definition card : Type := Z * float * list float * list Z * string.

Record table : Type := {
  cards : list card;
  n : nat;
  load_id : list Z;
  scale : list float;
  nloads : list nat;
  load_ids : list Z;
  scale_factors : list float;
}.

Definition init : table :=
  {| cards := []; n := 0; load_id := []; scale := [];
     nloads := []; load_ids := []; scale_factors := [] |}.

Definition add (t : table) (sid : Z) (scale0 : float)
    (scale_factors0 : list float) (load_ids0 : list Z) (comment : string)
    : result table :=
  _ ← py_assert (length scale_factors0 =? length load_ids0);
  Ok {| cards := cards t ++ [(sid, scale0, scale_factors0, load_ids0, comment)];
        n := S (n t);
        load_id := load_id t; scale := scale t; nloads := nloads t;
        load_ids := load_ids t; scale_factors := scale_factors t |}.

(** [for iload in range(nload_fields // 2)]: the alternating scale
    factor and load id fields, [count] pairs from pair number [iload]. *)
Fixpoint read_pairs (card : BDFCard) (count iload : nat)
    : result (list float * list Z) :=
  match count with
  | 0 => Ok ([], [])
  | S count' =>
      let n := 2 * iload + 3 in
      scale_factor ← double card n;
      load_id ← integer card (n + 1);
      '(sfs, lids) ← read_pairs card count' (S iload);
      Ok (scale_factor :: sfs, load_id :: lids)
  end.

Definition add_card (t : table) (card : BDFCard) (comment : string)
    : result table :=
  sid ← integer card 1;
  scale0 ← double card 2;
  let nload_fields := (Z.of_nat (length card) - 3)%Z in
  _ ← py_assert (nload_fields `mod` 2 =? 0)%Z;
  '(scale_factors0, load_ids0) ←
    read_pairs card (Z.to_nat (nload_fields `div` 2)) 0;
  _ ← py_assert (3 <? length card);
  Ok {| cards := cards t ++ [(sid, scale0, scale_factors0, load_ids0, comment)];
        n := S (n t);
        load_id := load_id t; scale := scale t; nloads := nloads t;
        load_ids := load_ids t; scale_factors := scale_factors t |}.

Definition _save (t : table) (load_id0 : list Z) (scale0 : list float)
    (nloads0 : list nat) (load_ids0 : list Z) (scale_factors0 : list float)
    : table :=
  if negb (length (load_id t) =? 0) then
    {| cards := cards t; n := n t;
       load_id := load_id t ++ load_id0;
       scale := scale t ++ scale0;
       nloads := nloads t ++ nloads0;
       load_ids := load_ids t ++ load_ids0;
       scale_factors := scale_factors t ++ scale_factors0 |}
  else
    {| cards := cards t; n := n t;
       load_id := load_id0; scale := scale0; nloads := nloads0;
       load_ids := load_ids0; scale_factors := scale_factors0 |}.

Definition clear_cards (t : table) : table :=
  {| cards := []; n := n t; load_id := load_id t; scale := scale t;
     nloads := nloads t; load_ids := load_ids t;
     scale_factors := scale_factors t |}.

(** [parse_cards], decorated with [VectorizedBaseCard.parse_cards_check].
    [load_id] and [load_ids] are arrays of dtype [int32]; the counts
    [nloads] are lengths of lists. *)
Definition parse_cards : table -> result table :=
  parse_cards_check cards (fun t =>
    let ncards := length (cards t) in
    _ ← py_assert (0 <? ncards);
    load_id0 ←
      np_int32
        (map (fun '(sid, scalei, scale_factors, load_ids, comment) => sid)
             (cards t));
    let scale0 :=
      map (fun '(sid, scalei, scale_factors, load_ids, comment) => scalei)
          (cards t) in
    let nloads0 :=
      map (fun '(sid, scalei, scale_factors, load_ids, comment) =>
             length scale_factors) (cards t) in
    let all_load_ids :=
      flat_map (fun '(sid, scalei, scale_factors, load_ids, comment) =>
                  load_ids) (cards t) in
    let all_scale_factors :=
      flat_map (fun '(sid, scalei, scale_factors, load_ids, comment) =>
                  scale_factors) (cards t) in
    load_ids0 ← np_int32 all_load_ids;
    let t := _save t load_id0 scale0 nloads0 load_ids0 all_scale_factors in
    Ok (clear_cards t)).

(** The property [iload]. *)
Definition iload (t : table) : list (nat * nat) :=
  make_idim (n t) (nloads t).

(** [__apply_slice__(self, load, i)] on a fresh [load]. *)
Definition __apply_slice__ (self load : table) (i : list nat) : result table :=
  load_id' ← np_index (load_id self) i;
  scale' ← np_index (scale self) i;
  let iload0 := iload self in
  load_ids' ← hslice_by_idim i iload0 (load_ids self);
  scale_factors' ← hslice_by_idim i iload0 (scale_factors self);
  nloads' ← np_index (nloads self) i;
  Ok {| cards := cards load; n := length i;
        load_id := load_id'; scale := scale';
        nloads := nloads'; load_ids := load_ids';
        scale_factors := scale_factors' |}.

(** Modelled from the spec: [VectorizedBaseCard.slice_card_by_index] is
    not part of the sources at hand; it builds a new table of the same
    class and fills it through [__apply_slice__], as [SPC1] and [DEFORM]
    do in their own overrides. *)
Definition slice_card_by_index (self : table) (i : list nat) : result table :=
  __apply_slice__ self init i.

Definition append_load (loads_by_load_id : gmap Z (list Load.table))
    (uload_id : Z) (loadi2 : Load.table) : gmap Z (list Load.table) :=
  <[uload_id := default [] (loads_by_load_id !! uload_id) ++ [loadi2]]>
    loads_by_load_id.

(** [for uload_id in uload_idsi] *)
Fixpoint collect_ids (loadi : Load.table) (uload_idsi : list Z)
    (loads_by_load_id : gmap Z (list Load.table))
    : result (gmap Z (list Load.table)) :=
  match uload_idsi with
  | [] => Ok loads_by_load_id
  | uload_id :: rest =>
      loadi2 ← Load.slice_card_by_load_id loadi uload_id;
      collect_ids loadi rest (append_load loads_by_load_id uload_id loadi2)
  end.

(** [for loadi in model.load_cards] *)
Fixpoint collect_cards (load_cards : list Load.table)
    (loads_by_load_id : gmap Z (list Load.table))
    : result (gmap Z (list Load.table)) :=
  match load_cards with
  | [] => Ok loads_by_load_id
  | loadi :: rest =>
      if bool_decide (Load.type loadi = "LOAD"%string
                      ∨ Load.type loadi = "LSEQ"%string) then
        collect_cards rest loads_by_load_id
      else if Load.n loadi =? 0 then
        collect_cards rest loads_by_load_id
      else
        let uload_idsi := np_unique (Load.load_id loadi) in
        m ← collect_ids loadi uload_idsi loads_by_load_id;
        collect_cards rest m
  end.

Definition get_loads_by_load_id (load_cards : list Load.table)
    : result (gmap Z (list Load.table)) :=
  collect_cards load_cards ∅.

End LOAD.

(** The value of [get_reduced_loads]: for each id the list of
    [(scale factor, concrete load tables)] pairs. *)
Abbreviation reduced_loads_t := (gmap Z (list (float * list Load.table))).

Section get_reduced_loads.
Variable loads_by_load_id : gmap Z (list Load.table).
Variable filter_zero_scale_factors : bool.
Variable stop_on_failure : bool.

(** [for (scale_factor, load_id) in zip(scale_factors, load_ids)] *)
Fixpoint reduce_members (sid : Z) (reduced_loads : reduced_loads_t)
    (members : list (float * Z))
    (reduced_loadsi : list (float * list Load.table))
    : LogM (list (float * list Load.table)) :=
  match members with
  | [] => lret reduced_loadsi
  | (scale_factor, load_id) :: members' =>
      if (scale_factor =? 0)%float && filter_zero_scale_factors then
        reduce_members sid reduced_loads members' reduced_loadsi
      else
        match loads_by_load_id !! load_id with
        | Some loads_found =>
            ldo_ (if length loads_found =? 0 then
                    ldo_ log_write ERROR (NoReferencedLoads load_id sid);
                    if stop_on_failure then lraise RuntimeError else lret tt
                  else lret tt);
            reduce_members sid reduced_loads members'
              (reduced_loadsi ++ [(scale_factor, loads_found)])
        | None =>
            if bool_decide (is_Some (reduced_loads !! load_id)) then
              ldo_ log_write WARNING (ReferencesAnotherLOAD sid load_id);
              reduce_members sid reduced_loads members' reduced_loadsi
            else
              ldo_ log_write WARNING (CannotFindLoad load_id);
              reduce_members sid reduced_loads members' reduced_loadsi
        end
  end.

(** [for sid, global_scale, iload in zip(load.load_id,
    load.scale_factors, load.iload)] *)
Fixpoint reduce_rows (load : LOAD.table)
    (rows : list (Z * float * (nat * nat)))
    (reduced_loads : reduced_loads_t) : LogM reduced_loads_t :=
  match rows with
  | [] => lret reduced_loads
  | (sid, global_scale, (iload0, iload1)) :: rows' =>
      if (global_scale =? 0)%float && filter_zero_scale_factors then
        reduce_rows load rows' reduced_loads
      else
        let scale_factors :=
          map (PrimFloat.mul global_scale)
              (py_slice (LOAD.scale_factors load) iload0 iload1) in
        let load_ids := py_slice (LOAD.load_ids load) iload0 iload1 in
        ldo reduced_loadsi <-
          reduce_members sid reduced_loads (zip scale_factors load_ids) [];
        if length reduced_loadsi =? 0 then
          reduce_rows load rows' reduced_loads
        else
          reduce_rows load rows' (<[sid := reduced_loadsi]> reduced_loads)
  end.

End get_reduced_loads.

(** [# loads that weren't referenced by a LOAD card] *)
Definition add_unreferenced (loads_by_load_id : gmap Z (list Load.table))
    (reduced_loads : reduced_loads_t) : reduced_loads_t :=
  map_fold (fun load_id loads (reduced_loads : reduced_loads_t) =>
              if bool_decide (is_Some (reduced_loads !! load_id))
              then reduced_loads
              else <[load_id := [(1%float, loads)]]> reduced_loads)
           reduced_loads loads_by_load_id.

(** [get_reduced_loads(load, remove_missing_loads,
    filter_zero_scale_factors, stop_on_failure)], with [load.model.load_cards]
    passed as [load_cards]. *)
Definition get_reduced_loads (load_cards : list Load.table)
    (load : LOAD.table) (remove_missing_loads : bool)
    (filter_zero_scale_factors : bool) (stop_on_failure : bool)
    : LogM reduced_loads_t :=
  let reduced_loads : reduced_loads_t := ∅ in
  if LOAD.n load =? 0 then lret reduced_loads
  else
    let stop_on_failure := true in
    ldo loads_by_load_id <- llift (LOAD.get_loads_by_load_id load_cards);
    ldo reduced_loads <-
      reduce_rows loads_by_load_id filter_zero_scale_factors stop_on_failure
        load
        (zip (zip (LOAD.load_id load) (LOAD.scale_factors load))
             (LOAD.iload load))
        reduced_loads;
    lret (add_unreferenced loads_by_load_id reduced_loads).

(** ** SPC *)

Module SPC.

Record table : Type := {
  n : nat;
  spc_id : list Z;
  node_id : list Z;
  components : list Z;
  enforced : list float;
}.

Definition init : table :=
  {| n := 0; spc_id := []; node_id := []; components := []; enforced := [] |}.

Definition __apply_slice__ (self spc : table) (i : list nat) : result table :=
  spc_id' ← np_index (spc_id self) i;
  node_id' ← np_index (node_id self) i;
  components' ← np_index (components self) i;
  enforced' ← np_index (enforced self) i;
  Ok {| n := length i; spc_id := spc_id'; node_id := node_id';
        components := components'; enforced := enforced' |}.

Definition slice_card_by_index (self : table) (i : list nat) : result table :=
  __apply_slice__ self init i.

End SPC.

(** ** SPC1: constraints with a ragged node list *)

Module SPC1.

(** A staged tuple [(spc_id, components, nodes, comment)]. *)
Definition card : Type := Z * Z * list Z * string.

Record table : Type := {
  cards : list card;
  n : nat;
  spc_id : list Z;
  components : list Z;
  node_id : list Z;
  nnodes : list nat;
}.

Definition init : table :=
  {| cards := []; n := 0; spc_id := []; components := [];
     node_id := []; nnodes := [] |}.

Definition stage (t : table) (c : card) : table :=
  {| cards := cards t ++ [c]; n := S (n t);
     spc_id := spc_id t; components := components t;
     node_id := node_id t; nnodes := nnodes t |}.

(** [add]: a single integer is wrapped into a one-element list. *)
Definition add (t : table) (spc_id0 components0 : Z) (nodes : Z + list Z)
    (comment : string) : table :=
  let nodes := match nodes with inl node => [node] | inr nodes => nodes end in
  stage t (spc_id0, components0, nodes, comment).

Section add_card.
(** [expand_thru(node_fields, set_fields=True, sort_fields=True)], the
    external range expansion. *)
Variable expand_thru : list (option field_value) -> result (list Z).

Definition add_card (t : table) (card : BDFCard) (comment : string)
    : result table :=
  spc_id0 ← integer card 1;
  (* components_or_blank(card, 2, 'components', default=0) *)
  components0 ← integer_or_blank card 2 0;
  let node_fields := card_fields card 3 in
  let nnodes0 := length node_fields in
  _ ← py_assert (0 <? nnodes0);
  nodes ← expand_thru node_fields;
  Ok (stage t (spc_id0, components0, nodes, comment)).
End add_card.

Definition _save (t : table) (spc_id0 node_id0 components0 : list Z)
    (nnodes0 : list nat) : table :=
  let nspcs := length spc_id0 in
  {| cards := cards t; n := nspcs;
     spc_id := spc_id0; components := components0;
     node_id := node_id0; nnodes := nnodes0 |}.

Definition clear_cards (t : table) : table :=
  {| cards := []; n := n t; spc_id := spc_id t;
     components := components t; node_id := node_id t;
     nnodes := nnodes t |}.

(** [parse_cards], decorated with [VectorizedBaseCard.parse_cards_check].
    [spc_id] and [components] are arrays of dtype [int32], filled by the
    loop; the node ids go through the external [cast_int_array], which
    chooses the integer type of the array and is taken to keep the
    values. *)
Definition parse_cards : table -> result table :=
  parse_cards_check cards (fun t =>
    spc_id0 ←
      np_int32
        (map (fun '(spc_idi, componentsi, nodesi, comment) => spc_idi)
             (cards t));
    components0 ←
      np_int32
        (map (fun '(spc_idi, componentsi, nodesi, comment) => componentsi)
             (cards t));
    let nnodes0 :=
      map (fun '(spc_idi, componentsi, nodesi, comment) => length nodesi)
          (cards t) in
    let node_id0 :=
      flat_map (fun '(spc_idi, componentsi, nodesi, comment) => nodesi)
               (cards t) in
    let t := _save t spc_id0 node_id0 components0 nnodes0 in
    Ok (clear_cards t)).

(** The property [inode]. *)
Definition inode (t : table) : list (nat * nat) :=
  make_idim (n t) (nnodes t).

(** [__apply_slice__(self, spc, i)] on a fresh [spc]. *)
Definition __apply_slice__ (self spc : table) (i : list nat) : result table :=
  spc_id' ← np_index (spc_id self) i;
  components' ← np_index (components self) i;
  nnodes' ← np_index (nnodes self) i;
  let idim := inode self in
  node_id' ← hslice_by_idim i idim (node_id self);
  Ok {| cards := cards spc; n := length i;
        spc_id := spc_id'; components := components';
        node_id := node_id'; nnodes := nnodes' |}.

Definition slice_card_by_index (self : table) (i : list nat) : result table :=
  __apply_slice__ self init i.

Definition slice_card_by_id (self : table) (spc_id0 : Z) : result table :=
  let i := np_where_eq spc_id0 (spc_id self) 0 in
  __apply_slice__ self init i.

End SPC1.

(** ** ADD: the common base of SPCADD and MPCADD *)

Module ADD.

(** A staged tuple [(sid, sets, comment)]; [sets] holds integers when it
    comes from [add] and whatever [np.unique] returned when it comes from
    [add_card]. *)
Definition card : Type := Z * list field_value * string.

Record table : Type := {
  cards : list card;
  n : nat;
  sid : list Z;
  sids : list Z;
  nsids : list nat;
}.

Definition init : table :=
  {| cards := []; n := 0; sid := []; sids := []; nsids := [] |}.

Definition stage (t : table) (c : card) : table :=
  {| cards := cards t ++ [c]; n := S (n t);
     sid := sid t; sids := sids t; nsids := nsids t |}.

(** [add]: a single integer is wrapped into a one-element list. *)
Definition add (t : table) (sid0 : Z) (sets : Z + list Z)
    (comment : string) : table :=
  let sets := match sets with inl set => [set] | inr sets => sets end in
  stage t (sid0, map FInt sets, comment).

Definition add_card (t : table) (card : BDFCard) (comment : string)
    : result table :=
  sid0 ← integer card 1;
  sets ← np_unique_fields (card_fields card 2);
  let nset_cards := length sets in
  _ ← py_assert (0 <? nset_cards);
  Ok (stage t (sid0, sets, comment)).

Definition _save (t : table) (sid0 sids0 : list Z) (nsids0 : list nat)
    : result table :=
  let '(sid0, sids0, nsids0) :=
    if negb (length (sid t) =? 0) then
      let sid0 := sid t ++ sids0 in
      let sids0 := sids t ++ sids0 in
      let nsids0 := nsids t ++ nsids0 in
      (sid0, sids0, nsids0)
    else (sid0, sids0, nsids0) in
  let nsid := length sid0 in
  nsids_min ← np_min_nat nsids0;
  _ ← py_assert (0 <? nsids_min);
  Ok {| cards := cards t; n := nsid;
        sid := sid0; sids := sids0; nsids := nsids0 |}.

Definition clear_cards (t : table) : table :=
  {| cards := []; n := n t; sid := sid t; sids := sids t;
     nsids := nsids t |}.

(** The loop of [parse_cards]: each staged tuple stores its [sid] in an
    array of dtype [int32] and asserts that it has members; the result is
    [(sid, nsids, sids_list)]. *)
Fixpoint parse_loop (cards : list card)
    : result (list Z * list nat * list field_value) :=
  match cards with
  | [] => Ok ([], [], [])
  | (sidi, setsi, comment) :: cards' =>
      sidi ← int32_store sidi;
      let nset_cards := length setsi in
      _ ← py_assert (0 <? nset_cards);
      '(sid0, nsids0, sids_list) ← parse_loop cards';
      Ok (sidi :: sid0, nset_cards :: nsids0, setsi ++ sids_list)
  end.

(** [parse_cards], decorated with [VectorizedBaseCard.parse_cards_check]. *)
Definition parse_cards : table -> result table :=
  parse_cards_check cards (fun t =>
    let ncards := length (cards t) in
    _ ← py_assert (0 <? ncards);
    '(sid0, nsids0, sids_list) ← parse_loop (cards t);
    sids0 ← int32_array sids_list;
    t ← _save t sid0 sids0 nsids0;
    Ok (clear_cards t)).

(** The property [idim]. *)
Definition idim (t : table) : list (nat * nat) :=
  make_idim (n t) (nsids t).

(** The member ids of row [k], [sids[idim0:idim1]]. *)
Definition row_sids (t : table) (k : nat) : option (list Z) :=
  match idim t !! k with
  | Some (idim0, idim1) => Some (py_slice (sids t) idim0 idim1)
  | None => None
  end.

End ADD.

(** ** SPCADD *)

(** A member of [model.spc_cards]. *)
Inductive spc_card : Type :=
| SPC_table (t : SPC.table)
| SPC1_table (t : SPC1.table)
| SPCADD_table (t : ADD.table).

Definition spc_card_type (spc : spc_card) : string :=
  match spc with
  | SPC_table _ => "SPC"
  | SPC1_table _ => "SPC1"
  | SPCADD_table _ => "SPCADD"
  end.

Definition spc_card_spc_id (spc : spc_card) : list Z :=
  match spc with
  | SPC_table t => SPC.spc_id t
  | SPC1_table t => SPC1.spc_id t
  | SPCADD_table t => ADD.sid t
  end.

Definition spc_card_slice_card_by_index (spc : spc_card) (i : list nat)
    : result spc_card :=
  match spc with
  | SPC_table t => t' ← SPC.slice_card_by_index t i; Ok (SPC_table t')
  | SPC1_table t => t' ← SPC1.slice_card_by_index t i; Ok (SPC1_table t')
  | SPCADD_table t => Raise TypeError (* not reached: SPCADD is skipped *)
  end.

Module SPCADD.
Import ADD.

Definition spc_id (t : table) : list Z := sid t.
Definition spc_ids (t : table) : list Z := sids t.

(** [for spc_id, idim in zip(self.spc_id, self.idim)] of [write_file] *)
Fixpoint write_rows (print_card : nat) (t : table)
    (rows : list (Z * (nat * nat))) : result (list card_line) :=
  match rows with
  | [] => Ok []
  | (spc_id, (idim0, idim1)) :: rows' =>
      _ ← py_assert (idim0 <? idim1);
      let spc_idsi := map OInt (py_slice (spc_ids t) idim0 idim1) in
      _ ← py_assert (0 <? length spc_idsi);
      lines ← write_rows print_card t rows';
      Ok ({| field_width := print_card;
             list_fields := [OStr "SPCADD"; OInt spc_id] ++ spc_idsi |}
            :: lines)
  end.

(** [write_file(bdf_file, size)]; [get_print_card_8_16(size)] is the
    printer of the requested width. *)
Definition write_file (t : table) (size : nat) : result (list card_line) :=
  if length (spc_id t) =? 0 then Ok []
  else write_rows size t (zip (spc_id t) (idim t)).

Definition append_spc (spc_by_spc_id : gmap Z (list spc_card))
    (uspc_id : Z) (spci : spc_card) : gmap Z (list spc_card) :=
  <[uspc_id := default [] (spc_by_spc_id !! uspc_id) ++ [spci]]>
    spc_by_spc_id.

(** [for uspc_id in uspc_idsi] *)
Fixpoint collect_ids (spc : spc_card) (uspc_idsi : list Z)
    (spc_by_spc_id : gmap Z (list spc_card))
    : result (gmap Z (list spc_card)) :=
  match uspc_idsi with
  | [] => Ok spc_by_spc_id
  | uspc_id :: rest =>
      let i := np_where_eq uspc_id (spc_card_spc_id spc) 0 in
      if length i =? 0 then collect_ids spc rest spc_by_spc_id
      else
        spci ← spc_card_slice_card_by_index spc i;
        collect_ids spc rest (append_spc spc_by_spc_id uspc_id spci)
  end.

(** [for spc in model.spc_cards] *)
Fixpoint collect_cards (spc_cards : list spc_card)
    (spc_by_spc_id : gmap Z (list spc_card))
    : result (gmap Z (list spc_card)) :=
  match spc_cards with
  | [] => Ok spc_by_spc_id
  | spc :: rest =>
      if bool_decide (spc_card_type spc = "SPCADD"%string
                      ∨ spc_card_type spc = "SPCOFF"%string) then
        collect_cards rest spc_by_spc_id
      else
        let uspc_idsi := np_unique (spc_card_spc_id spc) in
        m ← collect_ids spc uspc_idsi spc_by_spc_id;
        collect_cards rest m
  end.

Definition get_spcs_by_spc_id (spc_cards : list spc_card)
    : result (gmap Z (list spc_card)) :=
  collect_cards spc_cards ∅.

Section get_reduced_spcs.
Variable spc_by_spc_id : gmap Z (list spc_card).
Variable stop_on_failure : bool.

(** [for spc_idi in spc_ids] *)
Fixpoint reduce_members (sid : Z) (spc_ids : list Z)
    (reduced_spcsi : list (list spc_card)) : LogM (list (list spc_card)) :=
  match spc_ids with
  | [] => lret reduced_spcsi
  | spc_idi :: spc_ids' =>
      match spc_by_spc_id !! spc_idi with
      | None => lraise (KeyError spc_idi)
      | Some spcs_found =>
          ldo_ (if length spcs_found =? 0 then
                  ldo_ log_write ERROR (NoReferencedSPCs spc_idi sid);
                  if stop_on_failure then lraise RuntimeError else lret tt
                else lret tt);
          reduce_members sid spc_ids' (reduced_spcsi ++ [spcs_found])
      end
  end.

(** [for sid, idim in zip(self.spc_id, self.idim)] *)
Fixpoint reduce_rows (self : table) (rows : list (Z * (nat * nat)))
    (reduced_spcs : gmap Z (list (list spc_card)))
    : LogM (gmap Z (list (list spc_card))) :=
  match rows with
  | [] => lret reduced_spcs
  | (sid, (idim0, idim1)) :: rows' =>
      let spc_ids := py_slice (spc_ids self) idim0 idim1 in
      ldo reduced_spcsi <- reduce_members sid spc_ids [];
      reduce_rows self rows' (<[sid := reduced_spcsi]> reduced_spcs)
  end.
End get_reduced_spcs.

(** [get_reduced_spcs(self, stop_on_failure)], with [model.spc_cards]
    passed as [spc_cards]. *)
Definition get_reduced_spcs (spc_cards : list spc_card) (self : table)
    (stop_on_failure : bool) : LogM (gmap Z (list (list spc_card))) :=
  let stop_on_failure := true in
  ldo spc_by_spc_id <- llift (get_spcs_by_spc_id spc_cards);
  let reduced_spcs : gmap Z (list (list spc_card)) := ∅ in
  reduce_rows spc_by_spc_id stop_on_failure self
    (zip (spc_id self) (idim self)) reduced_spcs.

End SPCADD.

(** ** MPCADD *)

Module MPCADD.
Import ADD.

Definition mpc_id (t : table) : list Z := sid t.
Definition mpc_ids (t : table) : list Z := sids t.

(** The property [is_small_field]. *)
Definition is_small_field (t : table) : result bool :=
  a ← np_max (mpc_id t);
  b ← np_max (mpc_ids t);
  Ok (Z.max a b <? 99999999)%Z.

(** [for mpc_id, idim in zip(self.mpc_id, self.idim)] *)
Definition write_rows (print_card : nat) (t : table) : list card_line :=
  map (fun '(mpc_id, (idim0, idim1)) =>
         let mpc_idsi := map OInt (py_slice (mpc_ids t) idim0 idim1) in
         {| field_width := print_card;
            list_fields := [OStr "MPCADD"; OInt mpc_id] ++ mpc_idsi |})
      (zip (mpc_id t) (idim t)).

(** [write_file(bdf_file, size)]: the cards written to [bdf_file]. *)
Definition write_file (t : table) (size : nat) : result (list card_line) :=
  if length (mpc_id t) =? 0 then Ok []
  else
    small ← (if size =? 8 then is_small_field t else Ok false);
    let print_card := if small : bool then 8 else 16 in
    Ok (write_rows print_card t).

End MPCADD.

(** ** SET1: sets with a ragged id list *)

Module SET1.

(** A staged tuple [(sid, is_skin, ids, comment)]; the ids may still hold
    the string THRU. *)
Definition card : Type := Z * bool * list field_value * string.

(** [dims] is the attribute the effective [__apply_slice__] assigns; it
    does not exist ([None]) before the first slice. *)
Record table : Type := {
  cards : list card;
  n : nat;
  set_id : list Z;
  is_skin : list bool;
  ids : list Z;
  num_ids : list nat;
  dims : option (list Z);
}.

Definition init : table :=
  {| cards := []; n := 0; set_id := []; is_skin := []; ids := [];
     num_ids := []; dims := None |}.

Definition stage (t : table) (c : card) : table :=
  {| cards := cards t ++ [c]; n := S (n t);
     set_id := set_id t; is_skin := is_skin t; ids := ids t;
     num_ids := num_ids t; dims := dims t |}.

Definition add (t : table) (sid : Z) (ids0 : list field_value)
    (is_skin0 : bool) (comment : string) : table :=
  stage t (sid, is_skin0, ids0, comment).

(** [fields(integer_or_string, card, 'ID', i=2, j=len(card))] *)
Fixpoint integer_or_string_fields (fields : list (option field_value))
    : result (list field_value) :=
  match fields with
  | [] => Ok []
  | Some (FInt z) :: fields' =>
      vs ← integer_or_string_fields fields'; Ok (FInt z :: vs)
  | Some (FStr s) :: fields' =>
      vs ← integer_or_string_fields fields';
      Ok (match int_of_text s with Some z => FInt z | None => FStr s end
            :: vs)
  | _ :: _ => Raise SyntaxError
  end.

Definition add_card (t : table) (card : BDFCard) (comment : string)
    : result table :=
  sid ← integer card 1;
  ids0 ← integer_or_string_fields (card_fields card 2);
  '(is_skin0, i) ←
    (if 0 <? length ids0 then
       match ids0 with
       | FStr "SKIN" :: _ => Ok (true, 1)
       | _ => Ok (false, 0)
       end
     else
       _ ← py_assert (2 <? length card);
       Ok (false, 0));
  Ok (stage t (sid, is_skin0, drop i ids0, comment)).

Definition _save (t : table) (set_id0 : list Z) (is_skin0 : list bool)
    (num_ids0 : list nat) (ids0 : list Z) : table :=
  {| cards := cards t; n := length set_id0;
     set_id := set_id0; is_skin := is_skin0; ids := ids0;
     num_ids := num_ids0; dims := dims t |}.

(** The property [inid]. *)
Definition inid (t : table) : list (nat * nat) :=
  make_idim (n t) (num_ids t).

Definition set_n (t : table) (v : nat) : table :=
  {| cards := cards t; n := v; set_id := set_id t; is_skin := is_skin t;
     ids := ids t; num_ids := num_ids t; dims := dims t |}.
Definition set_set_id (t : table) (v : list Z) : table :=
  {| cards := cards t; n := n t; set_id := v; is_skin := is_skin t;
     ids := ids t; num_ids := num_ids t; dims := dims t |}.
Definition set_is_skin (t : table) (v : list bool) : table :=
  {| cards := cards t; n := n t; set_id := set_id t; is_skin := v;
     ids := ids t; num_ids := num_ids t; dims := dims t |}.
Definition set_dims (t : table) (v : list Z) : table :=
  {| cards := cards t; n := n t; set_id := set_id t; is_skin := is_skin t;
     ids := ids t; num_ids := num_ids t; dims := Some v |}.
Definition set_num_ids (t : table) (v : list nat) : table :=
  {| cards := cards t; n := n t; set_id := set_id t; is_skin := is_skin t;
     ids := ids t; num_ids := v; dims := dims t |}.
Definition set_cards (t : table) (v : list card) : table :=
  {| cards := v; n := n t; set_id := set_id t; is_skin := is_skin t;
     ids := ids t; num_ids := num_ids t; dims := dims t |}.

(** [__apply_slice__(self, set_card, i)], the second definition of the
    class body, which is the one in effect (it replaces the first one,
    which assigned [set_card.ids]).  [sort] passes the table itself as
    [set_card]: with [same] every assignment to [set_card] is seen
    through [self] by the statements that follow. *)
Definition __apply_slice__ (same : bool) (self set_card : table) (i : list nat)
    : result table :=
  _ ← py_assert (sum_nat (num_ids self) =? length (ids self));
  let set_card := set_n set_card (length i) in
  let self := if same then set_card else self in
  set_id' ← np_index (set_id self) i;
  let set_card := set_set_id set_card set_id' in
  let self := if same then set_card else self in
  is_skin' ← np_index (is_skin self) i;
  let set_card := set_is_skin set_card is_skin' in
  let self := if same then set_card else self in
  let inid0 := inid self in
  dims' ← hslice_by_idim i inid0 (ids self);
  let set_card := set_dims set_card dims' in
  let self := if same then set_card else self in
  num_ids' ← np_index (num_ids self) i;
  let set_card := set_num_ids set_card num_ids' in
  Ok set_card.

(** Modelled from the spec: [VectorizedBaseCard.slice_card_by_index] is
    not part of the sources at hand; it builds a new table of the same
    class and fills it through [__apply_slice__], as [SPC1] and [DEFORM]
    do in their own overrides. *)
Definition slice_card_by_index (self : table) (i : list nat) : result table :=
  __apply_slice__ false self init i.

Definition sort (t : table) : result table :=
  let usid := np_unique (set_id t) in
  if bool_decide (usid = set_id t) then Ok t
  else
    let i := np_argsort (set_id t) in
    __apply_slice__ true t t i.

Section parse_cards.
(** [expand_thru(idsi)], the external range expansion. *)
Variable expand_thru : list field_value -> list Z.

(** [parse_cards], decorated with [VectorizedBaseCard.parse_cards_check]. *)
Definition parse_cards : table -> result table :=
  parse_cards_check cards (fun t =>
    let set_id0 :=
      map (fun '(sid, is_skini, idsi, comment) => sid) (cards t) in
    let is_skin0 :=
      map (fun '(sid, is_skini, idsi, comment) => is_skini) (cards t) in
    let num_ids0 :=
      map (fun '(sid, is_skini, idsi, comment) =>
             length (expand_thru idsi)) (cards t) in
    let all_ids :=
      flat_map (fun '(sid, is_skini, idsi, comment) =>
                  expand_thru idsi) (cards t) in
    let t := _save t set_id0 is_skin0 num_ids0 all_ids in
    t ← sort t;
    Ok (set_cards t [])).
End parse_cards.

(** The id list of row [k], [ids[inid0:inid1]], as [write_file] reads it. *)
Definition row_ids (t : table) (k : nat) : option (list Z) :=
  match inid t !! k with
  | Some (inid0, inid1) => Some (py_slice (ids t) inid0 inid1)
  | None => None
  end.

(** The id list written for set [sid]: that of the first row carrying
    this set id. *)
Definition ids_of_set (t : table) (sid : Z) : option (list Z) :=
  match np_where_eq sid (set_id t) 0 with
  | k :: _ => row_ids t k
  | [] => None
  end.

End SET1.

(** ** MAT1 *)

Module MAT1.

(** A staged tuple [(mid, E, G, nu, rho, alpha, tref, ge, St, Sc, Ss,
    mcsid, comment)]. *)
Definition card : Type :=
  Z * float * float * float * float * float * float * float
  * float * float * float * Z * string.

Record table : Type := {
  cards : list card;
  n : nat;
  material_id : list Z;
  E : list float;
  G : list float;
  nu : list float;
  rho : list float;
  alpha : list float;
  tref : list float;
  ge : list float;
  St : list float;
  Sc : list float;
  Ss : list float;
  mcsid : list Z;
}.

Definition init : table :=
  {| cards := []; n := 0; material_id := []; E := []; G := []; nu := [];
     rho := []; alpha := []; tref := []; ge := [];
     St := []; Sc := []; Ss := []; mcsid := [] |}.

Definition stage (t : table) (c : card) : table :=
  {| cards := cards t ++ [c]; n := S (n t);
     material_id := material_id t; E := E t; G := G t; nu := nu t;
     rho := rho t; alpha := alpha t; tref := tref t; ge := ge t;
     St := St t; Sc := Sc t; Ss := Ss t; mcsid := mcsid t |}.

Section add.
(** [mat1_E_G_nu], the external completion of the one of [E], [G],
    [nu] that is [None]. *)
Variable mat1_E_G_nu :
  option float -> option float -> option float
  -> result (float * float * float).

Definition add (t : table) (mid : Z) (E0 G0 nu0 : option float)
    (rho0 alpha0 tref0 ge0 St0 Sc0 Ss0 : float) (mcsid0 : Z)
    (comment : string) : result table :=
  '(E0, G0, nu0) ← mat1_E_G_nu E0 G0 nu0;
  Ok (stage t (mid, E0, G0, nu0, rho0, alpha0, tref0, ge0,
               St0, Sc0, Ss0, mcsid0, comment)).
End add.

(** [_save(material_id, E, G, nu, rho, alpha, tref, ge, Ss, St, Sc,
    mcsid)]; [material_id] is stacked twice in the source. *)
Definition _save (t : table) (material_id0 : list Z)
    (E0 G0 nu0 rho0 alpha0 tref0 ge0 Ss0 St0 Sc0 : list float)
    (mcsid0 : list Z) : table :=
  if negb (length (material_id t) =? 0) then
    let material_id0 := material_id t ++ material_id0 in
    let E0 := E t ++ E0 in
    let G0 := G t ++ G0 in
    let nu0 := nu t ++ nu0 in
    let rho0 := rho t ++ rho0 in
    let alpha0 := alpha t ++ alpha0 in
    let tref0 := tref t ++ tref0 in
    let ge0 := ge t ++ ge0 in
    let material_id0 := material_id t ++ material_id0 in
    let Ss0 := Ss t ++ Ss0 in
    let St0 := St t ++ St0 in
    let Sc0 := Sc t ++ Sc0 in
    let mcsid0 := mcsid t ++ mcsid0 in
    {| cards := cards t; n := n t;
       material_id := material_id0; E := E0; G := G0; nu := nu0;
       rho := rho0; alpha := alpha0; tref := tref0; ge := ge0;
       St := St0; Sc := Sc0; Ss := Ss0; mcsid := mcsid0 |}
  else
    {| cards := cards t; n := n t;
       material_id := material_id0; E := E0; G := G0; nu := nu0;
       rho := rho0; alpha := alpha0; tref := tref0; ge := ge0;
       St := St0; Sc := Sc0; Ss := Ss0; mcsid := mcsid0 |}.

(** The arrays that the loop of [parse_cards] fills from staged tuples
    whose ids fit [int32], committed through [_save]. *)
Definition save_cards (t : table) : table :=
  let cs := cards t in
  _save t
    (map (fun '(mid, Ei, Gi, nui, rhoi, alphai, trefi, gei,
                Sti, Sci, Ssi, mcsidi, comment) => mid) cs)
    (map (fun '(mid, Ei, Gi, nui, rhoi, alphai, trefi, gei,
                Sti, Sci, Ssi, mcsidi, comment) => Ei) cs)
    (map (fun '(mid, Ei, Gi, nui, rhoi, alphai, trefi, gei,
                Sti, Sci, Ssi, mcsidi, comment) => Gi) cs)
    (map (fun '(mid, Ei, Gi, nui, rhoi, alphai, trefi, gei,
                Sti, Sci, Ssi, mcsidi, comment) => nui) cs)
    (map (fun '(mid, Ei, Gi, nui, rhoi, alphai, trefi, gei,
                Sti, Sci, Ssi, mcsidi, comment) => rhoi) cs)
    (map (fun '(mid, Ei, Gi, nui, rhoi, alphai, trefi, gei,
                Sti, Sci, Ssi, mcsidi, comment) => alphai) cs)
    (map (fun '(mid, Ei, Gi, nui, rhoi, alphai, trefi, gei,
                Sti, Sci, Ssi, mcsidi, comment) => trefi) cs)
    (map (fun '(mid, Ei, Gi, nui, rhoi, alphai, trefi, gei,
                Sti, Sci, Ssi, mcsidi, comment) => gei) cs)
    (map (fun '(mid, Ei, Gi, nui, rhoi, alphai, trefi, gei,
                Sti, Sci, Ssi, mcsidi, comment) => Ssi) cs)
    (map (fun '(mid, Ei, Gi, nui, rhoi, alphai, trefi, gei,
                Sti, Sci, Ssi, mcsidi, comment) => Sti) cs)
    (map (fun '(mid, Ei, Gi, nui, rhoi, alphai, trefi, gei,
                Sti, Sci, Ssi, mcsidi, comment) => Sci) cs)
    (map (fun '(mid, Ei, Gi, nui, rhoi, alphai, trefi, gei,
                Sti, Sci, Ssi, mcsidi, comment) => mcsidi) cs).

Definition clear_cards (t : table) : table :=
  {| cards := []; n := n t;
     material_id := material_id t; E := E t; G := G t; nu := nu t;
     rho := rho t; alpha := alpha t; tref := tref t; ge := ge t;
     St := St t; Sc := Sc t; Ss := Ss t; mcsid := mcsid t |}.

Section parse_cards.
(** [self.sort()], inherited from the base class, which is not part of
    the sources at hand. *)
Variable sort : table -> result table.

(** [parse_cards], decorated with [Material.parse_cards_check].  The
    loop stores [mid] and [mcsidi] of each staged tuple in arrays of dtype
    [int32]; [_save] and [sort] run on the arrays of a loop that went
    through. *)
Definition parse_cards : table -> result table :=
  parse_cards_check cards (fun t =>
    _ ← np_int32
          (flat_map (fun '(mid, Ei, Gi, nui, rhoi, alphai, trefi, gei,
                           Sti, Sci, Ssi, mcsidi, comment) => [mid; mcsidi])
                    (cards t));
    let t := save_cards t in
    t ← sort t;
    Ok (clear_cards t)).
End parse_cards.

(** One tuple of [zip_longest] over the twelve columns: a column that
    has run out yields [None]. *)
Record row : Type := {
  r_mid : option Z;
  r_e : option float;
  r_g : option float;
  r_nu : option float;
  r_rho : option float;
  r_alpha : option float;
  r_tref : option float;
  r_ge : option float;
  r_Ss : option float;
  r_St : option float;
  r_Sc : option float;
  r_mcsid : option Z;
}.

Definition nrows (t : table) : nat :=
  foldr Nat.max 0
    [length (material_id t); length (E t); length (G t); length (nu t);
     length (rho t); length (alpha t); length (tref t); length (ge t);
     length (Ss t); length (St t); length (Sc t); length (mcsid t)].

Definition row_at (t : table) (k : nat) : row :=
  {| r_mid := material_id t !! k; r_e := E t !! k; r_g := G t !! k;
     r_nu := nu t !! k; r_rho := rho t !! k; r_alpha := alpha t !! k;
     r_tref := tref t !! k; r_ge := ge t !! k; r_Ss := Ss t !! k;
     r_St := St t !! k; r_Sc := Sc t !! k; r_mcsid := mcsid t !! k |}.

Definition zip_longest (t : table) : list row :=
  map (row_at t) (seq 0 (nrows t)).

Definition ofloat (x : option float) : out_field :=
  match x with Some x => OFloat x | None => OBlank end.
Definition oint (z : option Z) : out_field :=
  match z with Some z => OInt z | None => OBlank end.

(** Python's [==] between a column value and a literal. *)
Definition float_eq (x : option float) (d : float) : bool :=
  match x with Some x => (x =? d)%float | None => false end.
Definition int_eq (z : option Z) (d : Z) : bool :=
  match z with Some z => (z =? d)%Z | None => false end.

Section write_file.
(** External helpers of the field writer: [get_print_card(size,
    max_int)] chooses the printer, [get_G_default(E, G, nu)] computes
    the default of [G], [is_same] is the comparison behind
    [set_blank_if_default]. *)
Variable get_print_card : nat -> Z -> nat.
Variable get_G_default :
  option float -> option float -> option float -> option float.
Variable is_same : float -> float -> bool.

(** Modelled from the spec: [set_blank_if_default] is not part of the
    sources at hand.  A value that is the same as the default is
    rendered blank ([None]); [None] stays blank. *)
Definition set_blank_if_default (value default : option float)
    : option float :=
  match value, default with
  | Some x, Some d => if is_same x d then None else Some x
  | Some x, None => Some x
  | None, _ => None
  end.

Definition set_blank_if_default_int (value : option Z) (default : Z)
    : option Z :=
  match value with
  | Some z => if (z =? default)%Z then None else Some z
  | None => None
  end.

(** The body of the loop of [write_file]. *)
Definition write_row (print_card : nat) (r : row) : card_line :=
  let g_default := get_G_default (r_e r) (r_g r) (r_nu r) in
  let G := set_blank_if_default (r_g r) g_default in
  let rho := set_blank_if_default (r_rho r) (Some 0%float) in
  let a := set_blank_if_default (r_alpha r) (Some 0%float) in
  let tref := set_blank_if_default (r_tref r) (Some 0%float) in
  let ge := set_blank_if_default (r_ge r) (Some 0%float) in
  if float_eq (r_St r) 0 && float_eq (r_Sc r) 0
     && float_eq (r_Ss r) 0 && int_eq (r_mcsid r) 0 then
    {| field_width := print_card;
       list_fields :=
         [OStr "MAT1"; oint (r_mid r); ofloat (r_e r); ofloat G;
          ofloat (r_nu r); ofloat rho; ofloat a; ofloat tref;
          ofloat ge] |}
  else
    let St := set_blank_if_default (r_St r) (Some 0%float) in
    let Sc := set_blank_if_default (r_Sc r) (Some 0%float) in
    let Ss := set_blank_if_default (r_Ss r) (Some 0%float) in
    let mcsid := set_blank_if_default_int (r_mcsid r) 0 in
    {| field_width := print_card;
       list_fields :=
         [OStr "MAT1"; oint (r_mid r); ofloat (r_e r); ofloat G;
          ofloat (r_nu r); ofloat rho; ofloat a; ofloat tref;
          ofloat ge; ofloat St; ofloat Sc; ofloat Ss; oint mcsid] |}.

(** [write_file(bdf_file, size)], decorated with [parse_material_check]:
    the cards written to [bdf_file]. *)
Definition write_file : table -> nat -> result (list card_line) :=
  parse_material_check n (fun t size =>
    a ← np_max (material_id t);
    b ← np_max (mcsid t);
    let max_int := Z.max a b in
    let print_card := get_print_card size max_int in
    Ok (map (write_row print_card) (zip_longest t))).
End write_file.

End MAT1.

(** ** CONM2 *)

Module CONM2.

(** A staged tuple [(eid, nid, cid, mass, X, I, comment)]. *)
Definition card : Type :=
  Z * Z * Z * float * option (list float) * option (list float) * string.

Record table : Type := {
  cards : list card;
  n : nat;
  element_id : list Z;
  _mass : list float;
  coord_id : list Z;
  node_id : list Z;
  xyz_offset : list (list float);
  inertia : list (list float);
}.

Definition init : table :=
  {| cards := []; n := 0; element_id := []; _mass := []; coord_id := [];
     node_id := []; xyz_offset := []; inertia := [] |}.

Definition add (t : table) (eid nid : Z) (mass : float) (cid : Z)
    (X_ I_ : option (list float)) (comment : string) : table :=
  {| cards := cards t ++ [(eid, nid, cid, mass, X_, I_, comment)];
     n := S (n t);
     element_id := element_id t; _mass := _mass t;
     coord_id := coord_id t; node_id := node_id t;
     xyz_offset := xyz_offset t; inertia := inertia t |}.

(** [array[icard, :] = X] on a row of zeros of the given width: numpy
    broadcasts a single value and raises [ValueError] on any other
    length mismatch; [None] leaves the zeros. *)
Definition assign_row (width : nat) (X : option (list float))
    : result (list float) :=
  match X with
  | None => Ok (replicate width 0%float)
  | Some [x] => Ok (replicate width x)
  | Some l => if length l =? width then Ok l else Raise ValueError
  end.

(** The arrays of [parse_cards], in the order of the arguments of
    [_save]: [(element_id, mass, coord_id, node_id, xyz_offset,
    inertia)]. *)
Definition arrays : Type :=
  list Z * list float * list Z * list Z
  * list (list float) * list (list float).

(** The loop of [parse_cards]: [coord_id] is an array of dtype [int32],
    [xyz_offset] and [inertia] are filled row by row. *)
Fixpoint parse_loop (cards : list card) : result arrays :=
  match cards with
  | [] => Ok ([], [], [], [], [], [])
  | (eid, nid, cid, massi, X_, I_, comment) :: cards' =>
      cid ← int32_store cid;
      xyz_offseti ← assign_row 3 X_;
      inertiai ← assign_row 6 I_;
      '(element_id0, mass0, coord_id0, node_id0, xyz_offset0, inertia0) ←
        parse_loop cards';
      Ok (eid :: element_id0, massi :: mass0, cid :: coord_id0,
          nid :: node_id0, xyz_offseti :: xyz_offset0,
          inertiai :: inertia0)
  end.

(** [_save]; [element_id] and [node_id] go through the external
    [cast_int_array], which chooses the integer type of the array and is
    taken to keep the values. *)
Definition _save (t : table) (element_id0 : list Z) (mass0 : list float)
    (coord_id0 node_id0 : list Z) (xyz_offset0 inertia0 : list (list float))
    : result table :=
  if negb (length (element_id t) =? 0) then Raise RuntimeError
  else
    Ok {| cards := cards t; n := n t;
          element_id := element_id0; _mass := mass0;
          coord_id := coord_id0; node_id := node_id0;
          xyz_offset := xyz_offset0; inertia := inertia0 |}.

Definition clear_cards (t : table) : table :=
  {| cards := []; n := n t;
     element_id := element_id t; _mass := _mass t;
     coord_id := coord_id t; node_id := node_id t;
     xyz_offset := xyz_offset t; inertia := inertia t |}.

Section parse_cards.
(** [self.sort()], inherited from the base class, which is not part of
    the sources at hand. *)
Variable sort : table -> result table.

(** [parse_cards], decorated with [Element.parse_cards_check]. *)
Definition parse_cards : table -> result table :=
  parse_cards_check cards (fun t =>
    '(element_id0, mass0, coord_id0, node_id0, xyz_offset0, inertia0) ←
      parse_loop (cards t);
    t ← _save t element_id0 mass0 coord_id0 node_id0 xyz_offset0 inertia0;
    t ← sort t;
    Ok (clear_cards t)).
End parse_cards.

End CONM2.

(** * Decks and predicates used in the properties *)

(** Every list stored by [get_loads_by_load_id] holds at least one table:
    an id is a key only once a slice has been appended under it. *)
Definition nonempty_values {A} (m : gmap Z (list A)) : Prop :=
  forall k l, m !! k = Some l -> l <> [].

(** The parallel columns of a concrete load table have one entry per
    row. *)
Definition Load_columns (t : Load.table) : Prop :=
  length (Load.elements t) = length (Load.load_id t)
  /\ length (Load.enforced t) = length (Load.load_id t).

(** A table that [get_loads_by_load_id] does not skip. *)
Definition Load_concrete (t : Load.table) : Prop :=
  Load.type t <> "LOAD"%string /\ Load.type t <> "LSEQ"%string
  /\ Load.n t <> 0.

(** Two DEFORM rows with load ids 1 and 5. *)
Definition deform_1_5 : Load.table :=
  {| Load.type := "DEFORM"; Load.cards := []; Load.n := 2;
     Load.load_id := [1; 5]%Z; Load.elements := [10; 11]%Z;
     Load.enforced := [0.5; 0.25]%float |}.

Definition deform_1 : Load.table :=
  {| Load.type := "DEFORM"; Load.cards := []; Load.n := 1;
     Load.load_id := [1]%Z; Load.elements := [10]%Z;
     Load.enforced := [0.5]%float |}.

Definition deform_5 : Load.table :=
  {| Load.type := "DEFORM"; Load.cards := []; Load.n := 1;
     Load.load_id := [5]%Z; Load.elements := [11]%Z;
     Load.enforced := [0.25]%float |}.

(** [LOAD, 100, 2.0, 3.0, 1, 5.0, 5] *)
Definition load_100 : LOAD.table :=
  {| LOAD.cards := []; LOAD.n := 1;
     LOAD.load_id := [100]%Z; LOAD.scale := [2]%float;
     LOAD.nloads := [2]; LOAD.load_ids := [1; 5]%Z;
     LOAD.scale_factors := [3; 5]%float |}.

(** [LOAD, 100, 2.0, 3.0, 7]: load 7 is defined nowhere. *)
Definition load_dangling : LOAD.table :=
  {| LOAD.cards := []; LOAD.n := 1;
     LOAD.load_id := [100]%Z; LOAD.scale := [2]%float;
     LOAD.nloads := [1]; LOAD.load_ids := [7]%Z;
     LOAD.scale_factors := [3]%float |}.

(** [LOAD, 5, 2.0, 3.0, 1]: the aggregate id 5 is also a DEFORM id. *)
Definition load_5 : LOAD.table :=
  {| LOAD.cards := []; LOAD.n := 1;
     LOAD.load_id := [5]%Z; LOAD.scale := [2]%float;
     LOAD.nloads := [1]; LOAD.load_ids := [1]%Z;
     LOAD.scale_factors := [3]%float |}.

(** Two floats that [==] tells apart are different. *)
Ltac float_neq y :=
  let H := fresh in
  intro H; apply (f_equal (fun x => PrimFloat.eqb x y)) in H;
  vm_compute in H; discriminate H.

(** The table [load] with another column of global scales. *)
Definition with_scale (load : LOAD.table) (scale' : list float) : LOAD.table :=
  {| LOAD.cards := LOAD.cards load; LOAD.n := LOAD.n load;
     LOAD.load_id := LOAD.load_id load; LOAD.scale := scale';
     LOAD.nloads := LOAD.nloads load; LOAD.load_ids := LOAD.load_ids load;
     LOAD.scale_factors := LOAD.scale_factors load |}.

(** The tuples over which the row loop of [get_reduced_loads] runs. *)
Definition LOAD_zipped (load : LOAD.table) : list (Z * float * (nat * nat)) :=
  zip (zip (LOAD.load_id load) (LOAD.scale_factors load)) (LOAD.iload load).

(** The pairs that the member loop of [get_reduced_loads] records when
    nothing is raised: a member is recorded with the concrete loads it
    names, unless it names none or has a zero scale factor that is
    filtered. *)
Definition LOAD_recorded_members (m : gmap Z (list Load.table)) (fz : bool)
    (members : list (float * Z)) : list (float * list Load.table) :=
  omap (fun '(scale_factor, load_id) =>
          if (scale_factor =? 0)%float && fz then None
          else (fun loads => (scale_factor, loads)) <$> m !! load_id)
       members.

(** What the row loop records for one tuple: nothing for a row that is
    skipped for its zero scale, the recorded members of the row
    otherwise. *)
Definition LOAD_recorded (m : gmap Z (list Load.table)) (fz : bool)
    (load : LOAD.table) (row : Z * float * (nat * nat))
    : list (float * list Load.table) :=
  let '(sid, global_scale, (iload0, iload1)) := row in
  if (global_scale =? 0)%float && fz then []
  else
    LOAD_recorded_members m fz
      (zip (map (PrimFloat.mul global_scale)
                (py_slice (LOAD.scale_factors load) iload0 iload1))
           (py_slice (LOAD.load_ids load) iload0 iload1)).

(** The row carries the id [k] and records at least one member. *)
Definition LOAD_records (m : gmap Z (list Load.table)) (fz : bool)
    (load : LOAD.table) (k : Z) (row : Z * float * (nat * nat)) : bool :=
  bool_decide (row.1.1 = k)
  && negb (length (LOAD_recorded m fz load row) =? 0).

(** The rows of the LOAD table with id [k] that record a member, in the
    order of the table. *)
Definition LOAD_recording (m : gmap Z (list Load.table)) (fz : bool)
    (load : LOAD.table) (k : Z) : list (Z * float * (nat * nat)) :=
  List.filter (LOAD_records m fz load k) (LOAD_zipped load).

(** [LOAD, 5, 2.0, 3.0, 7]: the only member of row 5 names no load. *)
Definition load_5_dangling : LOAD.table :=
  {| LOAD.cards := []; LOAD.n := 1;
     LOAD.load_id := [5]%Z; LOAD.scale := [2]%float;
     LOAD.nloads := [1]; LOAD.load_ids := [7]%Z;
     LOAD.scale_factors := [3]%float |}.

(** The claim C9 as stated, for one deck: whenever the reduction returns,
    every id of the concrete-load map that no LOAD row references is bound
    to the unit-scale pair. *)
Definition unreferenced_kept (load_cards : list Load.table)
    (load : LOAD.table) : Prop :=
  forall m log' r,
    LOAD.get_loads_by_load_id load_cards = Ok m ->
    get_reduced_loads load_cards load false false true [] = (log', Ok r) ->
    forall k loads,
      m !! k = Some loads -> k ∉ LOAD.load_ids load ->
      r !! k = Some [(1%float, loads)].

(** An SPC table with two rows of set 1, an SPC1 table with one row of
    set 2, and [SPCADD, 100, 1, 3]: set 3 is defined nowhere. *)
Definition spc_1 : SPC.table :=
  {| SPC.n := 2; SPC.spc_id := [1; 1]%Z; SPC.node_id := [10; 11]%Z;
     SPC.components := [123; 123]%Z; SPC.enforced := [0; 0]%float |}.

Definition spc1_2 : SPC1.table :=
  {| SPC1.cards := []; SPC1.n := 1; SPC1.spc_id := [2]%Z;
     SPC1.components := [456]%Z; SPC1.node_id := [20; 21; 22]%Z;
     SPC1.nnodes := [3] |}.

Definition spcadd_dangling : ADD.table :=
  {| ADD.cards := []; ADD.n := 1; ADD.sid := [100]%Z;
     ADD.sids := [1; 3]%Z; ADD.nsids := [2] |}.

(** The tokenized cards ['PLOTEL', '3101', '3101', '3102'] and ['PLOTEL',
    '3101', '3101', '3102', None, '3102', '3102', '3103'], the latter being
    the one quoted in [PLOTEL.add_card]. *)
Definition plotel_one_group : BDFCard :=
  [Some (FStr "PLOTEL"); Some (FStr "3101"); Some (FStr "3101");
   Some (FStr "3102")].
Definition plotel_two_groups : BDFCard :=
  [Some (FStr "PLOTEL"); Some (FStr "3101"); Some (FStr "3101");
   Some (FStr "3102"); None; Some (FStr "3102"); Some (FStr "3102");
   Some (FStr "3103")].

(** [DEFORM, 100, 32, -2.5, 5, .5] *)
Definition deform_two_pairs : BDFCard :=
  [Some (FStr "DEFORM"); Some (FStr "100"); Some (FStr "32");
   Some (FFloat (-2.5)); Some (FStr "5"); Some (FFloat 0.5)].

(** An integer fits an 8-character field when its decimal text, sign
    included, has at most 8 characters. *)
Definition fits_small_field (z : Z) : bool :=
  ((-9999999 <=? z) && (z <=? 99999999))%Z.

(** [MPCADD, 99999999, 1] and [MPCADD, 100000000, 1] *)
Definition mpcadd_99999999 : ADD.table :=
  {| ADD.cards := []; ADD.n := 1; ADD.sid := [99999999]%Z;
     ADD.sids := [1]%Z; ADD.nsids := [1] |}.
Definition mpcadd_100000000 : ADD.table :=
  {| ADD.cards := []; ADD.n := 1; ADD.sid := [100000000]%Z;
     ADD.sids := [1]%Z; ADD.nsids := [1] |}.
Definition mpcadd_99999998 : ADD.table :=
  {| ADD.cards := []; ADD.n := 1; ADD.sid := [99999998]%Z;
     ADD.sids := [1]%Z; ADD.nsids := [1] |}.

(** [SPCADD, 2, 9, 10, 9] as the tokenizer hands it over, and the same
    card built from a list of integer values. *)
Definition spcadd_text_line : BDFCard :=
  [Some (FStr "SPCADD"); Some (FStr "2"); Some (FStr "9"); Some (FStr "10");
   Some (FStr "9")].
Definition spcadd_typed_line : BDFCard :=
  [Some (FStr "SPCADD"); Some (FInt 2); Some (FInt 9); Some (FInt 10);
   Some (FInt 9)].

Definition SPC1_ragged (t : SPC1.table) : Prop :=
  sum_nat (SPC1.nnodes t) = length (SPC1.node_id t).

Definition LOAD_ragged (t : LOAD.table) : Prop :=
  sum_nat (LOAD.nloads t) = length (LOAD.load_ids t)
  /\ sum_nat (LOAD.nloads t) = length (LOAD.scale_factors t).

(** Every staged LOAD tuple pairs each scale factor with a load id: [add]
    asserts it and [add_card] reads the two lists in step. *)
Definition LOAD_staged (t : LOAD.table) : Prop :=
  Forall (fun c : LOAD.card =>
            let '(_, _, scale_factors, load_ids, _) := c in
            length scale_factors = length load_ids) (LOAD.cards t).

(** On an id list without THRU the range expansion is the list of its
    integers; this stands for [expand_thru] in the concrete decks. *)
Definition ints_only (ids : list field_value) : list Z :=
  flat_map (fun v => match v with FInt z => [z] | _ => [] end) ids.

Definition SET1_ragged (t : SET1.table) : Prop :=
  sum_nat (SET1.num_ids t) = length (SET1.ids t).

(** [SET1, 2, 10, 11] and [SET1, 1, 20], as [_save] stores them before
    [sort]. *)
Definition set1_unsorted : SET1.table :=
  {| SET1.cards := []; SET1.n := 2; SET1.set_id := [2; 1]%Z;
     SET1.is_skin := [false; false]; SET1.ids := [10; 11; 20]%Z;
     SET1.num_ids := [2; 1]; SET1.dims := None |}.

(** [SET1, 1, 20] and [SET1, 2, 10, 11] after [parse_cards]. *)
Definition set1_parsed : SET1.table :=
  {| SET1.cards := []; SET1.n := 2; SET1.set_id := [1; 2]%Z;
     SET1.is_skin := [false; false]; SET1.ids := [20; 10; 11]%Z;
     SET1.num_ids := [1; 2]; SET1.dims := None |}.




(** An empty table with the given staged cards. *)
Definition MAT1_staged (cs : list MAT1.card) : MAT1.table :=
  {| MAT1.cards := cs; MAT1.n := length cs;
     MAT1.material_id := []; MAT1.E := []; MAT1.G := []; MAT1.nu := [];
     MAT1.rho := []; MAT1.alpha := []; MAT1.tref := []; MAT1.ge := [];
     MAT1.St := []; MAT1.Sc := []; MAT1.Ss := []; MAT1.mcsid := [] |}.

(** The staged ids that [parse_cards] stores in arrays of dtype [int32]
    are in the range of [int32]. *)
Definition LOAD_fits (cs : list LOAD.card) : bool :=
  forallb fits_int32
    (map (fun '(sid, scalei, scale_factors, load_ids, comment) => sid) cs)
  && forallb fits_int32
       (flat_map (fun '(sid, scalei, scale_factors, load_ids, comment) =>
                    load_ids) cs).

Definition SPC1_fits (cs : list SPC1.card) : bool :=
  forallb fits_int32
    (map (fun '(spc_idi, componentsi, nodesi, comment) => spc_idi) cs)
  && forallb fits_int32
       (map (fun '(spc_idi, componentsi, nodesi, comment) => componentsi) cs).


Definition MAT1_fits (cs : list MAT1.card) : bool :=
  forallb fits_int32
    (flat_map (fun '(mid, Ei, Gi, nui, rhoi, alphai, trefi, gei,
                     Sti, Sci, Ssi, mcsidi, comment) => [mid; mcsidi]) cs).








(** Two MAT1 cards, and a third one staged after the first two were
    parsed. *)
Definition mat1_cards_1_2 : list MAT1.card :=
  [(1%Z, 4%float, 1.5%float, 0.25%float, 0%float, 0%float, 0%float,
    0%float, 0%float, 0%float, 0%float, 0%Z, ""%string);
   (2%Z, 8%float, 3%float, 0.25%float, 2%float, 0%float, 0%float,
    0%float, 0%float, 0%float, 0%float, 0%Z, ""%string)].

Definition mat1_card_3 : MAT1.card :=
  (3%Z, 16%float, 6%float, 0.25%float, 0%float, 0%float, 0%float,
   0%float, 0%float, 0%float, 0%float, 0%Z, ""%string).

Definition mat1_second_batch : MAT1.table :=
  MAT1.stage (MAT1.clear_cards (MAT1.save_cards (MAT1_staged mat1_cards_1_2)))
             mat1_card_3.

(** * Rows, slices and written cards

    The rows a table stands for, as its [write_file] reads them, and the
    tables a slice is expected to return. *)

(** The rows of a concrete load table, as [DEFORM.write_file] zips them. *)
Definition Load_rows (t : Load.table) : list (Z * Z * float) :=
  zip (zip (Load.load_id t) (Load.elements t)) (Load.enforced t).

(** A fresh table of the class of [t] holding the rows of [t] that carry
    load id [k], in their order. *)
Definition Load_rows_with (t : Load.table) (k : Z) : Load.table :=
  let rows := filter (fun r : Z * Z * float => r.1.1 = k) (Load_rows t) in
  {| Load.type := Load.type t; Load.cards := []; Load.n := length rows;
     Load.load_id := map (fun r : Z * Z * float => r.1.1) rows;
     Load.elements := map (fun r : Z * Z * float => r.1.2) rows;
     Load.enforced := map (fun r : Z * Z * float => r.2) rows |}.

(** The tables of [load_cards] that [get_loads_by_load_id] does not skip
    and that carry load id [k], in the order of [load_cards]. *)
Definition loads_carrying (load_cards : list Load.table) (k : Z)
    : list Load.table :=
  List.filter
    (fun t : Load.table =>
       negb (bool_decide (Load.type t = "LOAD"%string
                          ∨ Load.type t = "LSEQ"%string))
       && negb (Load.n t =? 0)
       && bool_decide (k ∈ Load.load_id t))
    load_cards.

(** The per-row columns of a SET1 table, row by row. *)
Definition SET1_meta (t : SET1.table) : list (Z * bool * nat) :=
  zip (zip (SET1.set_id t) (SET1.is_skin t)) (SET1.num_ids t).

(** What a key holds once the tables [l] have been appended to it. *)
Definition appended {A} (o : option (list A)) (l : list A) : option (list A) :=
  match l with
  | [] => o
  | _ :: _ => Some (default [] o ++ l)
  end.

(** Modelled from the spec: the decorator [parse_load_check] is in
    [base_card.py], which is not among the sources at hand.  A table with
    [n == 0] writes nothing and returns; otherwise the decorated body
    runs. *)
Definition parse_load_check {T : Type} (n : T -> nat)
    (func : T -> nat -> result (list card_line)) (self : T) (size : nat)
    : result (list card_line) :=
  if n self =? 0 then Ok [] else func self size.

(** ** LOAD: the written cards *)

(** The body of the loop of [LOAD.write_file]. *)
Definition LOAD_write_row (print_card : nat) (t : LOAD.table)
    (row : Z * float * (nat * nat)) : card_line :=
  let '(sid, scale, (iload0, iload1)) := row in
  let scale_factors := py_slice (LOAD.scale_factors t) iload0 iload1 in
  let load_ids := py_slice (LOAD.load_ids t) iload0 iload1 in
  {| field_width := print_card;
     list_fields :=
       [OStr "LOAD"; OInt sid; OFloat scale]
       ++ flat_map (fun '(scale_factor, load_id) =>
                      [OFloat scale_factor; OInt load_id])
                   (zip scale_factors load_ids) |}.

(** [LOAD.write_file(bdf_file, size)], decorated with [parse_load_check]:
    the cards written to [bdf_file]. *)
Definition LOAD_write_file : LOAD.table -> nat -> result (list card_line) :=
  parse_load_check LOAD.n (fun t size =>
    let print_card := size in
    Ok (map (LOAD_write_row print_card t)
            (zip (zip (LOAD.load_id t) (LOAD.scale t)) (LOAD.iload t)))).

(** A LOAD row: the set id, the global scale, the member factors and the
    member ids. *)
Definition LOAD_row : Type := Z * float * list float * list Z.

Definition LOAD_row_of_card (c : LOAD.card) : LOAD_row :=
  let '(sid, scalei, scale_factors, load_ids, comment) := c in
  (sid, scalei, scale_factors, load_ids).

(** The arrays of [t] store [rows], one after the other, each row pairing
    every factor with an id, and [n] counts the stored rows and the staged
    tuples. *)
Definition LOAD_holds (t : LOAD.table) (rows : list LOAD_row) : Prop :=
  LOAD.load_id t = map (fun r : LOAD_row => r.1.1.1) rows
  /\ LOAD.scale t = map (fun r : LOAD_row => r.1.1.2) rows
  /\ LOAD.nloads t = map (fun r : LOAD_row => length r.1.2) rows
  /\ LOAD.load_ids t = flat_map (fun r : LOAD_row => r.2) rows
  /\ LOAD.scale_factors t = flat_map (fun r : LOAD_row => r.1.2) rows
  /\ LOAD.n t = length rows + length (LOAD.cards t)
  /\ Forall (fun r : LOAD_row => length r.1.2 = length r.2) rows.

(** The card of one LOAD row: the name, the set id, the global scale,
    then each member as its factor followed by its id. *)
Definition LOAD_line (size : nat) (r : LOAD_row) : card_line :=
  let '(sid, scale, scale_factors, load_ids) := r in
  {| field_width := size;
     list_fields :=
       [OStr "LOAD"; OInt sid; OFloat scale]
       ++ flat_map (fun p : float * Z => [OFloat p.1; OInt p.2])
                   (zip scale_factors load_ids) |}.

(** ** SPC1: the rows of a table *)

(** An SPC1 row: the set id, the components and the nodes. *)
Definition SPC1_row : Type := Z * Z * list Z.

(** The arrays of [t] store [rows], one after the other, and [n] counts
    them. *)
Definition SPC1_holds (t : SPC1.table) (rows : list SPC1_row) : Prop :=
  SPC1.spc_id t = map (fun r : SPC1_row => r.1.1) rows
  /\ SPC1.components t = map (fun r : SPC1_row => r.1.2) rows
  /\ SPC1.nnodes t = map (fun r : SPC1_row => length r.2) rows
  /\ SPC1.node_id t = flat_map (fun r : SPC1_row => r.2) rows
  /\ SPC1.n t = length rows.

(** [SPC1, 2, 456, 20, 21, 22], [SPC1, 5, 123, 7] and [SPC1, 2, 3, 30]. *)
Definition spc1_rows_2_5_2 : list SPC1_row :=
  [(2, 456, [20; 21; 22]); (5, 123, [7]); (2, 3, [30])]%Z.

Definition spc1_2_5_2 : SPC1.table :=
  {| SPC1.cards := []; SPC1.n := 3; SPC1.spc_id := [2; 5; 2]%Z;
     SPC1.components := [456; 123; 3]%Z;
     SPC1.node_id := [20; 21; 22; 7; 30]%Z; SPC1.nnodes := [3; 1; 1] |}.

(** Two LOAD cards, and a third one staged after the first two were
    parsed. *)
Definition load_rows_100_200 : list LOAD_row :=
  [(100%Z, 2%float, [3; 5]%float, [1; 5]%Z);
   (200%Z, 1%float, [0.5]%float, [7]%Z)].

Definition load_100_200 : LOAD.table :=
  {| LOAD.cards := []; LOAD.n := 2;
     LOAD.load_id := [100; 200]%Z; LOAD.scale := [2; 1]%float;
     LOAD.nloads := [2; 1]; LOAD.load_ids := [1; 5; 7]%Z;
     LOAD.scale_factors := [3; 5; 0.5]%float |}.

Definition load_100_200_plus_300 : LOAD.table :=
  {| LOAD.cards := [(300%Z, 4%float, [1; 1]%float, [100; 9]%Z, ""%string)];
     LOAD.n := 3;
     LOAD.load_id := [100; 200]%Z; LOAD.scale := [2; 1]%float;
     LOAD.nloads := [2; 1]; LOAD.load_ids := [1; 5; 7]%Z;
     LOAD.scale_factors := [3; 5; 0.5]%float |}.

(** Modelled from the spec: [write_utils.array_default_int] is not part of
    the sources at hand.  An integer column is rendered field by field, a
    value equal to the default as a blank. *)
Definition array_default_int (ids : list Z) (default : Z) : list out_field :=
  map (fun z => if (z =? default)%Z then OBlank else OInt z) ids.

(** ** MPC: multipoint constraints *)

Module MPC.

(** A staged tuple [(mpc_id, nodes, components, coefficients, comment)]. *)
Definition card : Type := Z * list Z * list Z * list float * string.

(** [idim], [node_id], [components] and [coefficients] are assigned by
    [parse_cards]; before that they are not read and are given as empty. *)
Record table : Type := {
  cards : list card;
  n : nat;
  mpc_id : list Z;
  idim : list (nat * nat);
  node_id : list Z;
  components : list Z;
  coefficients : list float;
}.

Definition init : table :=
  {| cards := []; n := 0; mpc_id := []; idim := []; node_id := [];
     components := []; coefficients := [] |}.

Definition stage (t : table) (c : card) : table :=
  {| cards := cards t ++ [c]; n := S (n t);
     mpc_id := mpc_id t; idim := idim t; node_id := node_id t;
     components := components t; coefficients := coefficients t |}.

Definition add (t : table) (mpc_id0 : Z) (nodes components0 : list Z)
    (coefficients0 : list float) (comment : string) : table :=
  stage t (mpc_id0, nodes, components0, coefficients0, comment).

(** [range(2, nfields, 8)] *)
Definition range_2_8 (nfields : nat) : list nat :=
  map (fun q => 2 + 8 * q) (seq 0 ((nfields - 2 + 7) / 8)).

Section add_card.
(** [components_or_blank(card, i, name, 0)], the external reader of a
    component field, with the value it takes in the [int32] column. *)
Variable components_or_blank : BDFCard -> nat -> result Z.

Definition append_term (acc : list Z * list Z * list float)
    (nid component : Z) (coefficient : float)
    : list Z * list Z * list float :=
  let '(nodes, components, coefficients) := acc in
  (nodes ++ [nid], components ++ [component], coefficients ++ [coefficient]).

(** [for ifield in range(2, nfields, 8)], with the term counter [i] and
    the three lists built so far. *)
Fixpoint add_card_loop (card : BDFCard) (nfields : nat) (ifields : list nat)
    (i : nat) (acc : list Z * list Z * list float)
    : result (list Z * list Z * list float) :=
  match ifields with
  | [] => Ok acc
  | ifield :: ifields' =>
      nid ← integer card ifield;
      component ← components_or_blank card (ifield + 1);
      coefficient ←
        (if i =? 1 then
           coefficient ← double card (ifield + 2);
           if (coefficient =? 0)%float then Raise RuntimeError
           else Ok coefficient
         else double_or_blank card (ifield + 2) 0);
      let acc := append_term acc nid component coefficient in
      let i := S i in
      if (nfields <? ifield + 4) && negb (i =? 2) then Ok acc
      else
        nid ← integer card (ifield + 3);
        component ← components_or_blank card (ifield + 4);
        coefficient ← double_or_blank card (ifield + 5) 0;
        let acc := append_term acc nid component coefficient in
        let i := S i in
        add_card_loop card nfields ifields' i acc
  end.

Definition add_card (t : table) (card : BDFCard) (comment : string)
    : result table :=
  mpc_id0 ← integer card 1;
  let nfields := length card in
  '(nodes, components0, coefficients0) ←
    add_card_loop card nfields (range_2_8 nfields) 1 ([], [], []);
  Ok (stage t (mpc_id0, nodes, components0, coefficients0, comment)).
End add_card.

(** The loop of [parse_cards]: the slice bounds of each staged tuple,
    [idim0] being the running offset. *)
Fixpoint parse_idim (cards : list card) (idim0 : nat) : list (nat * nat) :=
  match cards with
  | [] => []
  | (mpc_id, nodes, components, coefficients, comment) :: cards' =>
      let nnodes := length nodes in
      let idim1 := idim0 + nnodes in
      (idim0, idim1) :: parse_idim cards' idim1
  end.

(** [parse_cards], decorated with [VectorizedBaseCard.parse_cards_check]:
    every array is assigned anew.  [mpc_id], [node_id] and [components]
    are arrays of dtype [int32]. *)
Definition parse_cards : table -> result table :=
  parse_cards_check cards (fun t =>
    mpc_id0 ←
      np_int32
        (map (fun '(mpc_id, nodes, components, coefficients, comment) =>
                mpc_id) (cards t));
    node_id0 ←
      np_int32
        (flat_map (fun '(mpc_id, nodes, components, coefficients,
                         comment) => nodes) (cards t));
    components0 ←
      np_int32
        (flat_map (fun '(mpc_id, nodes, components, coefficients,
                         comment) => components) (cards t));
    Ok {| cards := []; n := n t;
          mpc_id := mpc_id0;
          idim := parse_idim (cards t) 0;
          node_id := node_id0;
          components := components0;
          coefficients :=
            flat_map (fun '(mpc_id, nodes, components, coefficients,
                            comment) => coefficients) (cards t) |}).

(** The inner loop of [write_file]: each term adds its three fields, and
    every second term is followed by two blanks. *)
Fixpoint write_terms (i : nat) (terms : list (out_field * out_field * float))
    : list out_field :=
  match terms with
  | [] => []
  | (gid, component, coefficient) :: terms' =>
      [gid; component; OFloat coefficient]
      ++ (if (i mod 2 =? 1) && (0 <? i) then [OBlank; OBlank] else [])
      ++ write_terms (S i) terms'
  end.

(** The body of the outer loop of [write_file]. *)
Definition write_row (print_card : nat) (t : table)
    (row : Z * (nat * nat)) : card_line :=
  let '(mpc_id, (idim0, idim1)) := row in
  let node_str := map OInt (node_id t) in
  let components_str := array_default_int (components t) 0 in
  let nodes := py_slice node_str idim0 idim1 in
  let components := py_slice components_str idim0 idim1 in
  let coeffs := py_slice (coefficients t) idim0 idim1 in
  {| field_width := print_card;
     list_fields :=
       [OStr "MPC"; OInt mpc_id]
       ++ write_terms 0 (zip (zip nodes components) coeffs) |}.

(** [write_file(bdf_file, size)]: the cards written to [bdf_file]. *)
Definition write_file (t : table) (size : nat) : list card_line :=
  if length (mpc_id t) =? 0 then []
  else
    let print_card := size in
    map (write_row print_card t) (zip (mpc_id t) (idim t)).

End MPC.

(** [where_not(base_vector, iwhere)]: a mask of the shape of
    [base_vector], true except at the positions [iwhere]; numpy raises
    [IndexError] for a position outside the mask. *)
Fixpoint mask_assign_false (mask : list bool) (iwhere : list nat)
    : result (list bool) :=
  match iwhere with
  | [] => Ok mask
  | k :: iwhere' =>
      if k <? length mask then mask_assign_false (<[k := false]> mask) iwhere'
      else Raise IndexError
  end.

Definition where_not {A} (base_vector : list A) (iwhere : list nat)
    : result (list bool) :=
  let mask := replicate (length base_vector) true in
  mask_assign_false mask iwhere.

(** An MPC row: the set id and the nodes, components and coefficients of
    its terms. *)
Definition MPC_row : Type := Z * list Z * list Z * list float.

Definition MPC_row_of_card (c : MPC.card) : MPC_row :=
  let '(mpc_id, nodes, components, coefficients, comment) := c in
  (mpc_id, nodes, components, coefficients).

(** The rows of a parsed MPC table, read through [idim] as [write_file]
    reads them. *)
Definition MPC_rows (t : MPC.table) : list MPC_row :=
  map (fun '(mpc_id, (idim0, idim1)) =>
         (mpc_id, py_slice (MPC.node_id t) idim0 idim1,
          py_slice (MPC.components t) idim0 idim1,
          py_slice (MPC.coefficients t) idim0 idim1))
      (zip (MPC.mpc_id t) (MPC.idim t)).

(** Every staged MPC tuple has one component and one coefficient per
    node, as [add_card] builds it. *)
Definition MPC_aligned (cs : list MPC.card) : Prop :=
  Forall (fun c : MPC.card =>
            let '(_, nodes, components, coefficients, _) := c in
            length components = length nodes
            /\ length coefficients = length nodes) cs.

(** The staged ids that [MPC.parse_cards] stores in arrays of dtype
    [int32] are in the range of [int32]. *)
Definition MPC_fits (cs : list MPC.card) : bool :=
  forallb fits_int32
    (map (fun '(mpc_id, nodes, components, coefficients, comment) =>
            mpc_id) cs)
  && forallb fits_int32
       (flat_map (fun '(mpc_id, nodes, components, coefficients,
                        comment) => nodes) cs)
  && forallb fits_int32
       (flat_map (fun '(mpc_id, nodes, components, coefficients,
                        comment) => components) cs).

(** The raw fields of the card whose field list is [fields]: each written
    value stands for itself, a blank for a blank field. *)
Definition card_of_fields (fields : list out_field) : BDFCard :=
  map (fun f => match f with
                | OStr s => Some (FStr s)
                | OInt z => Some (FInt z)
                | OFloat x => Some (FFloat x)
                | OBlank => None
                end) fields.

(** [MPC, 7, 10, 1, 2.0, 11, , 0.5, , , 12, 3, 1.5] as a staged tuple. *)
Definition mpc_7 : MPC.card :=
  (7%Z, [10; 11; 12]%Z, [1; 0; 3]%Z, [2; 0.5; 1.5]%float, ""%string).

Definition mpc_8 : MPC.card :=
  (8%Z, [20; 21]%Z, [4; 5]%Z, [1; 1]%float, ""%string).

(** The field list [MPC.write_file] builds for a row. *)
Definition MPC_fields (r : MPC_row) : list out_field :=
  let '(mpc_id, nodes, components, coefficients) := r in
  [OStr "MPC"; OInt mpc_id]
  ++ MPC.write_terms 0
       (zip (zip (map OInt nodes) (array_default_int components 0))
            coefficients).

(** The three lists [MPC.add_card] has built once the terms [terms] have
    been appended to [acc]. *)
Definition MPC_appended (acc : list Z * list Z * list float)
    (terms : list (Z * Z * float)) : list Z * list Z * list float :=
  (acc.1.1 ++ map (fun x : Z * Z * float => x.1.1) terms,
   acc.1.2 ++ map (fun x : Z * Z * float => x.1.2) terms,
   acc.2 ++ map (fun x : Z * Z * float => x.2) terms).

(** A term as [MPC.write_file] renders it. *)
Definition MPC_rendered (x : Z * Z * float) : out_field * out_field * float :=
  (OInt x.1.1, if (x.1.2 =? 0)%Z then OBlank else OInt x.1.2, x.2).

(** The table [parse_cards] builds from [mpc_7] and [mpc_8]. *)
Definition mpc_7_8 : MPC.table :=
  {| MPC.cards := []; MPC.n := 2; MPC.mpc_id := [7; 8]%Z;
     MPC.idim := [(0, 3); (3, 5)];
     MPC.node_id := [10; 11; 12; 20; 21]%Z;
     MPC.components := [1; 0; 3; 4; 5]%Z;
     MPC.coefficients := [2; 0.5; 1.5; 1; 1]%float |}.

(** A reader of component fields used in the examples: a blank field is 0
    and an integer field is its value. *)
Definition blank_or_integer (card : BDFCard) (i : nat) : result Z :=
  match card_field card i with
  | None => Ok 0%Z
  | Some (FInt z) => Ok z
  | Some _ => Raise SyntaxError
  end.

(** [a[mask]] for a boolean mask: the elements at the true positions. *)
Fixpoint mask_select {A} (a : list A) (mask : list bool) : list A :=
  match a, mask with
  | x :: a', b :: mask' =>
      if b then x :: mask_select a' mask' else mask_select a' mask'
  | _, _ => []
  end.

(** numpy raises [IndexError] for a mask whose length is not that of the
    array. *)
Definition np_mask {A} (a : list A) (mask : list bool) : result (list A) :=
  if length mask =? length a then Ok (mask_select a mask)
  else Raise IndexError.

(** [MPC.geom_check]: the node ids it hands to the external [geom_check],
    first those checked against the grid ids ([self.node_id[inode]]), then
    those checked against the scalar points ([spoint_id]). *)
Definition MPC_geom_check_ids (t : MPC.table) : result (list Z * list Z) :=
  let ispoint := np_where_eq 0 (MPC.components t) 0 in
  spoint_id ← np_index (MPC.node_id t) ispoint;
  inode ← where_not (MPC.components t) ispoint;
  node ← np_mask (MPC.node_id t) inode;
  Ok (node, spoint_id).

(** [for spc_id, components, inode in zip(spc_str, components_str,
    self.inode)] of [SPC1.write_file]. *)
Fixpoint SPC1_write_rows (print_card : nat) (node_id : list Z)
    (rows : list (out_field * out_field * (nat * nat)))
    : result (list card_line) :=
  match rows with
  | [] => Ok []
  | (spc_id, components, (inode0, inode1)) :: rows' =>
      let nodes := py_slice node_id inode0 inode1 in
      _ ← py_assert (0 <? length nodes);
      let list_fields := [OStr "SPC1"; spc_id; components] ++ map OInt nodes in
      lines ← SPC1_write_rows print_card node_id rows';
      Ok ({| field_width := print_card; list_fields := list_fields |}
            :: lines)
  end.

(** [SPC1.write_file(bdf_file, size)]: the cards written to [bdf_file]. *)
Definition SPC1_write_file (t : SPC1.table) (size : nat)
    : result (list card_line) :=
  if length (SPC1.spc_id t) =? 0 then Ok []
  else
    let print_card := size in
    let spc_str := map OInt (SPC1.spc_id t) in
    let components_str := array_default_int (SPC1.components t) 0 in
    SPC1_write_rows print_card (SPC1.node_id t)
      (zip (zip spc_str components_str) (SPC1.inode t)).

(** The card written for an SPC1 row. *)
Definition SPC1_line (size : nat) (r : SPC1_row) : card_line :=
  {| field_width := size;
     list_fields :=
       [OStr "SPC1"; OInt r.1.1;
        if (r.1.2 =? 0)%Z then OBlank else OInt r.1.2]
       ++ map OInt r.2 |}.

Definition SPC1_row_of_card (c : SPC1.card) : SPC1_row :=
  let '(spc_id, components, nodes, comment) := c in
  (spc_id, components, nodes).

(** ** SPC: staging and parsing *)






Section SPC_add_card.
(** [components_or_blank(card, i, name, default=0)], the external reader
    of a component field. *)
Variable components_or_blank : BDFCard -> nat -> result Z.

End SPC_add_card.












(** ** ASET, BSET, CSET, QSET and OMIT *)

(** Modelled from the spec: the decorator [parse_node_check] is in
    [base_card.py], which is not among the sources at hand.  A table with
    [n == 0] writes nothing and returns; otherwise the decorated body
    runs. *)
Definition parse_node_check {T : Type} (n : T -> nat)
    (func : T -> nat -> result (list card_line)) (self : T) (size : nat)
    : result (list card_line) :=
  if n self =? 0 then Ok [] else func self size.

(** [itertools.zip_longest(a, b)]: the shorter list is padded with
    [None]. *)
Definition zip_longest {A B} (a : list A) (b : list B)
    : list (option A * option B) :=
  map (fun i => (a !! i, b !! i)) (seq 0 (Nat.max (length a) (length b))).

(** [d[k].append(v)] on a [defaultdict(list)], the dictionary held as the
    list of its items in insertion order. *)
Fixpoint group_append {K V} `{EqDecision K} (d : list (K * list V))
    (k : K) (v : V) : list (K * list V) :=
  match d with
  | [] => [(k, [v])]
  | (k', vs) :: d' =>
      if decide (k = k') then (k', vs ++ [v]) :: d'
      else (k', vs) :: group_append d' k v
  end.

Module ABCOQSET.

(** The classes derived from [ABCOQSET]; [self.type] is the name of the
    class. *)
Inductive kind : Type := ASET | BSET | CSET | QSET | OMIT.

(** A staged tuple [(nids, components, comment)]. *)
Definition card : Type := list Z * list Z * string.

Record table : Type := {
  type : kind;
  cards : list card;
  n : nat;
  node_id : list Z;
  component : list Z;
}.

Definition init (k : kind) : table :=
  {| type := k; cards := []; n := 0; node_id := []; component := [] |}.

(** [add_set]: [n] grows by the number of nodes. *)
Definition add_set (t : table) (nids components : list Z) (comment : string)
    : result table :=
  let nnodes := length nids in
  let ncomp := length components in
  _ ← py_assert (nnodes =? ncomp);
  Ok {| type := type t; cards := cards t ++ [(nids, components, comment)];
        n := n t + nnodes; node_id := node_id t;
        component := component t |}.

Definition _save (t : table) (node_id0 component0 : list Z) : table :=
  let ncards_existing := length (node_id t) in
  let '(node_id0, component0) :=
    if negb (ncards_existing =? 0) then
      (node_id t ++ node_id0, component t ++ component0)
    else (node_id0, component0) in
  {| type := type t; cards := cards t; n := length node_id0;
     node_id := node_id0; component := component0 |}.

(** [self.type[0] + 'SET1'] for the four set classes, ['OMIT1'] for OMIT;
    no other class derives from [ABCOQSET], so that the final [raise] of
    the source is not reached. *)
Definition class_name (k : kind) : string :=
  match k with
  | ASET => "ASET1"
  | BSET => "BSET1"
  | CSET => "CSET1"
  | QSET => "QSET1"
  | OMIT => "OMIT1"
  end.

Section write_file.
(** External helpers of the field writer: [update_field_size(max_int,
    size)], [get_print_card(size, max_int)] and [array_str(np.array(nids),
    size=size).tolist()]. *)
Variable update_field_size : Z -> nat -> nat.
Variable get_print_card : nat -> Z -> nat.
Variable array_str : list (option Z) -> nat -> list out_field.

(** The dictionary [comp_to_nids]. *)
Definition comp_to_nids (t : table) : list (option Z * list (option Z)) :=
  foldl (fun d '(nid, comp) => group_append d comp nid) []
        (zip_longest (node_id t) (component t)).

(** [write_file(bdf_file, size)], decorated with [parse_node_check]: the
    cards written to [bdf_file]. *)
Definition write_file : table -> nat -> result (list card_line) :=
  parse_node_check n (fun t size =>
    max_int ← np_max (node_id t);
    let size := update_field_size max_int size in
    let print_card := get_print_card size max_int in
    let class_name := class_name (type t) in
    Ok (map (fun '(comp, nids) =>
               let node_id := array_str nids size in
               {| field_width := print_card;
                  list_fields := [OStr class_name; MAT1.oint comp]
                                 ++ node_id |})
            (comp_to_nids t))).
End write_file.

End ABCOQSET.

(** The distinct values of a list in the order in which they first
    occur. *)
Definition first_seen (l : list Z) : list Z :=
  foldl (fun acc x => if bool_decide (x ∈ acc) then acc else acc ++ [x])
        [] l.

(** The nodes of the rows whose component is [c], in table order. *)
Definition nodes_with (node_id component : list Z) (c : Z) : list Z :=
  map fst (filter (fun p : Z * Z => p.2 = c) (zip node_id component)).

(** An integer array is printed as its integers. *)
Definition array_str_plain (ids : list (option Z)) (size : nat)
    : list out_field :=
  map MAT1.oint ids.

Definition aset_3 : ABCOQSET.table :=
  {| ABCOQSET.type := ABCOQSET.ASET; ABCOQSET.cards := []; ABCOQSET.n := 4;
     ABCOQSET.node_id := [16; 23; 1; 9]%Z;
     ABCOQSET.component := [2; 3516; 2; 4]%Z |}.

(** ** SUPORT and SUPORT1 *)

(** [itertools.zip_longest(a, b, c)] *)
Definition zip_longest3 {A B C} (a : list A) (b : list B) (c : list C)
    : list (option A * option B * option C) :=
  map (fun i => (a !! i, b !! i, c !! i))
      (seq 0 (Nat.max (Nat.max (length a) (length b)) (length c))).

Module SUPORT.

Record table : Type := {
  n : nat;
  suport_id : list Z;
  node_id : list Z;
  component : list Z;
}.

(** [list_fields += [nid, comp]] *)
Definition add_pair (list_fields : list out_field)
    (nid_comp : option Z * option Z) : list out_field :=
  let '(nid, comp) := nid_comp in
  list_fields ++ [MAT1.oint nid; MAT1.oint comp].

(** The loop over [nid_comps] of a group with [suport_id == 0], started
    with the field list [list_fields], and the write after the loop. *)
Fixpoint write_suport (print_card : nat) (list_fields : list out_field)
    (nid_comps : list (option Z * option Z)) : list card_line :=
  match nid_comps with
  | [] =>
      if 1 <? length list_fields then
        [{| field_width := print_card; list_fields := list_fields |}]
      else []
  | nid_comp :: nid_comps' =>
      let list_fields := add_pair list_fields nid_comp in
      if length list_fields =? 9 then
        {| field_width := print_card; list_fields := list_fields |}
        :: write_suport print_card [OStr "SUPORT"] nid_comps'
      else write_suport print_card list_fields nid_comps'
  end.

(** The loop of a group with another [suport_id], and the write after the
    loop. *)
Fixpoint write_suport1 (print_card : nat) (suport_id : option Z)
    (list_fields : list out_field) (nid_comps : list (option Z * option Z))
    : list card_line :=
  match nid_comps with
  | [] =>
      if negb (length list_fields =? 0) then
        [{| field_width := print_card; list_fields := list_fields |}]
      else []
  | nid_comp :: nid_comps' =>
      let list_fields := add_pair list_fields nid_comp in
      if length list_fields =? 8 then
        {| field_width := print_card; list_fields := list_fields |}
        :: write_suport1 print_card suport_id
             [OStr "SUPORT1"; MAT1.oint suport_id] nid_comps'
      else write_suport1 print_card suport_id list_fields nid_comps'
  end.

(** [suport_id == 0] for a key of the dictionary, [None] being a padding
    of [zip_longest]. *)
Definition is_zero (suport_id : option Z) : bool :=
  match suport_id with Some z => (z =? 0)%Z | None => false end.

Section write_file.
(** [update_field_size(max_int, size)], an external helper;
    [get_print_card_8_16(size)] is the printer of the width it is given. *)
Variable update_field_size : Z -> nat -> nat.

(** The dictionary [suport_id_to_nid_comp]. *)
Definition suport_id_to_nid_comp (t : table)
    : list (option Z * list (option Z * option Z)) :=
  foldl (fun d '(suport_idi, nid, comp) =>
           group_append d suport_idi (nid, comp)) []
        (zip_longest3 (suport_id t) (node_id t) (component t)).

(** [write_file(bdf_file, size)], decorated with [parse_node_check]: the
    cards written to [bdf_file]. *)
Definition write_file : table -> nat -> result (list card_line) :=
  parse_node_check n (fun t size =>
    max_int ← np_max (node_id t);
    let size := update_field_size max_int size in
    let print_card := size in
    Ok (flat_map
          (fun '(suport_id, nid_comps) =>
             if is_zero suport_id then
               write_suport print_card [OStr "SUPORT"] nid_comps
             else
               write_suport1 print_card suport_id
                 [OStr "SUPORT1"; MAT1.oint suport_id] nid_comps)
          (suport_id_to_nid_comp t))).
End write_file.

End SUPORT.

(** The consecutive pieces of [k] elements of a list, followed by the
    piece of fewer than [k] elements that remains, which may be empty. *)
Fixpoint chunks_fuel {A} (fuel k : nat) (l : list A) : list (list A) :=
  match fuel with
  | 0 => []
  | S fuel' =>
      if length l <? k then [l]
      else take k l :: chunks_fuel fuel' k (drop k l)
  end.

Definition chunks {A} (k : nat) (l : list A) : list (list A) :=
  chunks_fuel (S (length l)) k l.

(** The [(node, component)] pairs of the rows of a SUPORT table whose id
    is [sid], in table order. *)
Definition SUPORT_pairs (t : SUPORT.table) (sid : Z) : list (Z * Z) :=
  map (fun r : Z * Z * Z => (r.1.2, r.2))
      (filter (fun r : Z * Z * Z => r.1.1 = sid)
         (zip (zip (SUPORT.suport_id t) (SUPORT.node_id t))
              (SUPORT.component t))).

(** The fields of a list of pairs. *)
Definition pair_fields (l : list (Z * Z)) : list out_field :=
  flat_map (fun p : Z * Z => [OInt p.1; OInt p.2]) l.

(** The cards written for the set [sid] with the pairs [pairs]. *)
Definition SUPORT_cards (width : nat) (sid : Z) (pairs : list (Z * Z))
    : list card_line :=
  if (sid =? 0)%Z then
    map (fun ch => {| field_width := width;
                      list_fields := [OStr "SUPORT"] ++ pair_fields ch |})
        (filter (fun ch => ch <> []) (chunks 4 pairs))
  else
    map (fun ch => {| field_width := width;
                      list_fields := [OStr "SUPORT1"; OInt sid]
                                     ++ pair_fields ch |})
        (chunks 3 pairs).

(** [SUPORT, 1, 3, 2, 3, 5, 3, 6, 3, 7, 3] and [SUPORT1, 4, 10, 1, 11, 2,
    12, 3] in one table. *)
Definition suport_0_4 : SUPORT.table :=
  {| SUPORT.n := 8;
     SUPORT.suport_id := [0; 4; 0; 0; 4; 0; 0; 4]%Z;
     SUPORT.node_id := [1; 10; 2; 5; 11; 6; 7; 12]%Z;
     SUPORT.component := [3; 1; 3; 3; 2; 3; 3; 3]%Z |}.

(** ** SPCOFF and SPCOFF1 *)

Module SPCOFF.

(** The staged tuples: [add_set] and [add_set1] stage
    [(suport_id, nids, components, comment)], [add_set_card] and
    [add_set1_card] stage [(nodes, components, comment)]. *)
Inductive card : Type :=
| Card4 (suport_id : Z) (nids components : list Z) (comment : string)
| Card3 (nodes components : list Z) (comment : string).

Record table : Type := {
  cards : list card;
  n : nat;
  node_id : list Z;
  component : list Z;
}.

Definition init : table :=
  {| cards := []; n := 0; node_id := []; component := [] |}.

(** [self.cards.append(c); self.n += nnodes] *)
Definition stage (t : table) (c : card) (nnodes : nat) : table :=
  {| cards := cards t ++ [c]; n := n t + nnodes;
     node_id := node_id t; component := component t |}.

Definition add_set (t : table) (nids components : list Z) (comment : string)
    : result table :=
  let nnodes := length nids in
  let ncomp := length components in
  _ ← py_assert (nnodes =? ncomp);
  let suport_id := 0%Z in
  Ok (stage t (Card4 suport_id nids components comment) nnodes).

Section readers.
(** External readers: [expand_thru] on the ids given to [add_set1] and on
    the fields of a card, [components_or_blank(card, i, name,
    default='0')] and [parse_components(card, 1, 'components')], the
    component values taken as they enter the integer column. *)
Variable expand_thru : list field_value -> result (list Z).
Variable expand_thru_fields : list (option field_value) -> result (list Z).
Variable components_or_blank : BDFCard -> nat -> result Z.
Variable parse_components : BDFCard -> nat -> result Z.

Definition add_set1 (t : table) (suport_id : Z) (nids : list field_value)
    (component0 : Z) (comment : string) : result table :=
  nids ← expand_thru nids;
  let nnodes := length nids in
  let components := replicate nnodes component0 in
  Ok (stage t (Card4 suport_id nids components comment) nnodes).

(** [for counter in range(nconstraints)] *)
Fixpoint read_constraints (card : BDFCard) (counters : list nat)
    : result (list Z * list Z) :=
  match counters with
  | [] => Ok ([], [])
  | counter :: counters' =>
      let ifield := counter * 2 + 1 in
      node ← integer card ifield;
      component0 ← components_or_blank card (ifield + 1);
      '(nodes, components) ← read_constraints card counters';
      Ok (node :: nodes, component0 :: components)
  end.

(** [add_set_card]; [len(card) - 1] is taken on a card of at least one
    field, a shorter card reads no constraint either and fails the same
    assertion. *)
Definition add_set_card (t : table) (card : BDFCard) (comment : string)
    : result table :=
  let nfields := length card - 1 in
  let nconstraints := nfields / 2 in
  let nconstraints :=
    if nfields mod 2 =? 1 then nconstraints + 1 else nconstraints in
  '(nodes, components) ← read_constraints card (seq 0 nconstraints);
  _ ← py_assert (1 <? length card);
  Ok (stage t (Card3 nodes components comment) (length nodes)).

Definition add_set1_card (t : table) (card : BDFCard) (comment : string)
    : result table :=
  component0 ← parse_components card 1;
  let nodes := card_fields card 2 in
  _ ← py_assert (2 <? length card);
  nodes ← expand_thru_fields nodes;
  let nnodes := length nodes in
  let components := replicate nnodes component0 in
  Ok (stage t (Card3 nodes components comment) nnodes).
End readers.

(** [_setup]: every staged tuple is unpacked into three names, which
    raises [ValueError] on a tuple of four; the integers are kept as they
    are, so that the retry with [int64] has nothing to do. *)
Fixpoint _setup (cards : list card) : result (list Z * list Z) :=
  match cards with
  | [] => Ok ([], [])
  | Card4 _ _ _ _ :: _ => Raise ValueError
  | Card3 nidi componenti commenti :: cards' =>
      '(node_id, component_list) ← _setup cards';
      Ok (nidi ++ node_id, componenti ++ component_list)
  end.

Definition _save (t : table) (node_id0 component0 : list Z) : table :=
  let ncards_existing := length (node_id t) in
  let '(node_id0, component0) :=
    if negb (ncards_existing =? 0) then
      (node_id t ++ node_id0, component t ++ component0)
    else (node_id0, component0) in
  {| cards := cards t; n := length node_id0;
     node_id := node_id0; component := component0 |}.

(** [parse_cards], decorated with [VectorizedBaseCard.parse_cards_check]. *)
Definition parse_cards : table -> result table :=
  parse_cards_check cards (fun t =>
    '(node_id0, component0) ← _setup (cards t);
    let t := _save t node_id0 component0 in
    Ok {| cards := []; n := n t; node_id := node_id t;
          component := component t |}).

End SPCOFF.

(** The nodes and the components of the staged tuples of three. *)
Definition SPCOFF_staged_nodes (cs : list SPCOFF.card) : list Z :=
  flat_map (fun c => match c with
                     | SPCOFF.Card3 nodes _ _ => nodes
                     | SPCOFF.Card4 _ _ _ _ => []
                     end) cs.

Definition SPCOFF_staged_components (cs : list SPCOFF.card) : list Z :=
  flat_map (fun c => match c with
                     | SPCOFF.Card3 _ components _ => components
                     | SPCOFF.Card4 _ _ _ _ => []
                     end) cs.

(** The tables that calls of [add_set_card], [add_set1_card] and
    [parse_cards] build from the empty table. *)
Inductive SPCOFF_built
    (expand_thru_fields : list (option field_value) -> result (list Z))
    (components_or_blank parse_components : BDFCard -> nat -> result Z)
    : SPCOFF.table -> Prop :=
| SPCOFF_built_init :
    SPCOFF_built expand_thru_fields components_or_blank parse_components
      SPCOFF.init
| SPCOFF_built_set_card (t t1 : SPCOFF.table) (card : BDFCard)
    (comment : string) :
    SPCOFF_built expand_thru_fields components_or_blank parse_components t ->
    SPCOFF.add_set_card components_or_blank t card comment = Ok t1 ->
    SPCOFF_built expand_thru_fields components_or_blank parse_components t1
| SPCOFF_built_set1_card (t t1 : SPCOFF.table) (card : BDFCard)
    (comment : string) :
    SPCOFF_built expand_thru_fields components_or_blank parse_components t ->
    SPCOFF.add_set1_card expand_thru_fields parse_components t card comment
    = Ok t1 ->
    SPCOFF_built expand_thru_fields components_or_blank parse_components t1
| SPCOFF_built_parse (t t1 : SPCOFF.table) :
    SPCOFF_built expand_thru_fields components_or_blank parse_components t ->
    SPCOFF.parse_cards t = Ok t1 ->
    SPCOFF_built expand_thru_fields components_or_blank parse_components t1.

(** [SPCOFF, 5, 3, 7, 12] *)
Definition spcoff_card_5_7 : BDFCard :=
  [Some (FStr "SPCOFF"); Some (FInt 5); Some (FInt 3); Some (FInt 7);
   Some (FInt 12)].

(** The integer fields of a list, for the examples. *)
Definition integer_fields (fields : list (option field_value))
    : result (list Z) :=
  Ok (omap (fun f => match f with Some (FInt z) => Some z | _ => None end)
           fields).

(** What [add_set_card], [add_set1_card] and [parse_cards] keep: [n]
    counts the stored and the staged nodes, the two columns are aligned
    and every staged tuple has three entries and one component per
    node. *)
Definition SPCOFF_counted (t : SPCOFF.table) : Prop :=
  SPCOFF.n t
  = length (SPCOFF.node_id t) + length (SPCOFF_staged_nodes (SPCOFF.cards t))
  /\ length (SPCOFF.component t) = length (SPCOFF.node_id t)
  /\ length (SPCOFF_staged_components (SPCOFF.cards t))
     = length (SPCOFF_staged_nodes (SPCOFF.cards t))
  /\ Forall (fun c => exists nodes comps cm, c = SPCOFF.Card3 nodes comps cm)
            (SPCOFF.cards t).

(** [SPCOFF1, 4, 8, 9] *)
Definition spcoff1_card_4 : BDFCard :=
  [Some (FStr "SPCOFF1"); Some (FInt 4); Some (FInt 8); Some (FInt 9)].

(** The table after [add_set_card] of [spcoff_card_5_7], after
    [parse_cards], and after [add_set1_card] of [spcoff1_card_4]. *)
Definition spcoff_staged : SPCOFF.table :=
  {| SPCOFF.cards := [SPCOFF.Card3 [5; 7]%Z [3; 12]%Z ""%string];
     SPCOFF.n := 2; SPCOFF.node_id := []; SPCOFF.component := [] |}.

Definition spcoff_parsed : SPCOFF.table :=
  {| SPCOFF.cards := []; SPCOFF.n := 2; SPCOFF.node_id := [5; 7]%Z;
     SPCOFF.component := [3; 12]%Z |}.

Definition spcoff_restaged : SPCOFF.table :=
  {| SPCOFF.cards := [SPCOFF.Card3 [8; 9]%Z [4; 4]%Z ""%string];
     SPCOFF.n := 4; SPCOFF.node_id := [5; 7]%Z;
     SPCOFF.component := [3; 12]%Z |}.

(** ** ACCEL: the staged tuple of [add_card] *)

Module ACCEL.

(** A staged tuple [(sid, N, direction, locs, vals, cid, comment)]. *)
Definition card : Type :=
  Z * list float * string * list float * list float * Z * string.

Section add_card.
(** [string(card, 6, 'dir')], the external reader of a text field. *)
Variable string_field : BDFCard -> nat -> result string.

(** [while i < nfields], [i] starting at 9 and growing by 2: the loop
    over [range(9, nfields, 2)]. *)
Definition loc_fields (nfields : nat) : list nat :=
  map (fun q => 9 + 2 * q) (seq 0 ((nfields - 9 + 1) / 2)).

Fixpoint read_locs (card : BDFCard) (ifields : list nat)
    (acc : list float * list float) : result (list float * list float) :=
  match ifields with
  | [] => Ok acc
  | i :: ifields' =>
      loc ← double card i;
      val ← double card i;
      let '(locs, vals) := acc in
      read_locs card ifields' (locs ++ [loc], vals ++ [val])
  end.

(** The tuple that [add_card] appends to [self.cards]. *)
Definition add_card (card : BDFCard) (comment : string) : result ACCEL.card :=
  sid ← integer card 1;
  cid ← integer_or_blank card 2 0;
  n1 ← double_or_blank card 3 0;
  n2 ← double_or_blank card 4 0;
  n3 ← double_or_blank card 5 0;
  let N := [n1; n2; n3] in
  direction ← string_field card 6;
  let nfields := length card in
  '(locs, vals) ← read_locs card (loc_fields nfields) ([], []);
  Ok (sid, N, direction, locs, vals, cid, comment).
End add_card.

End ACCEL.

(** ** SLOAD *)

Module SLOAD.

(** A staged tuple [(sid, nodes, mags, comment)]. *)
Definition card : Type := Z * list Z * list float * string.

Record table : Type := {
  n : nat;
  load_id : list Z;
  nodes : list Z;
  mags : list float;
}.

(** [for i in range(ngroups)] *)
Fixpoint read_groups (card : BDFCard) (groups : list nat)
    (acc : list Z * list float) : result (list Z * list float) :=
  match groups with
  | [] => Ok acc
  | i :: groups' =>
      let j := 2 * i + 2 in
      node ← integer card j;
      mag ← double card (j + 1);
      let '(nodes, mags) := acc in
      read_groups card groups' (nodes ++ [node], mags ++ [mag])
  end.

(** The tuple that [add_card] appends to [self.cards]; [len(card) - 2] is
    taken after field 1 has been read, on a card of at least two
    fields. *)
Definition add_card (card : BDFCard) (comment : string) : result SLOAD.card :=
  sid ← integer card 1;
  let nfields := length card - 2 in
  let ngroups := nfields / 2 in
  if nfields mod 2 =? 1 then Raise RuntimeError
  else
    '(nodes, mags) ← read_groups card (seq 0 ngroups) ([], []);
    Ok (sid, nodes, mags, comment).

(** [__apply_slice__(self, load, i)] on a new [load]: [nodes] and [mags]
    are handed over whole. *)
Definition __apply_slice__ (self : table) (i : list nat) : result table :=
  load_id' ← np_index (load_id self) i;
  Ok {| n := length i; load_id := load_id'; nodes := nodes self;
        mags := mags self |}.

(** [write_file(bdf_file, size)], decorated with [parse_load_check]. *)
Definition write_file : table -> nat -> result (list card_line) :=
  parse_load_check n (fun t size =>
    let print_card := size in
    let load_ids := map OInt (load_id t) in
    Ok (map (fun '(sid, node, mag) =>
               {| field_width := print_card;
                  list_fields := [OStr "SLOAD"; sid; OInt node; OFloat mag] |})
            (zip (zip load_ids (nodes t)) (mags t)))).

End SLOAD.

(** An SLOAD row: the load id, the node and the magnitude. *)
Definition SLOAD_row : Type := Z * Z * float.

(** The aligned table that stores [rows]. *)
Definition SLOAD_of_rows (rows : list SLOAD_row) : SLOAD.table :=
  {| SLOAD.n := length rows;
     SLOAD.load_id := map (fun r : SLOAD_row => r.1.1) rows;
     SLOAD.nodes := map (fun r : SLOAD_row => r.1.2) rows;
     SLOAD.mags := map (fun r : SLOAD_row => r.2) rows |}.

Definition SLOAD_line (size : nat) (sid node : Z) (mag : float) : card_line :=
  {| field_width := size;
     list_fields := [OStr "SLOAD"; OInt sid; OInt node; OFloat mag] |}.

(** The fields of an SLOAD card with the pairs [pairs]. *)
Definition SLOAD_card (sid : Z) (pairs : list (Z * float)) : BDFCard :=
  [Some (FStr "SLOAD"); Some (FInt sid)]
  ++ flat_map (fun p : Z * float => [Some (FInt p.1); Some (FFloat p.2)])
              pairs.

Definition sload_rows_16 : list SLOAD_row :=
  [(16%Z, 2%Z, 5.5%float); (16%Z, 17%Z, 6.5%float); (18%Z, 14%Z, 2.5%float)].

(** A reader of text fields for the examples. *)
Definition text_field (card : BDFCard) (i : nat) : result string :=
  match card_field card i with
  | Some (FStr s) => Ok s
  | _ => Raise SyntaxError
  end.

(** [ACCEL, 100, 2, 0.0, 1.0, 2.0, X] continued by [1.0, 1.5, 2.0, 2.5]. *)
Definition accel_card_100 : BDFCard :=
  [Some (FStr "ACCEL"); Some (FInt 100); Some (FInt 2); Some (FFloat 0);
   Some (FFloat 1); Some (FFloat 2); Some (FStr "X"); None; None;
   Some (FFloat 1); Some (FFloat 1.5); Some (FFloat 2); Some (FFloat 2.5)].

(** ** Load0: FORCE and MOMENT *)

Module Load0.

(** A staged tuple [(sid, node, cid, mag, xyz, comment)], [xyz] being the
    three components of the direction. *)
Definition card : Type :=
  Z * Z * Z * float * (float * float * float) * string.

Record table : Type := {
  cards : list card;
  n : nat;
  load_id : list Z;
  node_id : list Z;
  coord_id : list Z;
  mag : list float;
  xyz : list (float * float * float);
}.

Definition init : table :=
  {| cards := []; n := 0; load_id := []; node_id := []; coord_id := [];
     mag := []; xyz := [] |}.

Definition stage (t : table) (c : card) : table :=
  {| cards := cards t ++ [c]; n := S (n t);
     load_id := load_id t; node_id := node_id t; coord_id := coord_id t;
     mag := mag t; xyz := xyz t |}.

Definition add (t : table) (sid node : Z) (mag0 : float)
    (xyz0 : float * float * float) (cid : Z) (comment : string) : table :=
  stage t (sid, node, cid, mag0, xyz0, comment).

Definition add_card (t : table) (card : BDFCard) (comment : string)
    : result table :=
  sid ← integer card 1;
  node ← integer card 2;
  cid ← integer_or_blank card 3 0;
  mag0 ← double card 4;
  x1 ← double_or_blank card 5 0;
  x2 ← double_or_blank card 6 0;
  x3 ← double_or_blank card 7 0;
  _ ← py_assert (length card <=? 8);
  Ok (stage t (sid, node, cid, mag0, (x1, x2, x3), comment)).

(** [_save]: the stored columns are stacked before the new ones when the
    stored [load_id] is empty, and dropped otherwise. *)
Definition _save (t : table) (load_id0 node_id0 coord_id0 : list Z)
    (mag0 : list float) (xyz0 : list (float * float * float)) : table :=
  let '(load_id0, node_id0, coord_id0, mag0, xyz0) :=
    if length (load_id t) =? 0 then
      (load_id t ++ load_id0, node_id t ++ node_id0,
       coord_id t ++ coord_id0, mag t ++ mag0, xyz t ++ xyz0)
    else (load_id0, node_id0, coord_id0, mag0, xyz0) in
  let nloads := length load_id0 in
  {| cards := cards t; n := nloads;
     load_id := load_id0; node_id := node_id0; coord_id := coord_id0;
     mag := mag0; xyz := xyz0 |}.

(** [parse_cards], decorated with [Load.parse_cards_check]; [load_id],
    [node_id] and [coord_id] are arrays of dtype [int32], filled by the
    loop; the last assertion compares the batch with [self.n]. *)
Definition parse_cards : table -> result table :=
  parse_cards_check cards (fun t =>
    let ncards := length (cards t) in
    _ ← py_assert (0 <? ncards);
    load_id0 ←
      np_int32
        (map (fun '(sid, node, cid, magi, xyzi, comment) => sid) (cards t));
    node_id0 ←
      np_int32
        (map (fun '(sid, node, cid, magi, xyzi, comment) => node) (cards t));
    coord_id0 ←
      np_int32
        (map (fun '(sid, node, cid, magi, xyzi, comment) => cid) (cards t));
    let mag0 :=
      map (fun '(sid, node, cid, magi, xyzi, comment) => magi) (cards t) in
    let xyz0 :=
      map (fun '(sid, node, cid, magi, xyzi, comment) => xyzi) (cards t) in
    let t := _save t load_id0 node_id0 coord_id0 mag0 xyz0 in
    _ ← py_assert (length load_id0 =? n t);
    Ok {| cards := []; n := n t;
          load_id := load_id t; node_id := node_id t;
          coord_id := coord_id t; mag := mag t; xyz := xyz t |}).

End Load0.

(** A FORCE or MOMENT row. *)
Definition Load0_row : Type := Z * Z * Z * float * (float * float * float).

Definition Load0_row_of_card (c : Load0.card) : Load0_row :=
  let '(sid, node, cid, mag, xyz, comment) := c in
  (sid, node, cid, mag, xyz).

(** The rows of a table, one per position of its columns. *)
Definition Load0_rows (t : Load0.table) : list Load0_row :=
  zip (zip (zip (zip (Load0.load_id t) (Load0.node_id t))
                (Load0.coord_id t)) (Load0.mag t)) (Load0.xyz t).

(** The table that stores [rows], with [staged] staged on top. *)
Definition Load0_of_rows (rows : list Load0_row) (staged : list Load0.card)
    : Load0.table :=
  {| Load0.cards := staged; Load0.n := length rows + length staged;
     Load0.load_id := map (fun r : Load0_row => r.1.1.1.1) rows;
     Load0.node_id := map (fun r : Load0_row => r.1.1.1.2) rows;
     Load0.coord_id := map (fun r : Load0_row => r.1.1.2) rows;
     Load0.mag := map (fun r : Load0_row => r.1.2) rows;
     Load0.xyz := map (fun r : Load0_row => r.2) rows |}.

(** The staged ids that [Load0.parse_cards] stores in arrays of dtype
    [int32] are in the range of [int32]. *)
Definition Load0_fits (cs : list Load0.card) : bool :=
  forallb fits_int32
    (map (fun '(sid, node, cid, magi, xyzi, comment) => sid) cs)
  && forallb fits_int32
       (map (fun '(sid, node, cid, magi, xyzi, comment) => node) cs)
  && forallb fits_int32
       (map (fun '(sid, node, cid, magi, xyzi, comment) => cid) cs).

(** [FORCE, 3, 10, , 100.0, 0.0, 0.0, 1.0] *)
Definition force_card_3 : BDFCard :=
  [Some (FStr "FORCE"); Some (FInt 3); Some (FInt 10); None;
   Some (FFloat 100); Some (FFloat 0); Some (FFloat 0); Some (FFloat 1)].

(** ** PLOTEL: parsing and writing *)

(** [nodes[icard, :] = nodesi] on a row of two: a single value is
    broadcast, any other length than two raises [ValueError]. *)
Definition PLOTEL_assign_row (nodesi : list Z) : result (list Z) :=
  match nodesi with
  | [x] => Ok [x; x]
  | _ => if length nodesi =? 2 then Ok nodesi else Raise ValueError
  end.

Fixpoint PLOTEL_assign_rows (rows : list (list Z)) : result (list (list Z)) :=
  match rows with
  | [] => Ok []
  | nodesi :: rows' =>
      r ← PLOTEL_assign_row nodesi;
      rs ← PLOTEL_assign_rows rows';
      Ok (r :: rs)
  end.

Definition PLOTEL__save (t : PLOTEL.table) (element_id0 : list Z)
    (nodes0 : list (list Z)) : PLOTEL.table :=
  let nelements := length element_id0 in
  {| PLOTEL.cards := PLOTEL.cards t; PLOTEL.n := nelements;
     PLOTEL.element_id := element_id0; PLOTEL.nodes := nodes0 |}.

(** [parse_cards], decorated with [Element.parse_cards_check]. *)
Definition PLOTEL_parse_cards : PLOTEL.table -> result PLOTEL.table :=
  parse_cards_check PLOTEL.cards (fun t =>
    let element_id0 :=
      map (fun '(eid, nodesi, comment) => eid) (PLOTEL.cards t) in
    nodes0 ←
      PLOTEL_assign_rows
        (map (fun '(eid, nodesi, comment) => nodesi) (PLOTEL.cards t));
    let t := PLOTEL__save t element_id0 nodes0 in
    Ok {| PLOTEL.cards := []; PLOTEL.n := PLOTEL.n t;
          PLOTEL.element_id := PLOTEL.element_id t;
          PLOTEL.nodes := PLOTEL.nodes t |}).

(** Modelled from the spec: the decorator [parse_element_check] is in
    [base_card.py], which is not among the sources at hand.  A table with
    [n == 0] writes nothing and returns; otherwise the decorated body
    runs. *)
Definition parse_element_check {T : Type} (n : T -> nat)
    (func : T -> nat -> result (list card_line)) (self : T) (size : nat)
    : result (list card_line) :=
  if n self =? 0 then Ok [] else func self size.

(** [for eid, nodesi in zip(element_id, nodes)]; [n1, n2 = nodesi]
    unpacks a row of two. *)
Fixpoint PLOTEL_write_rows (print_card : nat) (rows : list (Z * list Z))
    : result (list card_line) :=
  match rows with
  | [] => Ok []
  | (eid, nodesi) :: rows' =>
      match nodesi with
      | [n1; n2] =>
          lines ← PLOTEL_write_rows print_card rows';
          Ok ({| field_width := print_card;
                 list_fields := [OStr "PLOTEL"; OInt eid; OInt n1; OInt n2] |}
                :: lines)
      | _ => Raise ValueError
      end
  end.

(** [write_file(bdf_file, size)], decorated with [parse_element_check]. *)
Definition PLOTEL_write_file : PLOTEL.table -> nat -> result (list card_line) :=
  parse_element_check PLOTEL.n (fun t size =>
    let print_card := size in
    PLOTEL_write_rows print_card (zip (PLOTEL.element_id t) (PLOTEL.nodes t))).

(** [add_card] applied to the cards of a deck, one after the other. *)
Fixpoint PLOTEL_add_cards (t : PLOTEL.table) (deck : list BDFCard)
    : result PLOTEL.table :=
  match deck with
  | [] => Ok t
  | card :: deck' =>
      t ← PLOTEL.add_card t card ""%string;
      PLOTEL_add_cards t deck'
  end.

(** A PLOTEL row: the element id and its two nodes. *)
Definition PLOTEL_row : Type := Z * Z * Z.

(** The parsed table that stores [rows]. *)
Definition PLOTEL_of_rows (rows : list PLOTEL_row) : PLOTEL.table :=
  {| PLOTEL.cards := []; PLOTEL.n := length rows;
     PLOTEL.element_id := map (fun r : PLOTEL_row => r.1.1) rows;
     PLOTEL.nodes := map (fun r : PLOTEL_row => [r.1.2; r.2]) rows |}.

(** The card written for a PLOTEL row. *)
Definition PLOTEL_line (size : nat) (r : PLOTEL_row) : card_line :=
  {| field_width := size;
     list_fields := [OStr "PLOTEL"; OInt r.1.1; OInt r.1.2; OInt r.2] |}.

(** * Properties *)

(** ** Helper lemmas on the array primitives *)

Lemma np_index_length {A} (a : list A) (i : list nat) (r : list A) :
  np_index a i = Ok r -> length r = length i.
Proof.
  revert r. induction i as [|k i IH]; intros r; simpl.
  - intros [= <-]. reflexivity.
  - destruct (a !! k); [|discriminate].
    destruct (np_index a i) as [xs|] eqn:E; simpl; [|discriminate].
    intros [= <-]. simpl. f_equal. apply IH. reflexivity.
Qed.

Lemma np_index_total {A} (a : list A) (i : list nat) :
  Forall (fun k => k < length a) i -> exists r, np_index a i = Ok r.
Proof.
  induction 1 as [|k i Hk _ [r IH]]; simpl.
  - eauto.
  - destruct (lookup_lt_is_Some_2 a k Hk) as [x ->].
    rewrite IH. simpl. eauto.
Qed.

Lemma sum_nat_app (l1 l2 : list nat) :
  sum_nat (l1 ++ l2) = sum_nat l1 + sum_nat l2.
Proof.
  unfold sum_nat. induction l1 as [|x l1 IH]; simpl; [reflexivity|].
  rewrite IH. lia.
Qed.

Lemma elem_of_uinsert (x y : Z) (l : list Z) :
  x ∈ uinsert y l <-> x = y \/ x ∈ l.
Proof.
  induction l as [|z l IH]; simpl.
  - rewrite list_elem_of_singleton. split; [auto|]. intros [H|H]; [done|].
    by apply elem_of_nil in H.
  - destruct (y <? z)%Z eqn:Hlt; [apply elem_of_cons|].
    destruct (y =? z)%Z eqn:Heq.
    + apply Z.eqb_eq in Heq. subst z. rewrite elem_of_cons. tauto.
    + rewrite !elem_of_cons, IH. tauto.
Qed.

Lemma elem_of_np_unique (x : Z) (l : list Z) : x ∈ np_unique l <-> x ∈ l.
Proof.
  unfold np_unique. induction l as [|y l IH]; simpl; [done|].
  rewrite elem_of_uinsert, elem_of_cons, IH. done.
Qed.

Lemma uinsert_sorted (x : Z) (l : list Z) :
  StronglySorted Z.lt l -> StronglySorted Z.lt (uinsert x l).
Proof.
  induction 1 as [|y l Hs IH Hy]; simpl.
  - repeat constructor.
  - destruct (x <? y)%Z eqn:Hlt.
    + apply Z.ltb_lt in Hlt. constructor; [by constructor|].
      constructor; [done|].
      eapply Forall_impl; [exact Hy|]. intros z Hz; simpl in *; lia.
    + destruct (x =? y)%Z eqn:Heq; [by constructor|].
      apply Z.ltb_ge in Hlt. apply Z.eqb_neq in Heq.
      constructor; [exact IH|].
      apply Forall_forall. intros z Hz. apply elem_of_uinsert in Hz.
      destruct Hz as [->|Hz]; [lia|].
      rewrite Forall_forall in Hy. by apply Hy.
Qed.

Lemma np_unique_sorted (l : list Z) : StronglySorted Z.lt (np_unique l).
Proof.
  unfold np_unique. induction l as [|x l IH]; simpl; [constructor|].
  by apply uinsert_sorted.
Qed.

Lemma np_unique_nonempty (l : list Z) : l <> [] -> np_unique l <> [].
Proof.
  destruct l as [|x l]; [done|]. intros _ H.
  assert (x ∈ np_unique (x :: l)) as Hx
    by (apply elem_of_np_unique, list_elem_of_here).
  rewrite H in Hx. by apply elem_of_nil in Hx.
Qed.

(** ** Reduction of LOAD cards *)

Lemma append_load_nonempty m k x :
  nonempty_values m -> nonempty_values (LOAD.append_load m k x).
Proof.
  intros Hm k' l. unfold LOAD.append_load.
  destruct (decide (k = k')) as [->|Hne].
  - rewrite lookup_insert_eq. intros [= <-].
    destruct (default [] (m !! k')); discriminate.
  - rewrite lookup_insert_ne by done. apply Hm.
Qed.

Lemma collect_ids_nonempty loadi ids m m' :
  nonempty_values m ->
  LOAD.collect_ids loadi ids m = Ok m' -> nonempty_values m'.
Proof.
  revert m. induction ids as [|k ids IH]; intros m Hm; simpl.
  - intros [= <-]. exact Hm.
  - destruct (Load.slice_card_by_load_id loadi k) as [x|]; simpl; [|discriminate].
    apply IH, append_load_nonempty, Hm.
Qed.

Lemma collect_cards_nonempty load_cards m m' :
  nonempty_values m ->
  LOAD.collect_cards load_cards m = Ok m' -> nonempty_values m'.
Proof.
  revert m. induction load_cards as [|loadi rest IH]; intros m Hm; simpl.
  - intros [= <-]. exact Hm.
  - case_bool_decide; [apply IH, Hm|].
    destruct (Load.n loadi =? 0); [apply IH, Hm|].
    destruct (LOAD.collect_ids loadi _ m) as [m1|] eqn:E; simpl; [|discriminate].
    apply IH. eapply collect_ids_nonempty; eauto.
Qed.

Lemma get_loads_by_load_id_nonempty load_cards m :
  LOAD.get_loads_by_load_id load_cards = Ok m -> nonempty_values m.
Proof.
  apply collect_cards_nonempty. intros k l. rewrite lookup_empty. discriminate.
Qed.

Lemma index_of_load_id_bound (x : Z) (col : list Z) (i : nat) :
  Forall (fun k => i <= k < i + length col) (Load.index_of_load_id x col i).
Proof.
  revert i. induction col as [|y col IH]; intros i; simpl; [constructor|].
  assert (Forall (fun k => i <= k < i + S (length col))
            (Load.index_of_load_id x col (S i))) as H.
  { eapply Forall_impl; [apply IH|]. simpl. intros k Hk. lia. }
  destruct (y =? x)%Z; [constructor; [lia|exact H]|exact H].
Qed.

Lemma index_of_load_id_nonempty (x : Z) (col : list Z) (i : nat) :
  x ∈ col -> Load.index_of_load_id x col i <> [].
Proof.
  revert i. induction col as [|y col IH]; intros i Hx; simpl.
  - by apply elem_of_nil in Hx.
  - destruct (y =? x)%Z eqn:E; [done|].
    apply elem_of_cons in Hx as [->|Hx]; [by rewrite Z.eqb_refl in E|].
    by apply IH.
Qed.

Lemma slice_card_by_load_id_total (t : Load.table) (x : Z) :
  Load_columns t -> x ∈ Load.load_id t ->
  exists t', Load.slice_card_by_load_id t x = Ok t'.
Proof.
  intros [H1 H2] Hx. unfold Load.slice_card_by_load_id.
  assert (0 < length (Load.load_id t)) as Hlen.
  { destruct (Load.load_id t); [by apply elem_of_nil in Hx|simpl; lia]. }
  assert (py_assert (0 <? length (Load.load_id t)) = Ok tt) as ->.
  { unfold py_assert. by rewrite (proj2 (Nat.ltb_lt _ _) Hlen). }
  simpl.
  pose proof (index_of_load_id_nonempty x (Load.load_id t) 0 Hx) as Hne.
  pose proof (index_of_load_id_bound x (Load.load_id t) 0) as Hb.
  set (index := Load.index_of_load_id x (Load.load_id t) 0) in *.
  assert (py_assert (0 <? length index) = Ok tt) as ->.
  { destruct index; [done|reflexivity]. }
  simpl. unfold Load.slice_card_by_index, Load.__apply_slice__.
  destruct (np_index_total (Load.load_id t) index) as [a ->].
  { eapply Forall_impl; [exact Hb|]. simpl. intros ? ?. lia. }
  destruct (np_index_total (Load.elements t) index) as [b ->].
  { eapply Forall_impl; [exact Hb|]. simpl. intros ? ?. rewrite H1. lia. }
  destruct (np_index_total (Load.enforced t) index) as [c ->].
  { eapply Forall_impl; [exact Hb|]. simpl. intros ? ?. rewrite H2. lia. }
  simpl. eauto.
Qed.

Lemma append_load_dom m k x (j : Z) :
  is_Some (LOAD.append_load m k x !! j) <-> is_Some (m !! j) \/ j = k.
Proof.
  unfold LOAD.append_load. destruct (decide (k = j)) as [->|Hne].
  - rewrite lookup_insert_eq. split; [auto|eauto].
  - rewrite lookup_insert_ne by done. split; [auto|].
    intros [H|H]; [done|congruence].
Qed.

Lemma collect_ids_total loadi ids m :
  Load_columns loadi -> Forall (fun x => x ∈ Load.load_id loadi) ids ->
  exists m', LOAD.collect_ids loadi ids m = Ok m'
             /\ forall j, is_Some (m' !! j) <-> is_Some (m !! j) \/ j ∈ ids.
Proof.
  intros Hc Hids. revert m.
  induction Hids as [|x ids Hx _ IH]; intros m; simpl.
  - eexists. split; [reflexivity|]. intros j. split; [auto|].
    intros [H|H]; [done|by apply elem_of_nil in H].
  - destruct (slice_card_by_load_id_total loadi x Hc Hx) as [t' ->]. simpl.
    destruct (IH (LOAD.append_load m x t')) as (m' & -> & Hdom).
    eexists. split; [reflexivity|]. intros j.
    rewrite Hdom, append_load_dom, elem_of_cons. tauto.
Qed.

Lemma collect_cards_total load_cards m :
  Forall Load_columns load_cards ->
  exists m', LOAD.collect_cards load_cards m = Ok m'
             /\ forall j, is_Some (m' !! j) <->
                          is_Some (m !! j)
                          \/ exists c, c ∈ load_cards /\ Load_concrete c
                                       /\ j ∈ Load.load_id c.
Proof.
  intros Hall. revert m.
  induction Hall as [|loadi rest Hc _ IH]; intros m; simpl.
  - eexists. split; [reflexivity|]. intros j. split; [auto|].
    intros [H|(c & H & _)]; [done|by apply elem_of_nil in H].
  - assert (forall m0 m1 : gmap Z (list Load.table),
              (forall j, is_Some (m1 !! j) <->
                         is_Some (m0 !! j)
                         \/ exists c, c ∈ rest /\ Load_concrete c
                                      /\ j ∈ Load.load_id c) ->
              ~ Load_concrete loadi ->
              forall j, is_Some (m1 !! j) <->
                        is_Some (m0 !! j)
                        \/ exists c, c ∈ loadi :: rest /\ Load_concrete c
                                     /\ j ∈ Load.load_id c) as Hskip.
    { intros m0 m1 H Hn j. rewrite H. split; intros [?|(c & Hin & Hcc & Hj)];
        [auto| |auto|].
      - right. exists c. split; [by apply list_elem_of_further|done].
      - apply elem_of_cons in Hin as [->|Hin]; [done|]. eauto. }
    case_bool_decide as Ht.
    { destruct (IH m) as (m' & -> & Hdom). eexists. split; [reflexivity|].
      apply Hskip; [exact Hdom|]. intros (H1 & H2 & _). tauto. }
    destruct (Load.n loadi =? 0) eqn:En.
    { destruct (IH m) as (m' & -> & Hdom). eexists. split; [reflexivity|].
      apply Hskip; [exact Hdom|]. intros (_ & _ & H3).
      apply Nat.eqb_eq in En. contradiction. }
    destruct (collect_ids_total loadi (np_unique (Load.load_id loadi)) m Hc)
      as (m1 & -> & Hdom1).
    { apply Forall_forall. intros x Hx. by apply elem_of_np_unique. }
    simpl. destruct (IH m1) as (m' & -> & Hdom).
    eexists. split; [reflexivity|]. intros j. rewrite Hdom, Hdom1.
    rewrite elem_of_np_unique.
    assert (Load_concrete loadi) as Hcc.
    { apply Nat.eqb_neq in En. unfold Load_concrete.
      split; [|split]; [intros H; apply Ht; by left
                       |intros H; apply Ht; by right|done]. }
    split.
    + intros [[H|H]|(c & Hin & Hc' & Hj)]; [by left| |].
      * right. exists loadi. split; [apply list_elem_of_here|done].
      * right. exists c. split; [by apply list_elem_of_further|done].
    + intros [H|(c & Hin & Hc' & Hj)]; [by left; left|].
      apply elem_of_cons in Hin as [->|Hin]; [by left; right|].
      right. eauto.
Qed.

Lemma get_loads_by_load_id_total load_cards :
  Forall Load_columns load_cards ->
  exists m, LOAD.get_loads_by_load_id load_cards = Ok m
            /\ forall c j, c ∈ load_cards -> Load_concrete c ->
                           j ∈ Load.load_id c -> is_Some (m !! j).
Proof.
  intros Hall. destruct (collect_cards_total load_cards ∅ Hall)
    as (m & Hm & Hdom).
  exists m. split; [exact Hm|]. intros c j Hin Hc Hj.
  apply Hdom. right. eauto.
Qed.

Lemma add_unreferenced_lookup (m : gmap Z (list Load.table))
    (agg : reduced_loads_t) (k : Z) :
  add_unreferenced m agg !! k =
    match agg !! k with
    | Some v => Some v
    | None => (fun loads => [(1%float, loads)]) <$> m !! k
    end.
Proof.
  unfold add_unreferenced. revert k.
  apply (map_fold_weak_ind
           (fun (r : reduced_loads_t) (m' : gmap Z (list Load.table)) =>
              forall k, r !! k =
                match agg !! k with
                | Some v => Some v
                | None => (fun loads => [(1%float, loads)]) <$> m' !! k
                end)).
  - intros k. rewrite lookup_empty. simpl. destruct (agg !! k); reflexivity.
  - intros i x m' r Hi IH k.
    destruct (decide (i = k)) as [->|Hne].
    + rewrite lookup_insert_eq. simpl.
      specialize (IH k). rewrite Hi in IH. simpl in IH.
      destruct (agg !! k) as [v|] eqn:Ek.
      * rewrite bool_decide_eq_true_2 by (rewrite IH; eauto). exact IH.
      * rewrite bool_decide_eq_false_2
          by (rewrite IH; intros [? ?]; discriminate).
        apply lookup_insert_eq.
    + rewrite (lookup_insert_ne m') by done.
      case_bool_decide; [apply IH|].
      rewrite lookup_insert_ne by done. apply IH.
Qed.

(** *** The concrete decks *)

Example load_100_parsed :
  (t ← LOAD.add LOAD.init 100 2%float [3; 5]%float [1; 5]%Z ""%string;
   LOAD.parse_cards t) = Ok load_100.
Proof. reflexivity. Qed.

Example load_100_from_card :
  (t ← LOAD.add_card LOAD.init
         [Some (FStr "LOAD"); Some (FStr "100"); Some (FFloat 2);
          Some (FFloat 3); Some (FStr "1"); Some (FFloat 5); Some (FStr "5")]
         ""%string;
   LOAD.parse_cards t) = Ok load_100.
Proof. reflexivity. Qed.

Example loads_by_load_id_1_5 :
  (m ← LOAD.get_loads_by_load_id [deform_1_5];
   Ok (m !! 1%Z, m !! 5%Z, m !! 100%Z))
  = Ok (Some [deform_1], Some [deform_5], None).
Proof. vm_compute. reflexivity. Qed.

(** [LOAD.scale] is never read by [get_reduced_loads]: a table and the same
    table with any other column of global scales reduce alike. *)
Lemma reduce_rows_scale_unread m fz sof load scale' rows red log :
  reduce_rows m fz sof (with_scale load scale') rows red log
  = reduce_rows m fz sof load rows red log.
Proof.
  revert red log.
  induction rows as [|[[sid g] [i0 i1]] rows IH]; intros red log; simpl.
  - reflexivity.
  - destruct ((g =? 0)%float && fz); [apply IH|].
    unfold lbind. simpl.
    destruct (reduce_members _ _ _ _ _ _ _ _) as [log1 [acc|e]]; [|reflexivity].
    destruct (length acc =? 0); apply IH.
Qed.

Lemma get_reduced_loads_scale_unread load_cards load scale' rm fz sof log :
  get_reduced_loads load_cards (with_scale load scale') rm fz sof log
  = get_reduced_loads load_cards load rm fz sof log.
Proof.
  unfold get_reduced_loads, LOAD.iload. simpl.
  destruct (LOAD.n load =? 0); [reflexivity|].
  unfold lbind, llift.
  destruct (LOAD.get_loads_by_load_id load_cards) as [m|e]; [|reflexivity].
  by rewrite reduce_rows_scale_unread.
Qed.

(** The members of a row are scaled by the multiplier the row loop is
    given, whatever that multiplier is. *)
Lemma reduce_members_records m fz sof sid red sf lid loads acc :
  m !! lid = Some loads -> loads <> [] ->
  ((sf =? 0)%float && fz) = false ->
  forall log,
    reduce_members m fz sof sid red [(sf, lid)] acc log
    = (log, Ok (acc ++ [(sf, loads)])).
Proof.
  intros Hm Hne Hz log. simpl. rewrite Hz, Hm.
  destruct loads; [done|]. reflexivity.
Qed.

(** C1: on the deck [LOAD, 100, 2.0, 3.0, 1, 5.0, 5] the members 1 and 5
    resolve, and the claim asks for the combined factors 2.0 * 3.0 = 6.0 and
    2.0 * 5.0 = 10.0.  The row loop of [get_reduced_loads] zips
    [load.load_id] with [load.scale_factors], the flat member factors, and
    not with [load.scale]: the multiplier of row 0 is the factor of the
    first member, 3.0, and the recorded factors are 9.0 and 15.0. *)
Theorem get_reduced_loads_combined_scale_wrong :
  (r ← (get_reduced_loads [deform_1_5] load_100 false false true []).2;
   Ok (r !! 100%Z))
  = Ok (Some [(9%float, [deform_1]); (15%float, [deform_5])])
  /\ (2 * 3 = 6)%float /\ (2 * 5 = 10)%float
  /\ 9%float <> 6%float /\ 15%float <> 10%float.
Proof.
  split; [vm_compute; reflexivity|].
  split; [vm_compute; reflexivity|].
  split; [vm_compute; reflexivity|].
  split; [float_neq 6%float | float_neq 10%float].
Qed.

Lemma reduce_members_recorded m fz sof sid red members :
  nonempty_values m ->
  forall acc log, exists log',
    reduce_members m fz sof sid red members acc log
    = (log', Ok (acc ++ LOAD_recorded_members m fz members)).
Proof.
  intros Hne. unfold LOAD_recorded_members.
  induction members as [|[sf lid] members IH]; intros acc log.
  - exists log. simpl. by rewrite app_nil_r.
  - cbn [reduce_members omap list_omap].
    destruct ((sf =? 0)%float && fz); [apply IH|].
    destruct (m !! lid) as [lf|] eqn:E; cbn [fmap option_fmap option_map].
    + unfold lbind. destruct lf as [|x lf]; [exfalso; eapply Hne; eauto|].
      simpl. destruct (IH (acc ++ [(sf, x :: lf)]) log) as [log' ->].
      exists log'. by rewrite <- app_assoc.
    + case_bool_decide; unfold lbind, log_write; simpl; apply IH.
Qed.

Lemma reduce_rows_recorded m fz sof load rows :
  nonempty_values m ->
  forall red log, exists log' agg,
    reduce_rows m fz sof load rows red log = (log', Ok agg)
    /\ forall k,
         agg !! k
         = match last (List.filter (LOAD_records m fz load k) rows) with
           | Some row => Some (LOAD_recorded m fz load row)
           | None => red !! k
           end.
Proof.
  intros Hne.
  induction rows as [|[[sid g] [i0 i1]] rows IH]; intros red log.
  - exists log, red. split; reflexivity.
  - cbn [reduce_rows List.filter]. unfold LOAD_records at 1.
    cbn [LOAD_recorded fst snd].
    destruct ((g =? 0)%float && fz) eqn:Eg.
    { destruct (IH red log) as (log' & agg & -> & H).
      exists log', agg. split; [reflexivity|]. intros k. rewrite H.
      by rewrite andb_false_r. }
    unfold lbind.
    destruct (reduce_members_recorded m fz sof sid red
                (zip (map (PrimFloat.mul g)
                          (py_slice (LOAD.scale_factors load) i0 i1))
                     (py_slice (LOAD.load_ids load) i0 i1)) Hne [] log)
      as (log1 & ->).
    cbn [app].
    set (rec := LOAD_recorded_members m fz _).
    destruct (length rec =? 0) eqn:El.
    + destruct (IH red log1) as (log' & agg & -> & H).
      exists log', agg. split; [reflexivity|]. intros k. rewrite H.
      by rewrite andb_false_r.
    + destruct (IH (<[sid := rec]> red) log1) as (log' & agg & -> & H).
      exists log', agg. split; [reflexivity|]. intros k. rewrite H.
      rewrite andb_true_r. case_bool_decide as Ek.
      * subst k. rewrite last_cons, lookup_insert_eq.
        destruct (last _) as [row|]; [reflexivity|].
        cbn [LOAD_recorded]. by rewrite Eg.
      * by rewrite lookup_insert_ne.
Qed.

(** C9 (amended): with concrete load tables whose columns have one entry
    per row, [get_reduced_loads] on an empty LOAD table returns the empty
    mapping and logs nothing.  On a non-empty LOAD table it returns, and
    every id of the concrete-load map for which no LOAD row of that id
    records a member is a key of the result, bound to the single pair
    made of the scale factor 1.0 and the concrete tables found for that
    id; an id for which LOAD rows of that id record members is bound to
    what the last of them recorded, and an id that is neither is no key.
    Every load id carried by a concrete table is in the concrete-load
    map. *)
Theorem unreferenced_loads_get_unit_scale
    (load_cards : list Load.table) (load : LOAD.table)
    (rm fz sof : bool) (log : list log_entry) :
  Forall Load_columns load_cards ->
  (LOAD.n load = 0 ->
   get_reduced_loads load_cards load rm fz sof log = (log, Ok ∅))
  /\ (LOAD.n load <> 0 ->
      exists m log' r,
        LOAD.get_loads_by_load_id load_cards = Ok m
        /\ get_reduced_loads load_cards load rm fz sof log = (log', Ok r)
        /\ (forall k loads,
               m !! k = Some loads -> LOAD_recording m fz load k = [] ->
               r !! k = Some [(1%float, loads)])
        /\ (forall k row,
               last (LOAD_recording m fz load k) = Some row ->
               r !! k = Some (LOAD_recorded m fz load row))
        /\ (forall k,
               m !! k = None -> LOAD_recording m fz load k = [] ->
               r !! k = None)
        /\ (forall c k,
               c ∈ load_cards -> Load_concrete c -> k ∈ Load.load_id c ->
               is_Some (m !! k))).
Proof.
  intros Hcols. unfold get_reduced_loads. split.
  { intros ->. reflexivity. }
  intros Hn.
  destruct (get_loads_by_load_id_total load_cards Hcols) as (m & Hm & Hdom).
  exists m.
  destruct (LOAD.n load =? 0) eqn:En; [apply Nat.eqb_eq in En; contradiction|].
  unfold lbind, llift. rewrite Hm.
  destruct (reduce_rows_recorded m fz true load (LOAD_zipped load)
              (get_loads_by_load_id_nonempty _ _ Hm) ∅ log)
    as (log' & agg & Hr & Hagg).
  unfold LOAD_zipped in Hr. rewrite Hr.
  eexists _, _. split; [reflexivity|]. split; [reflexivity|].
  unfold LOAD_recording.
  split; [|split; [|split; [|exact Hdom]]].
  - intros k loads Hk Hnone.
    by rewrite add_unreferenced_lookup, Hagg, Hnone, lookup_empty, Hk.
  - intros k row Hlast.
    by rewrite add_unreferenced_lookup, Hagg, Hlast.
  - intros k Hk Hnone.
    by rewrite add_unreferenced_lookup, Hagg, Hnone, lookup_empty, Hk.
Qed.

Lemma unreferenced_loads_get_unit_scale_witness :
  Forall Load_columns [deform_1_5]
  /\ get_reduced_loads [deform_1_5] LOAD.init false false true []
     = ([], Ok ∅)
  /\ exists m log' r,
       LOAD.get_loads_by_load_id [deform_1_5] = Ok m
       /\ get_reduced_loads [deform_1_5] load_5_dangling false false true []
          = (log', Ok r)
       /\ (forall k loads,
              m !! k = Some loads ->
              LOAD_recording m false load_5_dangling k = [] ->
              r !! k = Some [(1%float, loads)])
       /\ (forall k row,
              last (LOAD_recording m false load_5_dangling k) = Some row ->
              r !! k = Some (LOAD_recorded m false load_5_dangling row))
       /\ (forall k,
              m !! k = None ->
              LOAD_recording m false load_5_dangling k = [] ->
              r !! k = None)
       /\ (forall c k,
              c ∈ [deform_1_5] -> Load_concrete c -> k ∈ Load.load_id c ->
              is_Some (m !! k)).
Proof.
  split; [repeat constructor|].
  split.
  - apply (unreferenced_loads_get_unit_scale [deform_1_5] LOAD.init
             false false true []); [repeat constructor|reflexivity].
  - apply (unreferenced_loads_get_unit_scale [deform_1_5] load_5_dangling
             false false true []); [repeat constructor|simpl; lia].
Defined.

(** The row [LOAD, 5, 2.0, 3.0, 7] records nothing, its only member
    naming no load: the concrete loads 1 and 5 both keep their unit-scale
    entry, although 5 is the id of a LOAD row.  The row [LOAD, 5, 2.0,
    3.0, 1] records load 1 under the key 5. *)
Example load_5_dangling_reduced :
  (r ← (get_reduced_loads [deform_1_5] load_5_dangling false false true []).2;
   Ok (r !! 1%Z, r !! 5%Z, r !! 7%Z))
  = Ok (Some [(1%float, [deform_1])], Some [(1%float, [deform_5])], None)
  /\ (r ← (get_reduced_loads [deform_1_5] load_5 false false true []).2;
      Ok (r !! 1%Z, r !! 5%Z))
     = Ok (Some [(1%float, [deform_1])], Some [(9%float, [deform_1])]).
Proof. split; vm_compute; reflexivity. Qed.

(** C9 (counterexample): with an empty LOAD table the early return hands
    back the empty mapping although load 1 is in the concrete-load map;
    and with [LOAD, 5, 2.0, 3.0, 1] the concrete load 5, which no LOAD row
    references, finds its key taken by the aggregate row 5. *)
Lemma unreferenced_load_not_kept :
  ~ unreferenced_kept [deform_1_5] LOAD.init
  /\ ~ unreferenced_kept [deform_1_5] load_5.
Proof.
  split; intros H.
  - pose proof (H _ _ _ ltac:(vm_compute; reflexivity)
                  ltac:(vm_compute; reflexivity)
                  1%Z [deform_1] ltac:(vm_compute; reflexivity)) as C.
    simpl in C. specialize (C ltac:(apply not_elem_of_nil)).
    vm_compute in C. discriminate C.
  - pose proof (H _ _ _ ltac:(vm_compute; reflexivity)
                  ltac:(vm_compute; reflexivity)
                  5%Z [deform_5] ltac:(vm_compute; reflexivity)) as C.
    simpl in C.
    specialize (C ltac:(intros ?%list_elem_of_singleton; discriminate)).
    vm_compute in C. discriminate C.
Qed.

(** ** The [stop_on_failure] flag *)

Example spcadd_dangling_parsed :
  ADD.parse_cards (ADD.add ADD.init 100 (inr [1; 3]%Z) ""%string)
  = Ok spcadd_dangling.
Proof. reflexivity. Qed.

Example spcs_by_spc_id_1_2 :
  (m ← SPCADD.get_spcs_by_spc_id [SPC_table spc_1; SPC1_table spc1_2];
   Ok (m !! 1%Z, m !! 2%Z, m !! 3%Z))
  = Ok (Some [SPC_table spc_1], Some [SPC1_table spc1_2], None).
Proof. vm_compute. reflexivity. Qed.

(** C6: both reduction routines overwrite the caller's [stop_on_failure]
    with [True] on entry, so the flag decides nothing; and a reference that
    resolves to nothing never reaches the guarded [raise].  In
    [get_reduced_loads] the unresolved id 7 falls into the last branch,
    which logs a warning and goes on, also under [stop_on_failure=True]:
    the call returns the partial result.  In [get_reduced_spcs] the
    unresolved id 3 is looked up in a plain [dict] and the call dies with
    [KeyError], nothing logged, also under [stop_on_failure=False]. *)
Theorem stop_on_failure_decides_nothing :
  (forall load_cards load rm fz sof log,
      get_reduced_loads load_cards load rm fz sof log
      = get_reduced_loads load_cards load rm fz (negb sof) log)
  /\ (forall spc_cards self sof log,
         SPCADD.get_reduced_spcs spc_cards self sof log
         = SPCADD.get_reduced_spcs spc_cards self (negb sof) log)
  /\ (let out := get_reduced_loads [deform_1_5] load_dangling
                   false false true [] in
      out.1 = [(WARNING, CannotFindLoad 7)]
      /\ (r ← out.2; Ok (r !! 100%Z, r !! 1%Z, r !! 5%Z))
         = Ok (None, Some [(1%float, [deform_1])],
               Some [(1%float, [deform_5])]))
  /\ SPCADD.get_reduced_spcs [SPC_table spc_1; SPC1_table spc1_2]
       spcadd_dangling false []
     = ([], Raise (KeyError 3)).
Proof.
  split; [reflexivity|].
  split; [reflexivity|].
  split; [split; vm_compute; reflexivity|].
  vm_compute. reflexivity.
Qed.

(** ** Row counting in [add_card] *)

Lemma DEFORM_add_card_counts (t t' : Load.table) card comment :
  DEFORM.add_card t card comment = Ok t' ->
  exists rows,
    Load.cards t' = Load.cards t ++ rows
    /\ Load.n t' = Load.n t + length rows
    /\ 1 <= length rows <= 3.
Proof.
  unfold DEFORM.add_card.
  destruct (integer card 1) as [sid|]; simpl; [|discriminate].
  destruct (integer card 2) as [eid|]; simpl; [|discriminate].
  destruct (double card 3) as [d|]; simpl; [|discriminate].
  destruct (field_truthy (card_field card 4)); simpl.
  - destruct (integer card 4) as [eid2|]; simpl; [|discriminate].
    destruct (double card 5) as [d2|]; simpl; [|discriminate].
    destruct (field_truthy (card_field card 6)); simpl.
    + destruct (integer card 6) as [eid3|]; simpl; [|discriminate].
      destruct (double card 7) as [d3|]; simpl; [|discriminate].
      intros [= <-]. simpl. eexists [_; _; _].
      rewrite <- ?app_assoc. simpl. split; [reflexivity|]. simpl. lia.
    + intros [= <-]. simpl. eexists [_; _].
      rewrite <- ?app_assoc. simpl. split; [reflexivity|]. simpl. lia.
  - destruct (field_truthy (card_field card 6)); simpl.
    + destruct (integer card 6) as [eid3|]; simpl; [|discriminate].
      destruct (double card 7) as [d3|]; simpl; [|discriminate].
      intros [= <-]. simpl. eexists [_; _].
      rewrite <- ?app_assoc. simpl. split; [reflexivity|]. simpl. lia.
    + intros [= <-]. simpl. eexists [_]. split; [reflexivity|]. simpl. lia.
Qed.

Lemma PLOTEL_add_card_counts (t t' : PLOTEL.table) card comment :
  PLOTEL.add_card t card comment = Ok t' ->
  exists rows,
    PLOTEL.cards t' = PLOTEL.cards t ++ rows
    /\ PLOTEL.n t' = S (PLOTEL.n t + length rows)
    /\ 1 <= length rows <= 2.
Proof.
  unfold PLOTEL.add_card.
  destruct (integer card 1) as [eid|]; simpl; [|discriminate].
  destruct (integer card 2) as [g1|]; simpl; [|discriminate].
  destruct (integer card 3) as [g2|]; simpl; [|discriminate].
  destruct (field_truthy (card_field card 5)); simpl.
  - destruct (integer card 5) as [eid2|]; simpl; [|discriminate].
    destruct (integer card 6) as [g3|]; simpl; [|discriminate].
    destruct (integer card 7) as [g4|]; simpl; [|discriminate].
    destruct (py_assert _); simpl; [|discriminate].
    intros [= <-]. simpl. eexists [_; _].
    rewrite <- ?app_assoc. simpl. split; [reflexivity|]. simpl. lia.
  - destruct (py_assert _); simpl; [|discriminate].
    intros [= <-]. simpl. eexists [_]. split; [reflexivity|]. simpl. lia.
Qed.

Example plotel_two_groups_staged :
  (t ← PLOTEL.add_card PLOTEL.init plotel_two_groups ""%string;
   Ok (PLOTEL.cards t))
  = Ok [(3101%Z, [3101; 3102]%Z, ""%string);
        (3102%Z, [3102; 3103]%Z, ""%string)].
Proof. vm_compute. reflexivity. Qed.

(** C5: a DEFORM line with two element/value pairs stages two rows and
    raises [n] by two, as claimed.  A PLOTEL line does not: the trailing
    [self.n += 1] of [PLOTEL.add_card] comes on top of the one counted per
    staged row, so a line with one group stages one row and leaves
    [n = 2], a line with two groups stages two rows and leaves [n = 3]. *)
Theorem PLOTEL_add_card_counts_one_too_many :
  (t ← DEFORM.add_card DEFORM.init deform_two_pairs ""%string;
   Ok (length (Load.cards t), Load.n t)) = Ok (2, 2)
  /\ (t ← PLOTEL.add_card PLOTEL.init plotel_one_group ""%string;
      Ok (length (PLOTEL.cards t), PLOTEL.n t)) = Ok (1, 2)
  /\ (t ← PLOTEL.add_card PLOTEL.init plotel_two_groups ""%string;
      Ok (length (PLOTEL.cards t), PLOTEL.n t)) = Ok (2, 3).
Proof. repeat split; vm_compute; reflexivity. Qed.

(** ** Field width of MPCADD *)

Lemma write_rows_width print_card t :
  Forall (fun l => field_width l = print_card) (MPCADD.write_rows print_card t).
Proof.
  unfold MPCADD.write_rows.
  induction (zip (MPCADD.mpc_id t) (ADD.idim t)) as [|[sid [i0 i1]] l IH];
    simpl; constructor; auto.
Qed.

(** What [MPCADD.write_file] does with [size=8]: every card of a table
    with ids goes to the 8-character printer when the largest id is below
    99,999,999 and to the 16-character printer otherwise. *)
Lemma MPCADD_write_file_width (t : ADD.table) a b :
  np_max (MPCADD.mpc_id t) = Ok a ->
  np_max (MPCADD.mpc_ids t) = Ok b ->
  exists lines,
    MPCADD.write_file t 8 = Ok lines
    /\ length lines = length (zip (MPCADD.mpc_id t) (ADD.idim t))
    /\ Forall (fun l => field_width l
                        = if (Z.max a b <? 99999999)%Z then 8 else 16) lines.
Proof.
  intros Ha Hb. unfold MPCADD.write_file.
  destruct (MPCADD.mpc_id t) as [|x l] eqn:E; [discriminate|].
  simpl length. simpl Nat.eqb. cbv iota.
  unfold MPCADD.is_small_field. rewrite E, Ha, Hb. simpl.
  eexists. split; [reflexivity|]. split.
  - unfold MPCADD.write_rows. rewrite length_map, E. reflexivity.
  - destruct (Z.max a b <? 99999999)%Z; apply write_rows_width.
Qed.

(** C7: the table of [MPCADD, 100000000, 1] is written with the
    16-character printer and the table of [MPCADD, 99999998, 1] with the
    8-character one, as claimed.  The table of [MPCADD, 99999999, 1] holds
    only ids that fit an 8-character field, and [write_file(size=8)]
    still promotes it to the 16-character printer: [is_small_field]
    compares with [< 99_999_999], which leaves the largest 8-digit id
    out. *)
Theorem MPCADD_promotes_an_id_that_fits :
  MPCADD.write_file mpcadd_100000000 8
  = Ok [{| field_width := 16;
           list_fields := [OStr "MPCADD"; OInt 100000000; OInt 1] |}]
  /\ MPCADD.write_file mpcadd_99999998 8
     = Ok [{| field_width := 8;
              list_fields := [OStr "MPCADD"; OInt 99999998; OInt 1] |}]
  /\ forallb fits_small_field
       (MPCADD.mpc_id mpcadd_99999999 ++ MPCADD.mpc_ids mpcadd_99999999)
     = true
  /\ MPCADD.write_file mpcadd_99999999 8
     = Ok [{| field_width := 16;
              list_fields := [OStr "MPCADD"; OInt 99999999; OInt 1] |}].
Proof. repeat split; vm_compute; reflexivity. Qed.

(** ** The unique-and-sort step of [ADD.add_card] *)

Lemma py_slice_full {A} (l : list A) : py_slice l 0 (length l) = l.
Proof.
  unfold py_slice. rewrite drop_0, Nat.sub_0_r. apply firstn_all.
Qed.

Lemma np_min_nat_single (x : nat) : np_min_nat [x] = Ok x.
Proof. reflexivity. Qed.

(** The first test of a conjunction of [int32] range tests. *)
Ltac first_fits :=
  match goal with
  | |- context [forallb fits_int32 ?x && _] =>
      destruct (forallb fits_int32 x); [|done];
      cbn [andb mbind result_bind]
  end.

Lemma np_int32_fits (zs : list Z) :
  forallb fits_int32 zs = true -> np_int32 zs = Ok zs.
Proof. unfold np_int32. by intros ->. Qed.

Lemma np_int32_overflow (zs : list Z) :
  forallb fits_int32 zs = false -> np_int32 zs = Raise OverflowError.
Proof. unfold np_int32. by intros ->. Qed.

Lemma int32_store_fits (z : Z) : fits_int32 z = true -> int32_store z = Ok z.
Proof. unfold int32_store. by intros ->. Qed.

Lemma int32_array_integers (zs : list Z) :
  forallb fits_int32 zs = true -> int32_array (map FInt zs) = Ok zs.
Proof.
  induction zs as [|z zs IH]; [done|].
  cbn [forallb map int32_array int32_item].
  intros [Hz Hzs]%andb_true_iff.
  by rewrite (int32_store_fits _ Hz), (IH Hzs).
Qed.

(** The table a first [parse_cards] makes of one staged ADD card whose
    ids fit [int32]. *)
Lemma ADD_parse_single (sid0 : Z) (sets : list Z) (comment : string) :
  sets <> [] ->
  fits_int32 sid0 = true -> forallb fits_int32 sets = true ->
  ADD.parse_cards (ADD.stage ADD.init (sid0, map FInt sets, comment))
  = Ok {| ADD.cards := []; ADD.n := 1; ADD.sid := [sid0];
          ADD.sids := sets; ADD.nsids := [length sets] |}.
Proof.
  intros Hne Hsid Hsets.
  unfold ADD.parse_cards, parse_cards_check, ADD.stage.
  cbn [ADD.cards app ADD.parse_loop length ADD.init].
  rewrite (int32_store_fits _ Hsid).
  destruct sets as [|x sets]; [done|].
  cbn [py_assert Nat.ltb Nat.leb length map mbind result_bind].
  rewrite app_nil_r.
  change (FInt x :: map FInt sets) with (map FInt (x :: sets)).
  rewrite (int32_array_integers _ Hsets), length_map. reflexivity.
Qed.

(** On a card whose member fields are integer values, [add_card] stages
    the sorted distinct member ids: the staged list is strictly increasing
    and has exactly the ids of the card as elements, whatever their order
    and multiplicity; when the ids fit [int32], a first [parse_cards]
    stores that list as row 0 and
    [write_file] of SPCADD and of MPCADD writes it after the card name and
    the set id.  [add] stages a list argument as it is given. *)
Lemma ADD_add_card_integer_fields
    (t : ADD.table) (card : BDFCard) (comment : string)
    (sid0 : Z) (fields2 : list Z) :
  integer card 1 = Ok sid0 ->
  all_integers (card_fields card 2) = Some fields2 ->
  fields2 <> [] ->
  fits_int32 sid0 = true -> forallb fits_int32 fields2 = true ->
  let sets := np_unique fields2 in
  ADD.add_card t card comment
  = Ok (ADD.stage t (sid0, map FInt sets, comment))
  /\ StronglySorted Z.lt sets
  /\ (forall x, x ∈ sets <-> x ∈ fields2)
  /\ (exists t',
        (t1 ← ADD.add_card ADD.init card comment; ADD.parse_cards t1) = Ok t'
        /\ ADD.sids t' = sets
        /\ ADD.row_sids t' 0 = Some sets
        /\ SPCADD.write_file t' 8
           = Ok [{| field_width := 8;
                    list_fields :=
                      [OStr "SPCADD"; OInt sid0] ++ map OInt sets |}]
        /\ exists w,
             MPCADD.write_file t' 8
             = Ok [{| field_width := w;
                      list_fields :=
                        [OStr "MPCADD"; OInt sid0] ++ map OInt sets |}])
  /\ (forall members,
         ADD.add t sid0 (inr members) comment
         = ADD.stage t (sid0, map FInt members, comment)).
Proof.
  intros Hsid Hfields Hne Hfit Hfits sets.
  assert (sets <> []) as Hsets by (by apply np_unique_nonempty).
  assert (forallb fits_int32 sets = true) as Hfits'.
  { apply forallb_forall. intros x Hx.
    apply (proj1 (forallb_forall _ _) Hfits).
    apply list_elem_of_In, elem_of_np_unique, list_elem_of_In, Hx. }
  assert (forall t0, ADD.add_card t0 card comment
                     = Ok (ADD.stage t0 (sid0, map FInt sets, comment)))
    as Hadd.
  { intros t0. unfold ADD.add_card, np_unique_fields.
    rewrite Hsid, Hfields. simpl.
    fold sets. destruct sets; [done|]. reflexivity. }
  split; [apply Hadd|].
  split; [apply np_unique_sorted|].
  split; [intros x; apply elem_of_np_unique|].
  split; [|reflexivity].
  eexists. rewrite Hadd. simpl.
  rewrite (ADD_parse_single _ _ _ Hsets Hfit Hfits').
  split; [reflexivity|]. split; [reflexivity|].
  split; [unfold ADD.row_sids, ADD.idim; simpl; by rewrite py_slice_full|].
  split.
  - unfold SPCADD.write_file, SPCADD.spc_id, ADD.idim. simpl.
    unfold SPCADD.spc_ids. simpl. rewrite py_slice_full.
    destruct sets as [|x sets']; [done|]. simpl. reflexivity.
  - unfold MPCADD.write_file, MPCADD.is_small_field,
      MPCADD.mpc_id, MPCADD.mpc_ids, MPCADD.write_rows, ADD.idim. simpl.
    destruct sets as [|x sets'] eqn:E; [done|]. simpl np_max. simpl.
    eexists. by rewrite firstn_all.
Qed.

(** C10: [add] stages the member list as it is given, and on a card of
    integer values [add_card] stages, stores and writes the members 9, 10
    in increasing order without the duplicate, as claimed.  On the card
    that the tokenizer makes of the line [SPCADD, 2, 9, 10, 9] the member
    fields are the texts '9', '10', '9': [np.unique] is applied to them
    before any conversion to integers and orders them as text, so the
    staged list is ['10', '9'] and the stored and written member ids are
    10, 9, which is not increasing. *)
Theorem ADD_add_card_orders_text_fields_as_text :
  ADD.add ADD.init 2 (inr [9; 10; 9]%Z) ""%string
  = ADD.stage ADD.init (2%Z, [FInt 9; FInt 10; FInt 9], ""%string)
  /\ (t ← ADD.add_card ADD.init spcadd_typed_line ""%string;
      t ← ADD.parse_cards t;
      Ok (ADD.sids t, ADD.row_sids t 0))
     = Ok ([9; 10]%Z, Some [9; 10]%Z)
  /\ ADD.add_card ADD.init spcadd_text_line ""%string
     = Ok (ADD.stage ADD.init (2%Z, [FStr "10"; FStr "9"], ""%string))
  /\ (t ← ADD.add_card ADD.init spcadd_text_line ""%string;
      t ← ADD.parse_cards t;
      Ok (ADD.sids t, ADD.row_sids t 0))
     = Ok ([10; 9]%Z, Some [10; 9]%Z)
  /\ (t ← ADD.add_card ADD.init spcadd_text_line ""%string;
      t ← ADD.parse_cards t;
      SPCADD.write_file t 8)
     = Ok [{| field_width := 8;
              list_fields := [OStr "SPCADD"; OInt 2; OInt 10; OInt 9] |}]
  /\ ~ StronglySorted Z.lt [10; 9]%Z.
Proof.
  split; [reflexivity|].
  split; [vm_compute; reflexivity|].
  split; [vm_compute; reflexivity|].
  split; [vm_compute; reflexivity|].
  split; [vm_compute; reflexivity|].
  intros H. apply StronglySorted_inv in H as [_ H].
  apply Forall_inv in H. lia.
Qed.

(** ** The ragged offset/count pattern *)

Lemma idim_from_lookup (counts : list nat) (offset k i0 i1 : nat) :
  idim_from offset counts !! k = Some (i0, i1) ->
  exists c, counts !! k = Some c /\ i1 = i0 + c
            /\ i1 <= offset + sum_nat counts.
Proof.
  revert offset k. induction counts as [|c counts IH]; intros offset k; simpl.
  - rewrite lookup_nil. discriminate.
  - destruct k as [|k]; simpl.
    + intros [= <- <-]. exists c. unfold sum_nat; simpl.
      repeat split; lia.
    + intros H. destruct (IH _ _ H) as (c' & Hc & -> & Hle).
      exists c'. repeat split; [done|]. unfold sum_nat in *; simpl. lia.
Qed.

Lemma make_idim_lookup (n : nat) (counts : list nat) (k i0 i1 : nat) :
  make_idim n counts !! k = Some (i0, i1) ->
  exists c, counts !! k = Some c /\ i1 = i0 + c /\ i1 <= sum_nat counts.
Proof.
  unfold make_idim. intros H.
  apply lookup_take_Some in H as [H _].
  destruct (idim_from_lookup _ _ _ _ _ H) as (c & ? & ? & ?). eauto.
Qed.

Lemma idim_from_length (counts : list nat) (offset : nat) :
  length (idim_from offset counts) = length counts.
Proof.
  revert offset. induction counts as [|c counts IH]; intros offset; simpl;
    [reflexivity|]. by rewrite IH.
Qed.

Lemma py_slice_length {A} (l : list A) (i0 c : nat) :
  i0 + c <= length l -> length (py_slice l i0 (i0 + c)) = c.
Proof.
  intros H. unfold py_slice. rewrite length_take, length_drop. lia.
Qed.

(** Re-slicing keeps counts and flat array in step: the pieces selected by
    [i] are as long as the counts selected by [i] say. *)
Lemma hslice_by_idim_length {A} (n : nat) (counts : list nat) (flat : list A)
    (i : list nat) (r : list A) (cs : list nat) :
  sum_nat counts = length flat ->
  hslice_by_idim i (make_idim n counts) flat = Ok r ->
  np_index counts i = Ok cs ->
  sum_nat cs = length r.
Proof.
  intros Hsum. revert r cs. induction i as [|k i IH]; intros r cs; simpl.
  - intros [= <-] [= <-]. reflexivity.
  - destruct (make_idim n counts !! k) as [[i0 i1]|] eqn:Ek; [|discriminate].
    destruct (hslice_by_idim i _ flat) as [rest|] eqn:Er; simpl; [|discriminate].
    intros [= <-].
    destruct (make_idim_lookup _ _ _ _ _ Ek) as (c & Hc & -> & Hle).
    rewrite Hc. destruct (np_index counts i) as [cs'|] eqn:Ec; simpl;
      [|discriminate].
    intros [= <-]. rewrite length_app, py_slice_length by lia.
    unfold sum_nat in *. simpl. f_equal. by apply IH.
Qed.

Lemma hslice_by_idim_total {A} (n : nat) (counts : list nat) (flat : list A)
    (i : list nat) :
  Forall (fun k => k < n /\ k < length counts) i ->
  exists r, hslice_by_idim i (make_idim n counts) flat = Ok r.
Proof.
  induction 1 as [|k i [Hk1 Hk2] _ [r IH]]; simpl; [eauto|].
  assert (k < length (make_idim n counts)) as Hlt.
  { unfold make_idim. rewrite length_take, idim_from_length. lia. }
  destruct (lookup_lt_is_Some_2 _ _ Hlt) as [[i0 i1] ->].
  rewrite IH. simpl. eauto.
Qed.

Lemma sum_nat_flat_map {A B} (f : A -> list B) (l : list A) :
  sum_nat (map (fun x => length (f x)) l) = length (flat_map f l).
Proof.
  unfold sum_nat. induction l as [|x l IH]; simpl; [reflexivity|].
  rewrite length_app, IH. reflexivity.
Qed.

(** *** SPC1 *)

Lemma SPC1_parse_cards_ragged (t : SPC1.table) :
  SPC1_ragged t -> SPC1_fits (SPC1.cards t) = true ->
  exists t', SPC1.parse_cards t = Ok t' /\ SPC1_ragged t'.
Proof.
  intros Ht [Hf1 Hf2]%andb_true_iff. unfold SPC1.parse_cards, parse_cards_check.
  destruct (SPC1.cards t) as [|c cs] eqn:E; [eauto|].
  rewrite (np_int32_fits _ Hf1), (np_int32_fits _ Hf2).
  eexists. split; [reflexivity|].
  unfold SPC1_ragged. cbn [SPC1.clear_cards SPC1._save SPC1.nnodes SPC1.node_id].
  rewrite <- (sum_nat_flat_map
                (fun c : SPC1.card => let '(_, _, nodesi, _) := c in nodesi)).
  f_equal. apply map_ext. by intros [[[? ?] ?] ?].
Qed.

Lemma SPC1_slice_ragged (self t' : SPC1.table) (i : list nat) :
  SPC1_ragged self ->
  SPC1.slice_card_by_index self i = Ok t' ->
  SPC1_ragged t' /\ SPC1.n t' = length i.
Proof.
  intros Hs. unfold SPC1.slice_card_by_index, SPC1.__apply_slice__.
  destruct (np_index (SPC1.spc_id self) i); simpl; [|discriminate].
  destruct (np_index (SPC1.components self) i); simpl; [|discriminate].
  destruct (np_index (SPC1.nnodes self) i) as [cs|] eqn:Ec; simpl; [|discriminate].
  destruct (hslice_by_idim i _ _) as [r|] eqn:Er; simpl; [|discriminate].
  intros [= <-]. split; [|reflexivity].
  unfold SPC1_ragged. simpl.
  eapply hslice_by_idim_length; eauto.
Qed.

Lemma SPC1_slice_total (self : SPC1.table) (i : list nat) :
  length (SPC1.spc_id self) = SPC1.n self ->
  length (SPC1.components self) = SPC1.n self ->
  length (SPC1.nnodes self) = SPC1.n self ->
  Forall (fun k => k < SPC1.n self) i ->
  exists t', SPC1.slice_card_by_index self i = Ok t'.
Proof.
  intros H1 H2 H3 Hi. unfold SPC1.slice_card_by_index, SPC1.__apply_slice__.
  destruct (np_index_total (SPC1.spc_id self) i) as [a ->];
    [by rewrite H1|].
  destruct (np_index_total (SPC1.components self) i) as [b ->];
    [by rewrite H2|].
  destruct (np_index_total (SPC1.nnodes self) i) as [c ->];
    [by rewrite H3|].
  destruct (hslice_by_idim_total (SPC1.n self) (SPC1.nnodes self)
              (SPC1.node_id self) i) as [d Hd].
  { eapply Forall_impl; [exact Hi|]. simpl. intros k Hk. rewrite H3. lia. }
  simpl. unfold SPC1.inode. rewrite Hd. simpl. eauto.
Qed.

(** *** LOAD *)

Lemma LOAD_add_staged t sid scale sfs lids comment t' :
  LOAD_staged t -> LOAD.add t sid scale sfs lids comment = Ok t' ->
  LOAD_staged t'.
Proof.
  unfold LOAD.add, LOAD_staged. intros Ht.
  destruct (length sfs =? length lids) eqn:E; simpl; [|discriminate].
  intros [= <-]. simpl. apply Forall_app. split; [exact Ht|].
  constructor; [|constructor]. by apply Nat.eqb_eq.
Qed.

Lemma read_pairs_lengths card count iload sfs lids :
  LOAD.read_pairs card count iload = Ok (sfs, lids) ->
  length sfs = length lids.
Proof.
  revert iload sfs lids. induction count as [|count IH]; intros iload sfs lids;
    simpl.
  - intros [= <- <-]. reflexivity.
  - destruct (double card _); simpl; [|discriminate].
    destruct (integer card _); simpl; [|discriminate].
    destruct (LOAD.read_pairs card count (S iload)) as [[s l]|] eqn:E; simpl;
      [|discriminate].
    intros [= <- <-]. simpl. f_equal. eapply IH, E.
Qed.

Lemma LOAD_add_card_staged t card comment t' :
  LOAD_staged t -> LOAD.add_card t card comment = Ok t' -> LOAD_staged t'.
Proof.
  unfold LOAD.add_card, LOAD_staged. intros Ht.
  destruct (integer card 1); simpl; [|discriminate].
  destruct (double card 2); simpl; [|discriminate].
  destruct (py_assert (_ =? 0)%Z); simpl; [|discriminate].
  destruct (LOAD.read_pairs card _ 0) as [[sfs lids]|] eqn:E; simpl;
    [|discriminate].
  destruct (py_assert _); simpl; [|discriminate].
  intros [= <-]. simpl. apply Forall_app. split; [exact Ht|].
  constructor; [|constructor]. eapply read_pairs_lengths, E.
Qed.

Lemma LOAD_staged_sums (l : list LOAD.card) :
  Forall (fun c : LOAD.card =>
            let '(_, _, scale_factors, load_ids, _) := c in
            length scale_factors = length load_ids) l ->
  sum_nat (map (fun '(_, _, sfs, _, _) => length sfs) l)
  = length (flat_map (fun '(_, _, _, lids, _) => lids) l)
  /\ sum_nat (map (fun '(_, _, sfs, _, _) => length sfs) l)
     = length (flat_map (fun '(_, _, sfs, _, _) => sfs) l).
Proof.
  induction 1 as [|[[[[sid sc] sfs] lids] cm] l' Hc _ [IH1 IH2]];
    [by split|].
  unfold sum_nat in *. simpl. rewrite !length_app. split; lia.
Qed.

Lemma LOAD_parse_cards_ragged (t : LOAD.table) :
  LOAD_staged t -> LOAD_ragged t -> LOAD_fits (LOAD.cards t) = true ->
  exists t', LOAD.parse_cards t = Ok t' /\ LOAD_ragged t'
             /\ LOAD.cards t' = [].
Proof.
  intros Hst [Hr1 Hr2] [Hf1 Hf2]%andb_true_iff.
  unfold LOAD.parse_cards, parse_cards_check.
  destruct (LOAD.cards t) as [|c cs] eqn:E.
  { exists t. by repeat split. }
  unfold LOAD_staged in Hst. rewrite E in Hst.
  destruct (LOAD_staged_sums _ Hst) as [Ha Hb].
  remember (c :: cs) as l eqn:El.
  assert (py_assert (0 <? length l) = Ok tt) as -> by (by subst l).
  rewrite (np_int32_fits _ Hf1), (np_int32_fits _ Hf2).
  simpl. eexists. split; [reflexivity|]. split; [|reflexivity].
  unfold LOAD._save, LOAD_ragged.
  destruct (negb _); simpl; rewrite ?sum_nat_app, ?length_app; split; lia.
Qed.

Lemma LOAD_slice_ragged (self t' : LOAD.table) (i : list nat) :
  LOAD_ragged self ->
  LOAD.slice_card_by_index self i = Ok t' ->
  LOAD_ragged t' /\ LOAD.n t' = length i.
Proof.
  intros [Hs1 Hs2]. unfold LOAD.slice_card_by_index, LOAD.__apply_slice__.
  destruct (np_index (LOAD.load_id self) i); simpl; [|discriminate].
  destruct (np_index (LOAD.scale self) i); simpl; [|discriminate].
  destruct (hslice_by_idim i _ (LOAD.load_ids self)) as [r1|] eqn:Er1; simpl;
    [|discriminate].
  destruct (hslice_by_idim i _ (LOAD.scale_factors self)) as [r2|] eqn:Er2;
    simpl; [|discriminate].
  destruct (np_index (LOAD.nloads self) i) as [cs|] eqn:Ec; simpl;
    [|discriminate].
  intros [= <-]. split; [|reflexivity].
  unfold LOAD_ragged. simpl. split; eapply hslice_by_idim_length; eauto.
Qed.

Lemma LOAD_slice_total (self : LOAD.table) (i : list nat) :
  length (LOAD.load_id self) = LOAD.n self ->
  length (LOAD.scale self) = LOAD.n self ->
  length (LOAD.nloads self) = LOAD.n self ->
  Forall (fun k => k < LOAD.n self) i ->
  exists t', LOAD.slice_card_by_index self i = Ok t'.
Proof.
  intros H1 H2 H3 Hi. unfold LOAD.slice_card_by_index, LOAD.__apply_slice__.
  destruct (np_index_total (LOAD.load_id self) i) as [a ->];
    [by rewrite H1|].
  destruct (np_index_total (LOAD.scale self) i) as [b ->];
    [by rewrite H2|].
  assert (Forall (fun k => k < LOAD.n self /\ k < length (LOAD.nloads self)) i)
    as Hi2.
  { eapply Forall_impl; [exact Hi|]. simpl. intros k Hk. rewrite H3. lia. }
  destruct (hslice_by_idim_total (LOAD.n self) (LOAD.nloads self)
              (LOAD.load_ids self) i Hi2) as [c Hc].
  destruct (hslice_by_idim_total (LOAD.n self) (LOAD.nloads self)
              (LOAD.scale_factors self) i Hi2) as [d Hd].
  destruct (np_index_total (LOAD.nloads self) i) as [e He];
    [by rewrite H3|].
  simpl. unfold LOAD.iload. rewrite Hc. simpl. rewrite Hd. simpl.
  rewrite He. simpl. eauto.
Qed.

(** *** SET1 *)

Lemma sum_nat_perm (l1 l2 : list nat) :
  Permutation l1 l2 -> sum_nat l1 = sum_nat l2.
Proof.
  unfold sum_nat. induction 1; simpl; lia.
Qed.

Lemma insert_index_perm (a : list Z) (k : nat) (l : list nat) :
  Permutation (insert_index a k l) (k :: l).
Proof.
  induction l as [|j l IH]; simpl; [done|].
  destruct (_ <=? _)%Z; [done|].
  rewrite IH. apply perm_swap.
Qed.

Lemma np_argsort_perm (a : list Z) :
  Permutation (np_argsort a) (seq 0 (length a)).
Proof.
  unfold np_argsort. induction (seq 0 (length a)) as [|k l IH]; simpl; [done|].
  rewrite insert_index_perm. by constructor.
Qed.

Lemma np_index_map {A} (d : A) (a : list A) (i : list nat) (r : list A) :
  np_index a i = Ok r -> r = map (fun k => default d (a !! k)) i.
Proof.
  revert r. induction i as [|k i IH]; intros r; simpl.
  - by intros [= <-].
  - destruct (a !! k) as [x|]; [|discriminate].
    destruct (np_index a i) as [xs|]; simpl; [|discriminate].
    intros [= <-]. simpl. f_equal. by apply IH.
Qed.

Lemma map_lookup_seq {A} (d : A) (a : list A) :
  map (fun k => default d (a !! k)) (seq 0 (length a)) = a.
Proof.
  induction a as [|x a IH] using rev_ind; [done|].
  rewrite length_app. simpl. rewrite Nat.add_1_r, seq_S, map_app. simpl.
  rewrite lookup_app_r, Nat.sub_diag by lia. simpl. f_equal.
  etrans; [|exact IH]. apply map_ext_in. intros k Hk.
  apply in_seq in Hk. by rewrite lookup_app_l by lia.
Qed.

(** Indexing a column with a permutation of its positions permutes it. *)
Lemma np_index_perm {A} (a : list A) (i : list nat) (r : list A) :
  Permutation i (seq 0 (length a)) -> np_index a i = Ok r -> Permutation r a.
Proof.
  intros Hp Hr. destruct a as [|d a'] eqn:Ea.
  - simpl in Hp. apply Permutation_nil_r in Hp. subst i. simpl in Hr.
    by injection Hr as <-.
  - rewrite <- Ea in *. rewrite (np_index_map d _ _ _ Hr).
    eapply Permutation_trans; [apply Permutation_map, Hp|].
    by rewrite map_lookup_seq.
Qed.

(** [sort] never touches the flat array [ids]: the effective
    [__apply_slice__] stores the re-sliced values under [dims]. *)
Lemma SET1_sort_ids_unchanged (t t' : SET1.table) :
  SET1.sort t = Ok t' -> SET1.ids t' = SET1.ids t.
Proof.
  unfold SET1.sort. case_bool_decide; [by intros [= <-]|].
  unfold SET1.__apply_slice__.
  destruct (py_assert _); simpl; [|discriminate].
  destruct (np_index (SET1.set_id t) _); simpl; [|discriminate].
  destruct (np_index (SET1.is_skin t) _); simpl; [|discriminate].
  destruct (hslice_by_idim _ _ _); simpl; [|discriminate].
  destruct (np_index (SET1.num_ids t) _); simpl; [|discriminate].
  by intros [= <-].
Qed.

(** After [sort] the counts still add up to the length of [ids], the
    counts being permuted and [ids] left alone. *)
Lemma SET1_sort_ragged (t t' : SET1.table) :
  length (SET1.num_ids t) = length (SET1.set_id t) ->
  SET1_ragged t -> SET1.sort t = Ok t' -> SET1_ragged t'.
Proof.
  intros Hlen Ht Hs. unfold SET1_ragged.
  rewrite (SET1_sort_ids_unchanged _ _ Hs). rewrite <- Ht. revert Hs.
  unfold SET1.sort. case_bool_decide; [by intros [= <-]|].
  unfold SET1.__apply_slice__.
  destruct (py_assert _); simpl; [|discriminate].
  destruct (np_index (SET1.set_id t) _); simpl; [|discriminate].
  destruct (np_index (SET1.is_skin t) _); simpl; [|discriminate].
  destruct (hslice_by_idim _ _ _); simpl; [|discriminate].
  destruct (np_index (SET1.num_ids t) _) as [cs|] eqn:Ec; simpl; [|discriminate].
  intros [= <-]. simpl. apply sum_nat_perm.
  eapply np_index_perm; [|exact Ec]. rewrite Hlen. apply np_argsort_perm.
Qed.

(** [sort] returns on a table whose parallel columns have [n] entries and
    whose counts add up. *)
Lemma SET1_sort_total (t : SET1.table) :
  length (SET1.set_id t) = SET1.n t ->
  length (SET1.is_skin t) = SET1.n t ->
  length (SET1.num_ids t) = SET1.n t ->
  SET1_ragged t ->
  exists t', SET1.sort t = Ok t'.
Proof.
  intros H1 H2 H3 Hr. unfold SET1.sort. case_bool_decide; [eauto|].
  assert (Forall (fun k => k < SET1.n t) (np_argsort (SET1.set_id t))) as Hi.
  { apply Forall_forall. intros k Hk.
    apply list_elem_of_In in Hk.
    eapply Permutation_in in Hk; [|apply np_argsort_perm].
    apply in_seq in Hk. lia. }
  assert (length (np_argsort (SET1.set_id t)) = SET1.n t) as Hl.
  { rewrite (Permutation_length (np_argsort_perm _)), length_seq. done. }
  unfold SET1.__apply_slice__.
  assert (py_assert (sum_nat (SET1.num_ids t) =? length (SET1.ids t)) = Ok tt)
    as -> by (unfold py_assert; by rewrite (proj2 (Nat.eqb_eq _ _) Hr)).
  simpl.
  destruct (np_index_total (SET1.set_id t) (np_argsort (SET1.set_id t)))
    as [a ->]; [by rewrite H1|]. simpl.
  destruct (np_index_total (SET1.is_skin t) (np_argsort (SET1.set_id t)))
    as [b ->]; [by rewrite H2|]. simpl.
  unfold SET1.inid. simpl. rewrite Hl.
  destruct (hslice_by_idim_total (SET1.n t) (SET1.num_ids t) (SET1.ids t)
              (np_argsort (SET1.set_id t))) as [c ->].
  { eapply Forall_impl; [exact Hi|]. simpl. intros k Hk. rewrite H3. lia. }
  simpl.
  destruct (np_index_total (SET1.num_ids t) (np_argsort (SET1.set_id t)))
    as [d ->]; [by rewrite H3|]. simpl. eauto.
Qed.

(** [parse_cards] of SET1 returns and leaves the counts adding up to the
    length of [ids]. *)
Lemma SET1_parse_cards_ragged expand_thru (t : SET1.table) :
  SET1_ragged t ->
  exists t', SET1.parse_cards expand_thru t = Ok t' /\ SET1_ragged t'.
Proof.
  intros Ht. unfold SET1.parse_cards, parse_cards_check.
  destruct (SET1.cards t) as [|c cs] eqn:E; [eauto|].
  remember (c :: cs) as l eqn:El.
  set (t1 := SET1._save t _ _ _ _).
  assert (SET1_ragged t1) as Hr1.
  { unfold SET1_ragged, t1. simpl.
    rewrite <- (sum_nat_flat_map
                  (fun c : SET1.card =>
                     let '(_, _, idsi, _) := c in expand_thru idsi)).
    f_equal. apply map_ext. by intros [[[? ?] ?] ?]. }
  destruct (SET1_sort_total t1) as [t2 Ht2];
    [unfold t1; simpl; by rewrite ?length_map..|exact Hr1|].
  rewrite Ht2. simpl. eexists. split; [reflexivity|].
  assert (SET1_ragged t2) as Hr2.
  { eapply SET1_sort_ragged; [|exact Hr1|exact Ht2].
    unfold t1; simpl; by rewrite !length_map. }
  exact Hr2.
Qed.

(** A slice of a SET1 table carries the selected counts and the empty
    [ids] of a fresh table, whatever rows are selected. *)
Lemma SET1_slice_ids_empty (self t' : SET1.table) (i : list nat) :
  SET1.slice_card_by_index self i = Ok t' ->
  SET1.ids t' = [] /\ np_index (SET1.num_ids self) i = Ok (SET1.num_ids t').
Proof.
  unfold SET1.slice_card_by_index, SET1.__apply_slice__.
  destruct (py_assert _); simpl; [|discriminate].
  destruct (np_index (SET1.set_id self) i); simpl; [|discriminate].
  destruct (np_index (SET1.is_skin self) i); simpl; [|discriminate].
  destruct (hslice_by_idim _ _ _); simpl; [|discriminate].
  destruct (np_index (SET1.num_ids self) i); simpl; [|discriminate].
  by intros [= <-].
Qed.

Example set1_parsed_from_cards :
  SET1.parse_cards ints_only
    (SET1.add (SET1.add SET1.init 1 [FInt 20] false ""%string)
              2 [FInt 10; FInt 11] false ""%string)
  = Ok set1_parsed.
Proof. vm_compute. reflexivity. Qed.

(** C2: [SET1, 2, 10, 11] and [SET1, 1, 20] are staged in this order.
    Before [sort] set 2 holds [10, 11] and set 1 holds [20].  [sort]
    reorders [set_id] and [num_ids] to [1, 2] and [1, 2], and stores the
    re-sliced values [20, 10, 11] under the attribute [dims]; the flat
    array [ids], which [inid] and [write_file] read, stays [10, 11, 20].
    After [sort] set 1 holds [10] and set 2 holds [11, 20]. *)
Theorem SET1_sort_leaves_ids_unpermuted :
  SET1.ids_of_set set1_unsorted 2 = Some [10; 11]%Z
  /\ SET1.ids_of_set set1_unsorted 1 = Some [20]%Z
  /\ SET1.sort set1_unsorted
     = Ok {| SET1.cards := []; SET1.n := 2; SET1.set_id := [1; 2]%Z;
             SET1.is_skin := [false; false]; SET1.ids := [10; 11; 20]%Z;
             SET1.num_ids := [1; 2]; SET1.dims := Some [20; 10; 11]%Z |}
  /\ (t ← SET1.sort set1_unsorted;
      Ok (SET1.ids_of_set t 1, SET1.ids_of_set t 2))
     = Ok (Some [10]%Z, Some [11; 20]%Z)
  /\ (t ← SET1.parse_cards ints_only
            (SET1.add (SET1.add SET1.init 2 [FInt 10; FInt 11] false ""%string)
                      1 [FInt 20] false ""%string);
      Ok (SET1.ids_of_set t 1, SET1.ids_of_set t 2))
     = Ok (Some [10]%Z, Some [11; 20]%Z).
Proof. repeat split; vm_compute; reflexivity. Qed.

(** C3: the SET1 table of [SET1, 1, 20] and [SET1, 2, 10, 11] satisfies
    the invariant, 1 + 2 = 3 ids.  Slicing it down to row 1 gives a table
    with [num_ids = [2]] whose flat array [ids] is the empty array of a
    fresh table, the re-sliced values [10, 11] being stored under [dims]:
    the counts sum to 2 and [ids] has length 0.  The SPC1 and LOAD slices
    of the same shape keep the invariant. *)
Theorem SET1_slice_loses_flat_array :
  sum_nat (SET1.num_ids set1_parsed) = length (SET1.ids set1_parsed)
  /\ SET1.slice_card_by_index set1_parsed [1]
     = Ok {| SET1.cards := []; SET1.n := 1; SET1.set_id := [2]%Z;
             SET1.is_skin := [false]; SET1.ids := [];
             SET1.num_ids := [2]; SET1.dims := Some [10; 11]%Z |}
  /\ (t ← SET1.slice_card_by_index set1_parsed [1];
      Ok (sum_nat (SET1.num_ids t), length (SET1.ids t))) = Ok (2, 0)
  /\ (t ← SPC1.slice_card_by_index spc1_2 [0];
      Ok (sum_nat (SPC1.nnodes t), length (SPC1.node_id t))) = Ok (3, 3)
  /\ (t ← LOAD.slice_card_by_index load_100 [0];
      Ok (sum_nat (LOAD.nloads t), length (LOAD.load_ids t),
          length (LOAD.scale_factors t))) = Ok (2, 2, 2).
Proof. repeat split; vm_compute; reflexivity. Qed.

(** ** Several [parse_cards] batches *)


Lemma lookup_map_Some {A B} (f : A -> B) (l : list A) (k : nat) (x : A) :
  l !! k = Some x -> map f l !! k = Some (f x).
Proof. intros H. by rewrite list_lookup_fmap, H. Qed.

(** *** MAT1 *)




Lemma MAT1_parse_cards_overflow (sort : MAT1.table -> result MAT1.table)
    (t : MAT1.table) :
  MAT1.cards t <> [] -> MAT1_fits (MAT1.cards t) = false ->
  MAT1.parse_cards sort t = Raise OverflowError.
Proof.
  intros Hne Hf. unfold MAT1.parse_cards, parse_cards_check.
  destruct (MAT1.cards t) as [|c cs] eqn:E; [done|].
  unfold MAT1_fits in Hf. by rewrite (np_int32_overflow _ Hf).
Qed.




(** *** ADD *)






(** *** CONM2 *)








(** What the two slips leave behind on a later batch: [MAT1._save] stacks
    [material_id] twice, so that [sort] is handed an id column of five
    entries beside columns of three; [ADD._save] stacks the member ids
    onto [sid]. *)
Example MAT1_later_batch_material_id :
  MAT1.material_id (MAT1.save_cards mat1_second_batch) = [1; 2; 1; 2; 3]%Z
  /\ MAT1.E (MAT1.save_cards mat1_second_batch) = [4; 8; 16]%float
  /\ (forall sort,
         MAT1.parse_cards sort mat1_second_batch
         = (t ← sort (MAT1.save_cards mat1_second_batch);
            Ok (MAT1.clear_cards t))).
Proof. repeat split; reflexivity. Qed.

Example ADD_later_batch_sid :
  (t ← ADD.parse_cards (ADD.add spcadd_dangling 200 (inr [5; 6]%Z) ""%string);
   Ok (ADD.sid t, ADD.sids t, ADD.nsids t, ADD.n t))
  = Ok ([100; 5; 6]%Z, [1; 3; 5; 6]%Z, [2; 2], 3).
Proof. reflexivity. Qed.

(** An id outside the range of [int32] stops a batch: [OverflowError]
    from the store into the id array. *)
Example parse_cards_overflow :
  ADD.parse_cards (ADD.add ADD.init 2147483648 (inr [1]%Z) ""%string)
  = Raise OverflowError
  /\ ADD.parse_cards (ADD.add ADD.init 1 (inr [2147483648]%Z) ""%string)
     = Raise OverflowError
  /\ (forall sort,
         CONM2.parse_cards sort
           (CONM2.add CONM2.init 1 10 2.5%float 2147483648 None None
                      ""%string)
         = Raise OverflowError)
  /\ (forall sort,
         MAT1.parse_cards sort
           (MAT1_staged
              [(2147483648%Z, 4%float, 1.5%float, 0.25%float, 0%float,
                0%float, 0%float, 0%float, 0%float, 0%float, 0%float, 0%Z,
                ""%string)])
         = Raise OverflowError).
Proof. repeat split; reflexivity. Qed.

(** ** Default elision in [MAT1.write_file] *)

Lemma np_max_lookup (l : list Z) (k : nat) (x : Z) :
  l !! k = Some x -> exists a, np_max l = Ok a.
Proof. destruct l; [by rewrite lookup_nil|simpl; eauto]. Qed.

(** C8: a MAT1 row whose optional fields are all at their defaults
    ([rho], [alpha], [tref], [ge], [St], [Sc], [Ss] equal to [0.] and
    [mcsid] equal to [0]) is written as one card whose field list is the
    name, the material id, [E], [G] and [nu] followed by four blanks; [G]
    itself goes through the same elision against its computed default.
    No optional field is written as [0.0] and the continuation fields are
    not written at all. *)
Theorem MAT1_default_fields_are_blank
    (get_print_card : nat -> Z -> nat)
    (get_G_default :
       option float -> option float -> option float -> option float)
    (is_same : float -> float -> bool)
    (t : MAT1.table) (size k : nat) (mid : Z)
    (e g nu rho alpha tref ge St Sc Ss : float) :
  (forall x d, (x =? d)%float = true -> is_same x d = true) ->
  MAT1.n t <> 0 ->
  MAT1.row_at t k
  = {| MAT1.r_mid := Some mid; MAT1.r_e := Some e; MAT1.r_g := Some g;
       MAT1.r_nu := Some nu; MAT1.r_rho := Some rho;
       MAT1.r_alpha := Some alpha; MAT1.r_tref := Some tref;
       MAT1.r_ge := Some ge; MAT1.r_Ss := Some Ss; MAT1.r_St := Some St;
       MAT1.r_Sc := Some Sc; MAT1.r_mcsid := Some 0%Z |} ->
  (rho =? 0)%float = true -> (alpha =? 0)%float = true ->
  (tref =? 0)%float = true -> (ge =? 0)%float = true ->
  (St =? 0)%float = true -> (Sc =? 0)%float = true ->
  (Ss =? 0)%float = true ->
  exists lines w,
    MAT1.write_file get_print_card get_G_default is_same t size = Ok lines
    /\ length lines = MAT1.nrows t
    /\ lines !! k
       = Some {| field_width := w;
                 list_fields :=
                   [OStr "MAT1"; OInt mid; OFloat e;
                    MAT1.ofloat
                      (MAT1.set_blank_if_default is_same (Some g)
                         (get_G_default (Some e) (Some g) (Some nu)));
                    OFloat nu; OBlank; OBlank; OBlank; OBlank] |}.
Proof.
  intros Hsame Hn Hrow Hrho Halpha Htref Hge HSt HSc HSs.
  assert (MAT1.material_id t !! k = Some mid) as Hmid
    by (apply (f_equal MAT1.r_mid) in Hrow; exact Hrow).
  assert (MAT1.mcsid t !! k = Some 0%Z) as Hmcsid
    by (apply (f_equal MAT1.r_mcsid) in Hrow; exact Hrow).
  unfold MAT1.write_file, parse_material_check.
  destruct (MAT1.n t =? 0) eqn:En; [apply Nat.eqb_eq in En; contradiction|].
  destruct (np_max_lookup _ _ _ Hmid) as [a ->].
  destruct (np_max_lookup _ _ _ Hmcsid) as [b ->]. simpl.
  eexists _, _. split; [reflexivity|].
  unfold MAT1.zip_longest. split; [by rewrite !length_map, length_seq|].
  assert (k < MAT1.nrows t) as Hk.
  { apply lookup_lt_Some in Hmid. unfold MAT1.nrows. simpl. lia. }
  rewrite (lookup_map_Some _ _ k (MAT1.row_at t k));
    [|apply (lookup_map_Some _ _ k k), lookup_seq_lt, Hk].
  rewrite Hrow. unfold MAT1.write_row. simpl.
  rewrite HSt, HSc, HSs. simpl.
  rewrite (Hsame _ _ Hrho), (Hsame _ _ Halpha), (Hsame _ _ Htref),
    (Hsame _ _ Hge).
  reflexivity.
Qed.

Lemma MAT1_default_fields_are_blank_witness :
  exists lines w,
    MAT1.write_file (fun size _ => size) (fun _ _ _ => None) PrimFloat.eqb
      (MAT1.save_cards (MAT1_staged mat1_cards_1_2)) 8 = Ok lines
    /\ length lines = 2
    /\ lines !! 0
       = Some {| field_width := w;
                 list_fields :=
                   [OStr "MAT1"; OInt 1%Z; OFloat 4%float;
                    MAT1.ofloat
                      (MAT1.set_blank_if_default PrimFloat.eqb
                         (Some 1.5%float) None);
                    OFloat 0.25%float; OBlank; OBlank; OBlank; OBlank] |}.
Proof.
  apply (MAT1_default_fields_are_blank (fun size _ => size)
           (fun _ _ _ => None) PrimFloat.eqb
           (MAT1.save_cards (MAT1_staged mat1_cards_1_2)) 8 0 1%Z
           4%float 1.5%float 0.25%float 0%float 0%float 0%float 0%float
           0%float 0%float 0%float);
    solve [auto | reflexivity | discriminate].
Defined.

(** * Further properties of the tables *)

(** A decidable fact on concrete data, settled by evaluation. *)
Ltac by_decide :=
  match goal with
  | |- ?P => apply (bool_decide_unpack P); vm_compute; exact I
  end.

(** ** Slicing a concrete load table by load id *)

Lemma index_of_load_id_select {R A} (key : R -> Z) (proj : R -> A) (x : Z)
    (rows pre : list R) :
  np_index (map proj (pre ++ rows))
           (Load.index_of_load_id x (map key rows) (length pre))
  = Ok (map proj (filter (fun r => key r = x) rows)).
Proof.
  revert pre. induction rows as [|r rows IH]; intros pre; simpl; [done|].
  assert (np_index (map proj (pre ++ r :: rows))
            (Load.index_of_load_id x (map key rows) (S (length pre)))
          = Ok (map proj (filter (fun r => key r = x) rows))) as Hrest.
  { specialize (IH (pre ++ [r])).
    rewrite <- app_assoc, length_app in IH. simpl in IH.
    by rewrite Nat.add_1_r in IH. }
  rewrite filter_cons. destruct (decide (key r = x)) as [Hk|Hk].
  - rewrite (proj2 (Z.eqb_eq _ _) Hk). simpl.
    rewrite list_lookup_fmap, list_lookup_middle by done. simpl.
    by rewrite Hrest.
  - rewrite (proj2 (Z.eqb_neq _ _) Hk). exact Hrest.
Qed.

Lemma Load_rows_columns (t : Load.table) :
  Load_columns t ->
  Load.load_id t = map (fun r : Z * Z * float => r.1.1) (Load_rows t)
  /\ Load.elements t = map (fun r : Z * Z * float => r.1.2) (Load_rows t)
  /\ Load.enforced t = map (fun r : Z * Z * float => r.2) (Load_rows t).
Proof.
  intros [H1 H2]. unfold Load_rows.
  assert (length (zip (Load.load_id t) (Load.elements t))
          = length (Load.load_id t)) as Hz
    by (rewrite length_zip_with; lia).
  split; [|split].
  - transitivity ((zip (Load.load_id t) (Load.elements t)).*1).
    + symmetry. apply fst_zip. lia.
    + rewrite <- (fst_zip (zip (Load.load_id t) (Load.elements t))
                    (Load.enforced t)) at 1 by lia.
      by rewrite <- list_fmap_compose.
  - transitivity ((zip (Load.load_id t) (Load.elements t)).*2).
    + symmetry. apply snd_zip. lia.
    + rewrite <- (fst_zip (zip (Load.load_id t) (Load.elements t))
                    (Load.enforced t)) at 1 by lia.
      by rewrite <- list_fmap_compose.
  - symmetry. apply snd_zip. lia.
Qed.

Lemma slice_card_by_load_id_spec (t : Load.table) (x : Z) :
  Load_columns t -> x ∈ Load.load_id t ->
  Load.slice_card_by_load_id t x = Ok (Load_rows_with t x).
Proof.
  intros Hc Hx. destruct (Load_rows_columns t Hc) as (E1 & E2 & E3).
  unfold Load.slice_card_by_load_id.
  assert (py_assert (0 <? length (Load.load_id t)) = Ok tt) as ->.
  { destruct (Load.load_id t); [by apply elem_of_nil in Hx|done]. }
  simpl.
  pose proof (index_of_load_id_nonempty x (Load.load_id t) 0 Hx) as Hne.
  assert (py_assert (0 <? length (Load.index_of_load_id x (Load.load_id t) 0))
          = Ok tt) as ->.
  { destruct (Load.index_of_load_id x (Load.load_id t) 0); done. }
  simpl. unfold Load.slice_card_by_index, Load.__apply_slice__.
  pose proof (index_of_load_id_select
                (fun r : Z * Z * float => r.1.1)
                (fun r : Z * Z * float => r.1.1) x (Load_rows t) []) as S1.
  pose proof (index_of_load_id_select
                (fun r : Z * Z * float => r.1.1)
                (fun r : Z * Z * float => r.1.2) x (Load_rows t) []) as S2.
  pose proof (index_of_load_id_select
                (fun r : Z * Z * float => r.1.1)
                (fun r : Z * Z * float => r.2) x (Load_rows t) []) as S3.
  simpl in S1, S2, S3. rewrite <- E1 in S1, S2, S3.
  rewrite <- E2 in S2. rewrite <- E3 in S3.
  rewrite S1. simpl. rewrite S2. simpl. rewrite S3. simpl.
  unfold Load_rows_with. f_equal. f_equal.
  rewrite <- (np_index_length _ _ _ S1). by rewrite length_map.
Qed.


(** X1: [Load.slice_card_by_load_id] on a table whose columns have one
    entry per row.  When no row carries the load id the call fails on its
    second assertion; otherwise it returns a fresh table of the same class
    holding exactly the rows that carry the id, in their order, with [n]
    the number of these rows. *)
Theorem Load_slice_card_by_load_id_selects (t : Load.table) (x : Z) :
  Load_columns t ->
  (x ∉ Load.load_id t ->
   Load.slice_card_by_load_id t x = Raise AssertionError)
  /\ (x ∈ Load.load_id t ->
      Load.slice_card_by_load_id t x = Ok (Load_rows_with t x)
      /\ Load_rows (Load_rows_with t x)
         = filter (fun r : Z * Z * float => r.1.1 = x) (Load_rows t)
      /\ Load.n (Load_rows_with t x) = length (Load_rows (Load_rows_with t x))).
Proof.
  intros Hc. split.
  - intros Hx. unfold Load.slice_card_by_load_id.
    unfold py_assert at 1.
    destruct (0 <? length (Load.load_id t)); [|done]. simpl.
    assert (Load.index_of_load_id x (Load.load_id t) 0 = []) as ->; [|done].
    generalize 0. induction (Load.load_id t) as [|y col IH]; intros i; [done|].
    simpl. destruct (y =? x)%Z eqn:E.
    + apply Z.eqb_eq in E. subst y. exfalso. apply Hx, list_elem_of_here.
    + apply IH. intros H. apply Hx. by apply list_elem_of_further.
  - intros Hx. split; [by apply slice_card_by_load_id_spec|].
    assert (Load_rows (Load_rows_with t x)
            = filter (fun r : Z * Z * float => r.1.1 = x) (Load_rows t)) as E.
    { unfold Load_rows at 1, Load_rows_with. simpl.
      induction (filter _ (Load_rows t)) as [|[[a b] c] l IH]; [done|].
      simpl. by rewrite IH. }
    split; [exact E|]. by rewrite E.
Qed.

Lemma Load_slice_card_by_load_id_selects_witness :
  Load.slice_card_by_load_id deform_1_5 5 = Ok deform_5
  /\ Load.slice_card_by_load_id deform_1_5 7 = Raise AssertionError.
Proof.
  destruct (Load_slice_card_by_load_id_selects deform_1_5 7) as [H7 _];
    [split; reflexivity|].
  destruct (Load_slice_card_by_load_id_selects deform_1_5 5) as [_ H5];
    [split; reflexivity|].
  split.
  - destruct H5 as [H5 _]; [by_decide|]. exact H5.
  - apply H7. by_decide.
Defined.

(** ** The map of concrete loads *)

Lemma np_unique_NoDup (l : list Z) : NoDup (np_unique l).
Proof.
  pose proof (np_unique_sorted l) as H.
  induction H as [|x l' Hs IH Hx]; constructor; [|exact IH].
  intros Hin. rewrite Forall_forall in Hx. specialize (Hx x Hin). lia.
Qed.

Lemma collect_ids_values loadi ids (m : gmap Z (list Load.table)) :
  Load_columns loadi -> NoDup ids ->
  Forall (fun x => x ∈ Load.load_id loadi) ids ->
  exists m', LOAD.collect_ids loadi ids m = Ok m'
    /\ forall k, m' !! k =
         if bool_decide (k ∈ ids)
         then Some (default [] (m !! k) ++ [Load_rows_with loadi k])
         else m !! k.
Proof.
  intros Hc Hnd Hall. revert m.
  induction Hall as [|x ids Hx _ IH]; intros m; simpl.
  - eexists. split; [reflexivity|]. intros k.
    done.
  - apply NoDup_cons in Hnd as [Hnin Hnd].
    rewrite (slice_card_by_load_id_spec loadi x Hc Hx). simpl.
    destruct (IH Hnd (LOAD.append_load m x (Load_rows_with loadi x)))
      as (m' & -> & Hm').
    eexists. split; [reflexivity|]. intros k. rewrite Hm'.
    unfold LOAD.append_load.
    destruct (decide (k = x)) as [->|Hne].
    + rewrite lookup_insert_eq.
      repeat case_bool_decide; try done.
      exfalso. match goal with H : _ ∉ _ :: _ |- _ => apply H end.
      apply list_elem_of_here.
    + rewrite lookup_insert_ne by done.
      repeat case_bool_decide; try done.
      * exfalso. match goal with H : _ ∉ _ :: _ |- _ => apply H end.
        by apply list_elem_of_further.
      * exfalso. match goal with H : _ ∈ _ :: _ |- _ =>
                   apply elem_of_cons in H as [?|?] end; done.
Qed.

Lemma collect_cards_values load_cards (m : gmap Z (list Load.table)) :
  Forall Load_columns load_cards ->
  exists m', LOAD.collect_cards load_cards m = Ok m'
    /\ forall k, m' !! k =
         appended (m !! k)
           (map (fun c => Load_rows_with c k) (loads_carrying load_cards k)).
Proof.
  intros Hall. revert m.
  induction Hall as [|loadi rest Hc _ IH]; intros m; simpl.
  - eexists. split; [reflexivity|]. done.
  - unfold loads_carrying. simpl.
    destruct (bool_decide (Load.type loadi = "LOAD"%string
                           ∨ Load.type loadi = "LSEQ"%string)) eqn:Et; simpl.
    { apply IH. }
    destruct (Load.n loadi =? 0) eqn:En; simpl.
    { apply IH. }
    destruct (collect_ids_values loadi (np_unique (Load.load_id loadi)) m Hc)
      as (m1 & -> & Hm1).
    { apply np_unique_NoDup. }
    { apply Forall_forall. intros x Hx. by apply elem_of_np_unique. }
    simpl. destruct (IH m1) as (m' & -> & Hm').
    eexists. split; [reflexivity|]. intros k. rewrite Hm', Hm1.
    fold (loads_carrying rest k).
    repeat case_bool_decide;
      repeat match goal with H : context [np_unique] |- _ =>
               rewrite elem_of_np_unique in H end; try done.
    simpl. destruct (loads_carrying rest k); simpl; [done|].
    by rewrite <- app_assoc.
Qed.

(** X2: [LOAD.get_loads_by_load_id] over tables whose columns have one
    entry per row returns a map in which a load id is a key exactly when
    some table that is neither a LOAD nor an LSEQ table nor empty carries
    it; the key is bound to one table per such table, in the order of
    [model.load_cards], each holding the rows of its source that carry the
    id. *)
Theorem get_loads_by_load_id_values (load_cards : list Load.table) :
  Forall Load_columns load_cards ->
  exists m,
    LOAD.get_loads_by_load_id load_cards = Ok m
    /\ forall k,
         m !! k = match loads_carrying load_cards k with
                  | [] => None
                  | c :: cs =>
                      Some (map (fun c => Load_rows_with c k) (c :: cs))
                  end.
Proof.
  intros Hall.
  destruct (collect_cards_values load_cards ∅ Hall) as (m & Hm & Hv).
  exists m. split; [exact Hm|]. intros k. rewrite Hv, lookup_empty.
  by destruct (loads_carrying load_cards k).
Qed.

Lemma get_loads_by_load_id_values_witness :
  exists m,
    LOAD.get_loads_by_load_id [deform_1_5; deform_5; Load.init "LOAD"] = Ok m
    /\ forall k,
         m !! k = match loads_carrying
                          [deform_1_5; deform_5; Load.init "LOAD"] k with
                  | [] => None
                  | c :: cs =>
                      Some (map (fun c => Load_rows_with c k) (c :: cs))
                  end.
Proof.
  apply (get_loads_by_load_id_values
           [deform_1_5; deform_5; Load.init "LOAD"]).
  repeat constructor.
Defined.

Example loads_carrying_5 :
  map (fun c => Load_rows_with c 5) 
      (loads_carrying [deform_1_5; deform_5; Load.init "LOAD"] 5)
  = [deform_5; deform_5]
  /\ loads_carrying [deform_1_5; deform_5; Load.init "LOAD"] 7 = [].
Proof. split; vm_compute; reflexivity. Qed.

(** ** Sorting a SET1 table *)

Lemma insert_index_sorted (a : list Z) (k : nat) (l : list nat) :
  StronglySorted (fun i j => (default 0 (a !! i) <= default 0 (a !! j))%Z) l ->
  StronglySorted (fun i j => (default 0 (a !! i) <= default 0 (a !! j))%Z)
    (insert_index a k l).
Proof.
  induction 1 as [|j l Hs IH Hj]; simpl; [repeat constructor|].
  destruct (_ <=? _)%Z eqn:E.
  - apply Z.leb_le in E. constructor; [by constructor|].
    constructor; [done|].
    eapply Forall_impl; [exact Hj|]. simpl. intros i Hi. lia.
  - apply Z.leb_gt in E. constructor; [exact IH|].
    rewrite (insert_index_perm a k l). constructor; [lia|exact Hj].
Qed.

Lemma np_argsort_sorted (a : list Z) :
  StronglySorted (fun i j => (default 0 (a !! i) <= default 0 (a !! j))%Z)
    (np_argsort a).
Proof.
  unfold np_argsort. induction (seq 0 (length a)) as [|k l IH]; simpl;
    [constructor|]. by apply insert_index_sorted.
Qed.

Lemma StronglySorted_map {A B} (R : B -> B -> Prop) (f : A -> B) (l : list A) :
  StronglySorted (fun x y => R (f x) (f y)) l -> StronglySorted R (map f l).
Proof.
  induction 1 as [|x l Hs IH Hx]; simpl; constructor; [exact IH|].
  by apply Forall_map.
Qed.

Lemma np_index_argsort_sorted (a r : list Z) :
  np_index a (np_argsort a) = Ok r -> StronglySorted Z.le r.
Proof.
  intros H. rewrite (np_index_map 0%Z _ _ _ H).
  apply StronglySorted_map, np_argsort_sorted.
Qed.

Lemma np_index_zip {A B} (a : list A) (b : list B) (i : list nat)
    (ra : list A) (rb : list B) :
  np_index a i = Ok ra -> np_index b i = Ok rb ->
  np_index (zip a b) i = Ok (zip ra rb).
Proof.
  revert ra rb. induction i as [|k i IH]; intros ra rb; simpl.
  - by intros [= <-] [= <-].
  - rewrite lookup_zip_with.
    destruct (a !! k) as [x|]; [|discriminate].
    destruct (np_index a i) as [xs|]; simpl; [|discriminate].
    intros [= <-].
    destruct (b !! k) as [y|]; [|discriminate].
    destruct (np_index b i) as [ys|]; simpl; [|discriminate].
    intros [= <-]. by rewrite (IH xs ys).
Qed.

Lemma StronglySorted_lt_le (l : list Z) :
  StronglySorted Z.lt l -> StronglySorted Z.le l.
Proof.
  induction 1 as [|x l Hs IH Hx]; constructor; [exact IH|].
  eapply Forall_impl; [exact Hx|]. simpl. intros y Hy. lia.
Qed.

(** X3: [SET1.sort] on a table whose per-row columns have [n] entries and
    whose counts add up returns a table whose set ids are in ascending
    order.  The rows (set id, skin flag, id count) of the result are a
    permutation of the rows of the input, so every set keeps its skin flag
    and its count, and [n] is unchanged. *)
Theorem SET1_sort_orders_rows (t : SET1.table) :
  length (SET1.set_id t) = SET1.n t ->
  length (SET1.is_skin t) = SET1.n t ->
  length (SET1.num_ids t) = SET1.n t ->
  SET1_ragged t ->
  exists t',
    SET1.sort t = Ok t'
    /\ StronglySorted Z.le (SET1.set_id t')
    /\ Permutation (SET1_meta t') (SET1_meta t)
    /\ SET1.n t' = SET1.n t.
Proof.
  intros H1 H2 H3 Hr.
  destruct (SET1_sort_total t H1 H2 H3 Hr) as [t' Ht']. exists t'.
  split; [exact Ht'|]. revert Ht'. unfold SET1.sort.
  case_bool_decide as Hu.
  { intros [= <-]. split; [|done]. rewrite <- Hu.
    apply StronglySorted_lt_le, np_unique_sorted. }
  unfold SET1.__apply_slice__.
  destruct (py_assert _); simpl; [|discriminate].
  destruct (np_index (SET1.set_id t) _) as [ra|] eqn:Ea; simpl; [|discriminate].
  destruct (np_index (SET1.is_skin t) _) as [rb|] eqn:Eb; simpl; [|discriminate].
  destruct (hslice_by_idim _ _ _); simpl; [|discriminate].
  destruct (np_index (SET1.num_ids t) _) as [rc|] eqn:Ec; simpl; [|discriminate].
  intros [= <-]. unfold SET1_meta. simpl.
  split; [eapply np_index_argsort_sorted, Ea|].
  split.
  - eapply np_index_perm;
      [|apply np_index_zip; [apply np_index_zip; [exact Ea|exact Eb]|exact Ec]].
    rewrite !length_zip_with, H1, H2, H3, !Nat.min_id, <- H1.
    apply np_argsort_perm.
  - rewrite (Permutation_length (np_argsort_perm _)), length_seq. exact H1.
Qed.

Lemma SET1_sort_orders_rows_witness :
  exists t',
    SET1.sort set1_unsorted = Ok t'
    /\ StronglySorted Z.le (SET1.set_id t')
    /\ Permutation (SET1_meta t') (SET1_meta set1_unsorted)
    /\ SET1.n t' = SET1.n set1_unsorted.
Proof.
  apply (SET1_sort_orders_rows set1_unsorted); reflexivity.
Defined.

(** ** Rows of a ragged table *)

Lemma idim_from_nth (counts : list nat) (offset k c : nat) :
  counts !! k = Some c ->
  idim_from offset counts !! k
  = Some (offset + sum_nat (take k counts),
          offset + sum_nat (take k counts) + c).
Proof.
  revert offset k. induction counts as [|c0 counts IH]; intros offset k;
    [by rewrite lookup_nil|].
  destruct k as [|k]; simpl.
  - intros [= ->]. unfold sum_nat. simpl. do 2 f_equal; lia.
  - intros H. rewrite (IH _ _ H). unfold sum_nat. simpl. do 2 f_equal; lia.
Qed.

Lemma make_idim_nth (counts : list nat) (k c : nat) :
  counts !! k = Some c ->
  make_idim (length counts) counts !! k
  = Some (sum_nat (take k counts), sum_nat (take k counts) + c).
Proof.
  intros H. unfold make_idim.
  rewrite firstn_all2 by (rewrite idim_from_length; lia).
  by rewrite (idim_from_nth _ 0 _ _ H).
Qed.

Lemma flat_map_nth_slice {R B} (f : R -> list B) (rows : list R) (k : nat)
    (r : R) :
  rows !! k = Some r ->
  py_slice (flat_map f rows)
           (sum_nat (take k (map (fun r => length (f r)) rows)))
           (sum_nat (take k (map (fun r => length (f r)) rows))
            + length (f r))
  = f r.
Proof.
  revert k. induction rows as [|r0 rows IH]; intros k;
    [by rewrite lookup_nil|].
  unfold py_slice in *. destruct k as [|k]; simpl.
  - intros [= ->]. unfold sum_nat. simpl.
    rewrite Nat.sub_0_r, drop_0. by rewrite take_app_length.
  - intros H. specialize (IH k H). unfold sum_nat in *. simpl.
    rewrite drop_app_add. 
    etrans; [|exact IH]. f_equal. lia.
Qed.

Lemma np_index_fmap {A B} (f : A -> B) (l : list A) (i : list nat)
    (r : list A) :
  np_index l i = Ok r -> np_index (map f l) i = Ok (map f r).
Proof.
  revert r. induction i as [|k i IH]; intros r; simpl.
  - by intros [= <-].
  - rewrite list_lookup_fmap. destruct (l !! k) as [x|]; [|discriminate].
    destruct (np_index l i) as [xs|]; simpl; [|discriminate].
    intros [= <-]. by rewrite (IH xs).
Qed.

Lemma np_index_out_of_range {A} (a : list A) (i : list nat) :
  Exists (fun k => length a <= k) i -> np_index a i = Raise IndexError.
Proof.
  induction i as [|k i IH]; intros H; [by apply Exists_nil in H|].
  simpl. destruct (a !! k) as [x|] eqn:E; [|done].
  apply Exists_cons in H as [H|H].
  - apply lookup_lt_Some in E. lia.
  - by rewrite (IH H).
Qed.

Lemma hslice_rows {R B} (f : R -> list B) (rows : list R) (i : list nat)
    (rows' : list R) :
  np_index rows i = Ok rows' ->
  hslice_by_idim i
    (make_idim (length rows) (map (fun r => length (f r)) rows))
    (flat_map f rows)
  = Ok (flat_map f rows').
Proof.
  revert rows'. induction i as [|k i IH]; intros rows'; simpl.
  - by intros [= <-].
  - destruct (rows !! k) as [r|] eqn:Ek; [|discriminate].
    destruct (np_index rows i) as [rs|]; simpl; [|discriminate].
    intros [= <-].
    rewrite <- (length_map (fun r => length (f r)) rows) at 1.
    rewrite (make_idim_nth _ k (length (f r)))
      by (by rewrite list_lookup_fmap, Ek).
    rewrite (IH rs eq_refl). simpl.
    by rewrite (flat_map_nth_slice f rows k r Ek).
Qed.

(** ** Slices of an SPC1 table *)

Lemma SPC1_slice_rows (t : SPC1.table) (rows rows' : list SPC1_row)
    (i : list nat) :
  SPC1_holds t rows -> np_index rows i = Ok rows' ->
  exists t', SPC1.slice_card_by_index t i = Ok t'
             /\ SPC1_holds t' rows' /\ SPC1.cards t' = [].
Proof.
  intros (E1 & E2 & E3 & E4 & E5) Hi.
  unfold SPC1.slice_card_by_index, SPC1.__apply_slice__, SPC1.inode.
  rewrite E1, E2, E3, E4, E5.
  rewrite (np_index_fmap _ _ _ _ Hi). simpl.
  rewrite (np_index_fmap _ _ _ _ Hi). simpl.
  rewrite (np_index_fmap _ _ _ _ Hi). simpl.
  rewrite (hslice_rows (fun r : SPC1_row => r.2) rows i rows' Hi). simpl.
  eexists. split; [reflexivity|]. split; [|reflexivity].
  repeat split. simpl. rewrite <- (np_index_length _ _ _ Hi). done.
Qed.

(** X6: [SPC1.slice_card_by_index] on a table that stores the rows [rows]:
    for an index array within range the slice is returned and stores
    exactly the selected rows, in the order of the index array, each with
    its own node list, and [n] is their number; an index past the last row
    raises [IndexError]. *)
Theorem SPC1_slice_card_by_index_rows (t : SPC1.table)
    (rows : list SPC1_row) (i : list nat) :
  SPC1_holds t rows ->
  (forall rows',
      np_index rows i = Ok rows' ->
      exists t', SPC1.slice_card_by_index t i = Ok t'
                 /\ SPC1_holds t' rows' /\ SPC1.cards t' = [])
  /\ (Exists (fun k => length rows <= k) i ->
      SPC1.slice_card_by_index t i = Raise IndexError).
Proof.
  intros Ht. split; [intros rows'; by apply SPC1_slice_rows|].
  intros Hbad. destruct Ht as (E1 & _).
  unfold SPC1.slice_card_by_index, SPC1.__apply_slice__.
  rewrite (np_index_out_of_range (SPC1.spc_id t) i); [reflexivity|].
  by rewrite E1, length_map.
Qed.

Lemma SPC1_slice_card_by_index_rows_witness :
  (exists t', SPC1.slice_card_by_index spc1_2_5_2 [2; 0] = Ok t'
              /\ SPC1_holds t' [(2, 3, [30]); (2, 456, [20; 21; 22])]%Z
              /\ SPC1.cards t' = [])
  /\ SPC1.slice_card_by_index spc1_2_5_2 [0; 3] = Raise IndexError.
Proof.
  split.
  - destruct (SPC1_slice_card_by_index_rows spc1_2_5_2 spc1_rows_2_5_2 [2; 0])
      as [H _]; [by repeat split|].
    apply H. reflexivity.
  - destruct (SPC1_slice_card_by_index_rows spc1_2_5_2 spc1_rows_2_5_2 [0; 3])
      as [_ H]; [by repeat split|].
    apply H. apply Exists_cons_tl, Exists_cons_hd. simpl. lia.
Defined.

Lemma np_where_eq_select {R} (key : R -> Z) (x : Z) (rows pre : list R) :
  np_index (pre ++ rows) (np_where_eq x (map key rows) (length pre))
  = Ok (filter (fun r => key r = x) rows).
Proof.
  revert pre. induction rows as [|r rows IH]; intros pre; simpl; [done|].
  assert (np_index (pre ++ r :: rows)
            (np_where_eq x (map key rows) (S (length pre)))
          = Ok (filter (fun r => key r = x) rows)) as Hrest.
  { specialize (IH (pre ++ [r])).
    rewrite <- app_assoc, length_app in IH. simpl in IH.
    by rewrite Nat.add_1_r in IH. }
  rewrite filter_cons. destruct (decide (key r = x)) as [Hk|Hk].
  - rewrite (proj2 (Z.eqb_eq x (key r)) (eq_sym Hk)). simpl.
    rewrite list_lookup_middle by done. simpl. by rewrite Hrest.
  - rewrite (proj2 (Z.eqb_neq x (key r))) by congruence. exact Hrest.
Qed.

(** X7: [SPC1.slice_card_by_id] on a table that stores the rows [rows]
    returns a table that stores the rows carrying the set id, in their
    order, each with its own node list; when no row carries the id the
    result is the empty table and nothing is raised. *)
Theorem SPC1_slice_card_by_id_rows (t : SPC1.table) (rows : list SPC1_row)
    (x : Z) :
  SPC1_holds t rows ->
  exists t', SPC1.slice_card_by_id t x = Ok t'
             /\ SPC1_holds t' (filter (fun r : SPC1_row => r.1.1 = x) rows).
Proof.
  intros Ht.
  pose proof (np_where_eq_select (fun r : SPC1_row => r.1.1) x rows []) as Hi.
  simpl in Hi. destruct Ht as (E1 & Ht). rewrite <- E1 in Hi.
  destruct (SPC1_slice_rows t rows _ _ (conj E1 Ht) Hi) as (t' & Hs & Hh & _).
  exists t'. split; [exact Hs|exact Hh].
Qed.

Lemma SPC1_slice_card_by_id_rows_witness :
  (exists t', SPC1.slice_card_by_id spc1_2_5_2 2 = Ok t'
              /\ SPC1_holds t'
                   (filter (fun r : SPC1_row => r.1.1 = 2%Z) spc1_rows_2_5_2))
  /\ (exists t', SPC1.slice_card_by_id spc1_2_5_2 9 = Ok t'
                 /\ SPC1_holds t'
                      (filter (fun r : SPC1_row => r.1.1 = 9%Z)
                              spc1_rows_2_5_2)).
Proof.
  split; apply (SPC1_slice_card_by_id_rows spc1_2_5_2 spc1_rows_2_5_2);
    by repeat split.
Defined.

Example spc1_slice_by_id_2 :
  SPC1.slice_card_by_id spc1_2_5_2 2
  = Ok {| SPC1.cards := []; SPC1.n := 2; SPC1.spc_id := [2; 2]%Z;
          SPC1.components := [456; 3]%Z;
          SPC1.node_id := [20; 21; 22; 30]%Z; SPC1.nnodes := [3; 1] |}
  /\ SPC1.slice_card_by_id spc1_2_5_2 9
     = Ok {| SPC1.cards := []; SPC1.n := 0; SPC1.spc_id := [];
             SPC1.components := []; SPC1.node_id := []; SPC1.nnodes := [] |}.
Proof. split; reflexivity. Qed.

(** ** LOAD: batches and written cards *)

Lemma LOAD_cards_aligned (cs : list LOAD.card) :
  Forall (fun c : LOAD.card =>
            let '(_, _, scale_factors, load_ids, _) := c in
            length scale_factors = length load_ids) cs ->
  Forall (fun r : LOAD_row => length r.1.2 = length r.2)
         (map LOAD_row_of_card cs).
Proof.
  induction 1 as [|[[[[sid sc] sfs] lids] cm] cs Hc _ IH]; simpl;
    constructor; done.
Qed.

(** X4: [LOAD.parse_cards] appends.  On a table that stores [rows] and has
    staged tuples pairing each factor with an id, the staged set ids and
    member ids being in the range of [int32], it returns a table that
    stores [rows] followed by the staged tuples in staging order, with an
    empty staging list, and whose [n], which [add] and [add_card] advanced
    by one per tuple, is the number of stored rows.  This holds for every
    batch, the first one and the later ones.  A staged id outside the
    range of [int32] makes it raise [OverflowError]. *)
Theorem LOAD_parse_cards_appends (t : LOAD.table) (rows : list LOAD_row) :
  LOAD_holds t rows -> LOAD_staged t ->
  (LOAD_fits (LOAD.cards t) = true ->
   exists t',
     LOAD.parse_cards t = Ok t'
     /\ LOAD.cards t' = []
     /\ LOAD_holds t' (rows ++ map LOAD_row_of_card (LOAD.cards t)))
  /\ (LOAD_fits (LOAD.cards t) = false ->
      LOAD.parse_cards t = Raise OverflowError).
Proof.
  intros (E1 & E2 & E3 & E4 & E5 & E6 & Hal) Hst.
  unfold LOAD.parse_cards, parse_cards_check, LOAD_fits.
  destruct (LOAD.cards t) as [|c cs] eqn:Ec.
  { split; [|done]. intros _.
    exists t. split; [done|]. split; [done|]. simpl. rewrite app_nil_r.
    repeat split; try done. by rewrite Ec. }
  unfold LOAD_staged in Hst. rewrite Ec in Hst.
  remember (c :: cs) as l eqn:El.
  assert (py_assert (0 <? length l) = Ok tt) as -> by (by subst l).
  cbn [mbind result_bind]. unfold np_int32.
  split; cycle 1.
  { first_fits. by intros ->. }
  intros [-> ->]%andb_true_iff.
  simpl. eexists. split; [reflexivity|]. split; [reflexivity|].
  assert (forall (A : Type) (f : LOAD_row -> A) (g : LOAD.card -> A),
             (forall c, g c = f (LOAD_row_of_card c)) ->
             map g l = map f (map LOAD_row_of_card l)) as Hmap.
  { intros A f g H. rewrite map_map. apply map_ext. intros c0. apply H. }
  assert (forall (A : Type) (f : LOAD_row -> list A) (g : LOAD.card -> list A),
             (forall c, g c = f (LOAD_row_of_card c)) ->
             flat_map g l = flat_map f (map LOAD_row_of_card l)) as Hflat.
  { intros A f g H. clear -H. induction l as [|c0 l IH]; simpl; [done|].
    by rewrite H, IH. }
  unfold LOAD._save, LOAD_holds. rewrite E1.
  destruct rows as [|r rows]; simpl.
  - simpl in *.
    repeat split.
    + apply Hmap. by intros [[[[? ?] ?] ?] ?].
    + apply Hmap. by intros [[[[? ?] ?] ?] ?].
    + apply Hmap. by intros [[[[? ?] ?] ?] ?].
    + apply Hflat. by intros [[[[? ?] ?] ?] ?].
    + apply Hflat. by intros [[[[? ?] ?] ?] ?].
    + rewrite E6, length_map. lia.
    + by apply LOAD_cards_aligned.
  - rewrite E2, E3, E4, E5, E6. simpl.
    rewrite !map_app, !flat_map_app, length_app, length_map.
    repeat split.
    + do 2 f_equal. apply Hmap. by intros [[[[? ?] ?] ?] ?].
    + do 2 f_equal. apply Hmap. by intros [[[[? ?] ?] ?] ?].
    + do 2 f_equal. apply Hmap. by intros [[[[? ?] ?] ?] ?].
    + rewrite <- app_assoc. do 2 f_equal. apply Hflat.
      by intros [[[[? ?] ?] ?] ?].
    + rewrite <- app_assoc. do 2 f_equal. apply Hflat.
      by intros [[[[? ?] ?] ?] ?].
    + simpl. lia.
    + apply (Forall_app _ (r :: rows)).
      split; [exact Hal|by apply LOAD_cards_aligned].
Qed.

Lemma LOAD_parse_cards_appends_witness :
  exists t',
    LOAD.parse_cards load_100_200_plus_300 = Ok t'
    /\ LOAD.cards t' = []
    /\ LOAD_holds t'
         (load_rows_100_200
          ++ map LOAD_row_of_card (LOAD.cards load_100_200_plus_300)).
Proof.
  destruct (LOAD_parse_cards_appends load_100_200_plus_300 load_rows_100_200)
    as [H _].
  - repeat split. repeat constructor.
  - repeat constructor.
  - apply H. reflexivity.
Defined.

(** [add] and [add_card] stage a tuple and leave the stored rows alone. *)
Lemma LOAD_add_holds t rows sid scale sfs lids comment t' :
  LOAD_holds t rows -> LOAD.add t sid scale sfs lids comment = Ok t' ->
  LOAD_holds t' rows.
Proof.
  intros (E1 & E2 & E3 & E4 & E5 & E6 & Hal). unfold LOAD.add.
  destruct (py_assert _); simpl; [|discriminate]. intros [= <-].
  repeat split; try done. simpl. rewrite length_app, E6. simpl. lia.
Qed.

Lemma LOAD_add_card_holds t rows card comment t' :
  LOAD_holds t rows -> LOAD.add_card t card comment = Ok t' ->
  LOAD_holds t' rows.
Proof.
  intros (E1 & E2 & E3 & E4 & E5 & E6 & Hal). unfold LOAD.add_card.
  destruct (integer card 1); simpl; [|discriminate].
  destruct (double card 2); simpl; [|discriminate].
  destruct (py_assert (_ =? 0)%Z); simpl; [|discriminate].
  destruct (LOAD.read_pairs card _ 0) as [[sfs lids]|]; simpl; [|discriminate].
  destruct (py_assert _); simpl; [|discriminate]. intros [= <-].
  repeat split; try done. simpl. rewrite length_app, E6. simpl. lia.
Qed.

Lemma LOAD_written_row (t : LOAD.table) (rows : list LOAD_row) (size k : nat) :
  LOAD_holds t rows -> LOAD.cards t = [] ->
  map (LOAD_write_row size t)
      (zip (zip (LOAD.load_id t) (LOAD.scale t)) (LOAD.iload t)) !! k
  = map (LOAD_line size) rows !! k.
Proof.
  intros (E1 & E2 & E3 & E4 & E5 & E6 & Hal) Hc.
  rewrite Hc in E6. simpl in E6. rewrite Nat.add_0_r in E6.
  rewrite !list_lookup_fmap, !lookup_zip_with. unfold LOAD.iload.
  rewrite E1, E2, E3, E6, !list_lookup_fmap.
  destruct (rows !! k) as [[[[sid sc] sfs] lids]|] eqn:Ek; simpl; [|done].
  rewrite <- (length_map (fun r : LOAD_row => length r.1.2) rows) at 1.
  rewrite (make_idim_nth _ k (length sfs))
    by (by rewrite list_lookup_fmap, Ek).
  simpl. unfold LOAD_write_row, LOAD_line. rewrite E4, E5.
  pose proof (flat_map_nth_slice (fun r : LOAD_row => r.1.2) rows k _ Ek)
    as S1.
  pose proof (flat_map_nth_slice (fun r : LOAD_row => r.2) rows k _ Ek)
    as S2.
  simpl in S1, S2. rewrite S1.
  assert (map (fun r : LOAD_row => length r.1.2) rows
          = map (fun r : LOAD_row => length r.2) rows) as Hcounts.
  { clear -Hal. induction Hal as [|r rows Hr _ IH]; simpl; [done|].
    by rewrite Hr, IH. }
  assert (length sfs = length lids) as Hlen.
  { rewrite Forall_forall in Hal.
    apply (Hal (sid, sc, sfs, lids)), list_elem_of_lookup. eauto. }
  rewrite Hcounts, Hlen, S2.
  simpl. do 5 f_equal. apply flat_map_ext. by intros [? ?].
Qed.

(** X5: [LOAD.write_file] on a parsed table that stores [rows] writes one
    card per row, in row order, with the printer of the requested width:
    the name, the set id, the global scale, then each member as its
    factor followed by its id.  An empty table writes nothing. *)
Theorem LOAD_write_file_rows (t : LOAD.table) (rows : list LOAD_row)
    (size : nat) :
  LOAD_holds t rows -> LOAD.cards t = [] ->
  LOAD_write_file t size = Ok (map (LOAD_line size) rows).
Proof.
  intros Ht Hc. unfold LOAD_write_file, parse_load_check.
  destruct (LOAD.n t =? 0) eqn:En.
  - apply Nat.eqb_eq in En. destruct Ht as (_ & _ & _ & _ & _ & E6 & _).
    rewrite Hc in E6. simpl in E6.
    destruct rows; [done|simpl in E6; lia].
  - f_equal. apply list_eq. intros k. by apply LOAD_written_row.
Qed.

Lemma LOAD_write_file_rows_witness :
  LOAD_write_file load_100_200 8
  = Ok [{| field_width := 8;
           list_fields :=
             [OStr "LOAD"; OInt 100; OFloat 2; OFloat 3; OInt 1;
              OFloat 5; OInt 5] |};
        {| field_width := 8;
           list_fields :=
             [OStr "LOAD"; OInt 200; OFloat 1; OFloat 0.5; OInt 7] |}].
Proof.
  apply (LOAD_write_file_rows load_100_200 load_rows_100_200 8).
  - repeat split. repeat constructor.
  - reflexivity.
Defined.

(** ** MPC *)

(** Reading three flat arrays through the offsets of the first gives the
    lists they were built from, the lists of a row being of equal
    length. *)
Lemma ragged_rows {C K A1 A2 A3} (fk : C -> K) (f1 : C -> list A1)
    (f2 : C -> list A2) (f3 : C -> list A3) (l : list C) :
  Forall (fun c => length (f2 c) = length (f1 c)
                   /\ length (f3 c) = length (f1 c)) l ->
  map (fun '(key, (i0, i1)) =>
         (key, py_slice (flat_map f1 l) i0 i1,
          py_slice (flat_map f2 l) i0 i1,
          py_slice (flat_map f3 l) i0 i1))
      (zip (map fk l) (idim_from 0 (map (fun c => length (f1 c)) l)))
  = map (fun c => (fk c, f1 c, f2 c, f3 c)) l.
Proof.
  intros Hal. apply list_eq. intros k.
  rewrite !list_lookup_fmap, lookup_zip_with, list_lookup_fmap.
  destruct (l !! k) as [c|] eqn:Ek; simpl; [|done].
  rewrite (idim_from_nth _ 0 k (length (f1 c)))
    by (by rewrite list_lookup_fmap, Ek).
  simpl.
  assert (map (fun c => length (f1 c)) l = map (fun c => length (f2 c)) l
          /\ map (fun c => length (f1 c)) l = map (fun c => length (f3 c)) l)
    as [C2 C3].
  { clear -Hal. induction Hal as [|c l [H2 H3] _ [IH2 IH3]]; [done|].
    cbn [map]. rewrite <- IH2, <- IH3, H2, H3. done. }
  assert (length (f2 c) = length (f1 c) /\ length (f3 c) = length (f1 c))
    as [L2 L3].
  { rewrite Forall_forall in Hal. apply Hal, list_elem_of_lookup. eauto. }
  pose proof (flat_map_nth_slice f1 l k c Ek) as S1.
  pose proof (flat_map_nth_slice f2 l k c Ek) as S2.
  pose proof (flat_map_nth_slice f3 l k c Ek) as S3.
  rewrite <- C2, L2 in S2. rewrite <- C3, L3 in S3.
  by rewrite S1, S2, S3.
Qed.

Lemma parse_idim_idim_from (cs : list MPC.card) (idim0 : nat) :
  MPC.parse_idim cs idim0
  = idim_from idim0
      (map (fun c : MPC.card =>
              length ((fun '(_, nodes, _, _, _) => nodes) c)) cs).
Proof.
  revert idim0. induction cs as [|[[[[id nodes] comps] coeffs] cm] cs IH];
    intros idim0; simpl; [done|]. by rewrite IH.
Qed.

(** X8: [MPC.parse_cards] on staged tuples with one component and one
    coefficient per node, whose set ids, node ids and components are in
    the range of [int32], succeeds; the rows of the table, read through
    [idim], are the staged tuples in order, the staged list is emptied and
    [n] is kept.  A staged id or component outside the range of [int32]
    makes it raise [OverflowError]. *)
Theorem MPC_parse_cards_rows (t : MPC.table) :
  MPC.cards t <> [] -> MPC_aligned (MPC.cards t) ->
  (MPC_fits (MPC.cards t) = true ->
   exists t',
     MPC.parse_cards t = Ok t'
     /\ MPC_rows t' = map MPC_row_of_card (MPC.cards t)
     /\ MPC.cards t' = []
     /\ MPC.n t' = MPC.n t)
  /\ (MPC_fits (MPC.cards t) = false ->
      MPC.parse_cards t = Raise OverflowError).
Proof.
  intros Hne Hal. unfold MPC.parse_cards, parse_cards_check, MPC_fits.
  destruct (MPC.cards t) as [|c cs] eqn:Ec; [done|].
  remember (c :: cs) as l eqn:El. clear Hne.
  unfold np_int32.
  split; cycle 1.
  { do 2 first_fits. by intros ->. }
  intros [[-> ->]%andb_true_iff ->]%andb_true_iff.
  cbn [mbind result_bind].
  eexists. split; [reflexivity|]. split; [|done].
  unfold MPC_rows. simpl. rewrite parse_idim_idim_from.
  etrans; [apply ragged_rows|].
  - eapply Forall_impl; [exact Hal|]. by intros [[[[? ?] ?] ?] ?].
  - apply map_ext. by intros [[[[? ?] ?] ?] ?].
Qed.

Lemma MPC_parse_cards_rows_witness :
  exists t',
    MPC.parse_cards (MPC.stage (MPC.stage MPC.init mpc_7) mpc_8) = Ok t'
    /\ MPC_rows t'
       = map MPC_row_of_card
             (MPC.cards (MPC.stage (MPC.stage MPC.init mpc_7) mpc_8))
    /\ MPC.cards t' = []
    /\ MPC.n t' = MPC.n (MPC.stage (MPC.stage MPC.init mpc_7) mpc_8).
Proof.
  destruct (MPC_parse_cards_rows (MPC.stage (MPC.stage MPC.init mpc_7) mpc_8))
    as [H _].
  - discriminate.
  - repeat constructor.
  - apply H. reflexivity.
Defined.

Lemma list_pair_ind {A} (P : list A -> Prop) :
  P [] -> (forall x, P [x]) -> (forall x y l, P l -> P (x :: y :: l)) ->
  forall l, P l.
Proof.
  intros H0 H1 H2 l. cut (P l /\ forall x, P (x :: l)); [tauto|].
  induction l as [|y l [IHa IHb]]; split; auto.
Qed.

Lemma even_mod_2 (q : nat) : (2 * q) mod 2 = 0.
Proof. rewrite Nat.mul_comm. apply Nat.Div0.mod_mul. Qed.

Lemma odd_mod_2 (q : nat) : (S (2 * q)) mod 2 = 1.
Proof.
  replace (S (2 * q)) with (1 + q * 2) by lia. by rewrite Nat.Div0.mod_add.
Qed.

Lemma write_terms_pair (q : nat) (x y : out_field * out_field * float)
    (terms : list (out_field * out_field * float)) :
  MPC.write_terms (2 * q) (x :: y :: terms)
  = [x.1.1; x.1.2; OFloat x.2; y.1.1; y.1.2; OFloat y.2; OBlank; OBlank]
    ++ MPC.write_terms (2 * S q) terms.
Proof.
  destruct x as [[g1 c1] a1], y as [[g2 c2] a2]. cbn [MPC.write_terms].
  rewrite even_mod_2, odd_mod_2. simpl.
  replace (S (S (q + (q + 0)))) with (S (q + S (q + 0))) by lia. done.
Qed.

Lemma write_terms_single (q : nat) (x : out_field * out_field * float) :
  MPC.write_terms (2 * q) [x] = [x.1.1; x.1.2; OFloat x.2].
Proof.
  destruct x as [[g1 c1] a1]. cbn [MPC.write_terms].
  by rewrite even_mod_2.
Qed.

Lemma card_field_app (pre card : BDFCard) (i j : nat) :
  i = length pre + j ->
  card_field (pre ++ card) i = card_field card j.
Proof.
  intros ->. unfold card_field, BDFCard in *.
  rewrite lookup_app_r by lia.
  by replace (length pre + j - length pre) with j by lia.
Qed.

Lemma integer_reads (card : BDFCard) (i : nat) (z : Z) :
  card_field card i = Some (FInt z) -> integer card i = Ok z.
Proof. unfold integer. by intros ->. Qed.

Lemma double_reads (card : BDFCard) (i : nat) (x : float) :
  card_field card i = Some (FFloat x) -> double card i = Ok x.
Proof. unfold double. by intros ->. Qed.

Lemma double_or_blank_reads (card : BDFCard) (i : nat) (x d : float) :
  card_field card i = Some (FFloat x) -> double_or_blank card i d = Ok x.
Proof. unfold double_or_blank. by intros ->. Qed.

Lemma first_term_test (q : nat) : (S (2 * q) =? 1) = (q =? 0).
Proof. destruct q; [done|]. simpl. by rewrite ?Nat.add_succ_r. Qed.

Lemma second_term_test (q : nat) : (S (S (2 * q)) =? 2) = (q =? 0).
Proof. destruct q; [done|]. simpl. by rewrite ?Nat.add_succ_r. Qed.

Lemma div8_step (L : nat) : (8 + L + 7) / 8 = S ((L + 7) / 8).
Proof.
  replace (8 + L + 7) with (1 * 8 + (L + 7)) by lia.
  rewrite Nat.div_add_l by lia. lia.
Qed.

Section mpc_reads_back.
Variable components_or_blank : BDFCard -> nat -> result Z.
Variable valid : Z -> Prop.
Hypothesis reads_component : forall (card : BDFCard) (i : nat) (z : Z),
  valid z ->
  card_field card i = (if (z =? 0)%Z then None else Some (FInt z)) ->
  components_or_blank card i = Ok z.

Lemma term_fields_read (card pre suf : BDFCard) (x : Z * Z * float)
    (i : nat) :
  card = pre ++ card_of_fields [(MPC_rendered x).1.1; (MPC_rendered x).1.2;
                                OFloat (MPC_rendered x).2] ++ suf ->
  length pre = i -> valid x.1.2 ->
  integer card i = Ok x.1.1
  /\ components_or_blank card (i + 1) = Ok x.1.2
  /\ double card (i + 2) = Ok x.2
  /\ double_or_blank card (i + 2) 0 = Ok x.2.
Proof.
  intros -> <- Hv. destruct x as [[g c] a]. simpl in *.
  assert (F0 : card_field (pre ++ Some (FInt g)
      :: (if (c =? 0)%Z then None else Some (FInt c))
      :: Some (FFloat a) :: suf) (length pre) = Some (FInt g)).
  { by rewrite (card_field_app _ _ _ 0) by lia. }
  assert (F1 : card_field (pre ++ Some (FInt g)
      :: (if (c =? 0)%Z then None else Some (FInt c))
      :: Some (FFloat a) :: suf) (length pre + 1)
      = (if (c =? 0)%Z then None else Some (FInt c))).
  { by rewrite (card_field_app _ _ _ 1) by lia. }
  assert (F2 : card_field (pre ++ Some (FInt g)
      :: (if (c =? 0)%Z then None else Some (FInt c))
      :: Some (FFloat a) :: suf) (length pre + 2) = Some (FFloat a)).
  { by rewrite (card_field_app _ _ _ 2) by lia. }
  replace (match (if (c =? 0)%Z then OBlank else OInt c) with
           | OStr s => Some (FStr s)
           | OInt z => Some (FInt z)
           | OFloat x0 => Some (FFloat x0)
           | OBlank => None
           end) with (if (c =? 0)%Z then None else Some (FInt c))
    by (by destruct (c =? 0)%Z).
  split_and!.
  - by apply integer_reads.
  - by apply reads_component.
  - by apply double_reads.
  - by apply double_or_blank_reads.
Qed.

Lemma add_card_loop_reads (terms : list (Z * Z * float)) :
  forall (pre : BDFCard) (q : nat) (acc : list Z * list Z * list float),
  Forall (fun x : Z * Z * float => valid x.1.2) terms ->
  length pre = 2 + 8 * q ->
  (q = 0 -> 2 <= length terms
            /\ forall x, terms !! 0 = Some x -> (x.2 =? 0)%float = false) ->
  let W := MPC.write_terms (2 * q) (map MPC_rendered terms) in
  MPC.add_card_loop components_or_blank (pre ++ card_of_fields W)
    (length pre + length W)
    (map (fun q' => 2 + 8 * q') (seq q ((length W + 7) / 8)))
    (S (2 * q)) acc
  = Ok (MPC_appended acc terms).
Proof.
  induction terms as [|x|x y l IH] using list_pair_ind;
    intros pre q acc Hall Hpre Hq W.
  - subst W. simpl. unfold MPC_appended. simpl.
    rewrite !app_nil_r. by destruct acc as [[? ?] ?].
  - subst W. cbn [map]. rewrite (write_terms_single q (MPC_rendered x)).
    cbn [length]. change ((3 + 7) / 8) with 1.
    cbn [seq map MPC.add_card_loop].
    assert (q <> 0) as Hq0 by (intros E; destruct (Hq E) as [? _]; simpl in *; lia).
    destruct (term_fields_read
      (pre ++ card_of_fields [(MPC_rendered x).1.1; (MPC_rendered x).1.2;
                              OFloat (MPC_rendered x).2]) pre [] x (2 + 8 * q))
      as (R0 & R1 & R2 & R3); [by rewrite app_nil_r|done|by inversion Hall|].
    assert ((length pre + 3 <? 2 + 8 * q + 4) = true) as Hlt
      by (apply Nat.ltb_lt; lia).
    rewrite R0, R1, first_term_test, second_term_test, Hlt.
    destruct (q =? 0) eqn:Eq0; [by apply Nat.eqb_eq in Eq0|].
    rewrite R3. simpl. unfold MPC_appended. by destruct acc as [[? ?] ?].
  - subst W. cbn [map]. rewrite (write_terms_pair q).
    set (W' := MPC.write_terms (2 * S q) (map MPC_rendered l)).
    rewrite length_app. cbn [length]. 
    change (S (S (S (S (S (S (S (S (length W'))))))))) with (8 + length W').
    rewrite div8_step.
    cbn [seq map MPC.add_card_loop].
    set (xf := [(MPC_rendered x).1.1; (MPC_rendered x).1.2;
                OFloat (MPC_rendered x).2]).
    set (yf := [(MPC_rendered y).1.1; (MPC_rendered y).1.2;
                OFloat (MPC_rendered y).2]).
    set (card := pre ++ card_of_fields (_ ++ W')).
    inversion Hall as [|? ? Hx Hall']; subst.
    inversion Hall' as [|? ? Hy Hl]; subst.
    destruct (term_fields_read card pre
                (card_of_fields (yf ++ [OBlank; OBlank] ++ W')) x (2 + 8 * q))
      as (X0 & X1 & X2 & X3); [done|done|done|].
    destruct (term_fields_read card (pre ++ card_of_fields xf)
                (card_of_fields ([OBlank; OBlank] ++ W')) y (2 + 8 * q + 3))
      as (Y0 & Y1 & _ & Y3);
      [by subst card; rewrite <- app_assoc
      |rewrite length_app; simpl; lia|done|].
    replace (2 + 8 * q + 3 + 1) with (2 + 8 * q + 4) in Y1 by lia.
    replace (2 + 8 * q + 3 + 2) with (2 + 8 * q + 5) in Y3 by lia.
    assert ((length pre + (8 + length W') <? 2 + 8 * q + 4) = false) as Hlt
      by (apply Nat.ltb_ge; lia).
    rewrite X0, X1, first_term_test, second_term_test, Hlt, Y0, Y1, Y3.
    assert ((if q =? 0
             then double card (2 + 8 * q + 2)
                  ≫= (fun coefficient : float =>
                        if (coefficient =? 0)%float then Raise RuntimeError
                        else Ok coefficient)
             else double_or_blank card (2 + 8 * q + 2) 0) = Ok x.2) as ->.
    { destruct (q =? 0) eqn:Eq0; [|done]. apply Nat.eqb_eq in Eq0.
      rewrite X2. simpl. destruct (Hq Eq0) as [_ Hnz].
      by rewrite (Hnz x eq_refl). }
    specialize (IH (pre ++ card_of_fields (xf ++ yf ++ [OBlank; OBlank]))
                   (S q)
                   (MPC.append_term (MPC.append_term acc x.1.1 x.1.2 x.2)
                      y.1.1 y.1.2 y.2) Hl).
    cbv zeta in IH. fold W' in IH.
    replace (MPC_appended acc (x :: y :: l))
      with (MPC_appended
              (MPC.append_term (MPC.append_term acc x.1.1 x.1.2 x.2)
                 y.1.1 y.1.2 y.2) l).
    2:{ destruct acc as [[? ?] ?]. unfold MPC_appended. simpl.
        by rewrite <- !app_assoc. }
    rewrite <- IH; [|rewrite length_app; simpl; lia|lia].
    simpl. f_equal.
    + subst card. unfold card_of_fields. rewrite !map_app.
      by rewrite <- !app_assoc.
    + rewrite length_app. simpl. lia.
    + lia.
Qed.

Lemma zip_rendered (nodes comps : list Z) (coeffs : list float) :
  zip (zip (map OInt nodes) (array_default_int comps 0)) coeffs
  = map MPC_rendered (zip (zip nodes comps) coeffs).
Proof.
  revert comps coeffs.
  induction nodes as [|g nodes IH]; intros [|c comps] [|a coeffs];
    simpl; try done.
  f_equal. apply IH.
Qed.

Lemma appended_zip (nodes comps : list Z) (coeffs : list float) :
  length comps = length nodes -> length coeffs = length nodes ->
  MPC_appended ([], [], []) (zip (zip nodes comps) coeffs)
  = (nodes, comps, coeffs).
Proof.
  revert comps coeffs.
  induction nodes as [|g nodes IH]; intros [|c comps] [|a coeffs];
    simpl; try done.
  intros [= H1] [= H2]. specialize (IH _ _ H1 H2).
  unfold MPC_appended in *. simpl in *. congruence.
Qed.

Lemma py_slice_map {A B} (f : A -> B) (l : list A) (i0 i1 : nat) :
  py_slice (map f l) i0 i1 = map f (py_slice l i0 i1).
Proof. unfold py_slice. by rewrite <- fmap_drop, <- fmap_take. Qed.

Lemma MPC_add_card_fields (t : MPC.table) (mpc_id : Z) (nodes comps : list Z)
    (coeffs : list float) (comment : string) :
  2 <= length nodes ->
  length comps = length nodes -> length coeffs = length nodes ->
  Forall valid comps ->
  (forall a, coeffs !! 0 = Some a -> (a =? 0)%float = false) ->
  MPC.add_card components_or_blank t
    (card_of_fields (MPC_fields (mpc_id, nodes, comps, coeffs))) comment
  = Ok (MPC.add t mpc_id nodes comps coeffs comment).
Proof.
  intros Hn Hc Ha Hv Hnz. unfold MPC.add_card, MPC_fields.
  rewrite zip_rendered.
  set (terms := zip (zip nodes comps) coeffs).
  set (W := MPC.write_terms 0 (map MPC_rendered terms)).
  pose proof (add_card_loop_reads terms
                [Some (FStr "MPC"); Some (FInt mpc_id)] 0 ([], [], [])) as L.
  cbv zeta in L. change (2 * 0) with 0 in L. fold W in L.
  change (length [Some (FStr "MPC"); Some (FInt mpc_id)]) with 2 in L.
  assert (card_of_fields ([OStr "MPC"; OInt mpc_id] ++ W)
          = [Some (FStr "MPC"); Some (FInt mpc_id)] ++ card_of_fields W)
    as -> by done.
  assert (length ([Some (FStr "MPC"); Some (FInt mpc_id)] ++ card_of_fields W)
          = 2 + length W) as ->
    by (unfold card_of_fields; rewrite length_app, length_map; done).
  unfold MPC.range_2_8.
  replace (2 + length W - 2 + 7) with (length W + 7) by lia.
  rewrite (integer_reads _ 1 mpc_id) by done.
  rewrite L.
  - subst terms. rewrite appended_zip by done. done.
  - subst terms. clear -Hv Hc Ha. revert comps coeffs Hv Hc Ha.
    induction nodes as [|g nodes IH]; intros [|c comps] [|a coeffs];
      simpl; try done.
    intros Hv [= H1] [= H2]. inversion Hv; subst. constructor; auto.
  - done.
  - intros _. subst terms. split.
    + rewrite !length_zip. lia.
    + destruct nodes as [|g nodes], comps as [|c comps], coeffs as [|a coeffs];
        simpl in *; try lia.
      intros x [= <-]. by apply Hnz.
Qed.

End mpc_reads_back.

Lemma MPC_write_file_lines (t : MPC.table) (size : nat) :
  MPC.write_file t size
  = map (fun r => {| field_width := size; list_fields := MPC_fields r |})
        (MPC_rows t).
Proof.
  unfold MPC.write_file, MPC_rows.
  destruct (MPC.mpc_id t) as [|m ms] eqn:Em; [done|].
  cbn [length Nat.eqb]. rewrite <- list_fmap_compose.
  apply map_ext. intros [id [i0 i1]]. unfold MPC.write_row, MPC_fields.
  simpl. unfold array_default_int. by rewrite !py_slice_map.
Qed.

(** X9: the card that [MPC.write_file] writes for a row of at least two
    terms whose first coefficient is not zero is read by [MPC.add_card] as
    that row: the set id, the nodes, the components and the coefficients
    staged are those of the row, a component 0 having gone through a blank
    field. *)
Theorem MPC_write_file_reads_back
    (components_or_blank : BDFCard -> nat -> result Z) (valid : Z -> Prop)
    (t t0 : MPC.table) (size k : nat) (mpc_id : Z) (nodes comps : list Z)
    (coeffs : list float) (comment : string) :
  (forall (card : BDFCard) (i : nat) (z : Z),
     valid z ->
     card_field card i = (if (z =? 0)%Z then None else Some (FInt z)) ->
     components_or_blank card i = Ok z) ->
  MPC_rows t !! k = Some (mpc_id, nodes, comps, coeffs) ->
  2 <= length nodes ->
  length comps = length nodes -> length coeffs = length nodes ->
  Forall valid comps ->
  (forall a, coeffs !! 0 = Some a -> (a =? 0)%float = false) ->
  exists line,
    MPC.write_file t size !! k = Some line
    /\ MPC.add_card components_or_blank t0
         (card_of_fields (list_fields line)) comment
       = Ok (MPC.add t0 mpc_id nodes comps coeffs comment).
Proof.
  intros Hread Hk Hn Hc Ha Hv Hnz.
  exists {| field_width := size;
            list_fields := MPC_fields (mpc_id, nodes, comps, coeffs) |}.
  split.
  - rewrite MPC_write_file_lines. apply list_lookup_fmap_Some. eauto.
  - by apply (MPC_add_card_fields components_or_blank valid).
Qed.

Lemma MPC_write_file_reads_back_witness :
  exists line,
    MPC.write_file mpc_7_8 8 !! 0 = Some line
    /\ MPC.add_card blank_or_integer MPC.init
         (card_of_fields (list_fields line)) ""
       = Ok (MPC.add MPC.init 7 [10; 11; 12]%Z [1; 0; 3]%Z
               [2; 0.5; 1.5]%float "").
Proof.
  apply (MPC_write_file_reads_back blank_or_integer (fun _ => True)
           mpc_7_8 MPC.init 8 0 7 [10; 11; 12]%Z [1; 0; 3]%Z
           [2; 0.5; 1.5]%float "").
  - intros card i z _ H. unfold blank_or_integer. rewrite H.
    destruct (z =? 0)%Z eqn:E; [|done]. apply Z.eqb_eq in E. by subst.
  - reflexivity.
  - simpl. lia.
  - reflexivity.
  - reflexivity.
  - repeat constructor.
  - intros a [= <-]. reflexivity.
Defined.

(** ** The masks of [MPC.geom_check] *)

Lemma mask_assign_false_where (x : Z) (a : list Z) (pre : list bool) :
  mask_assign_false (pre ++ replicate (length a) true)
    (np_where_eq x a (length pre))
  = Ok (pre ++ map (fun c => negb (x =? c)%Z) a).
Proof.
  revert pre. induction a as [|y a IH]; intros pre; simpl; [done|].
  destruct (x =? y)%Z eqn:E; simpl.
  - assert ((length pre <? length (pre ++ true :: replicate (length a) true))
            = true) as ->
      by (apply Nat.ltb_lt; rewrite length_app; simpl; lia).
    rewrite insert_app_r_alt, Nat.sub_diag by done. simpl.
    specialize (IH (pre ++ [false])).
    rewrite <- app_assoc, length_app, Nat.add_1_r in IH. simpl in IH.
    by rewrite IH, <- app_assoc.
  - specialize (IH (pre ++ [true])).
    rewrite <- app_assoc, length_app, Nat.add_1_r in IH. simpl in IH.
    by rewrite IH, <- app_assoc.
Qed.

Lemma where_not_where (x : Z) (a : list Z) :
  where_not a (np_where_eq x a 0) = Ok (map (fun c => negb (x =? c)%Z) a).
Proof. apply (mask_assign_false_where x a []). Qed.

Lemma mask_select_zip (nodes comps : list Z) (x : Z) :
  length nodes = length comps ->
  mask_select nodes (map (fun c => negb (x =? c)%Z) comps)
  = map fst (filter (fun p : Z * Z => p.2 <> x) (zip nodes comps)).
Proof.
  revert comps. induction nodes as [|g nodes IH]; intros [|c comps];
    simpl; try done.
  intros [= H]. rewrite filter_cons. simpl.
  destruct (Z.eqb_spec x c) as [->|Hne].
  - simpl. rewrite decide_False by tauto. by apply IH.
  - simpl. rewrite decide_True by congruence. simpl. f_equal. by apply IH.
Qed.

(** X10: on a table with one component per node, [MPC.geom_check] raises
    nothing while it builds its two lists of node ids: the nodes of the
    terms whose component is 0 are checked as scalar points, the nodes of
    all other terms as grid points, each list in the order of the terms. *)
Theorem MPC_geom_check_ids_partition (t : MPC.table) :
  length (MPC.node_id t) = length (MPC.components t) ->
  MPC_geom_check_ids t
  = Ok (map fst (filter (fun p : Z * Z => p.2 <> 0%Z)
                   (zip (MPC.node_id t) (MPC.components t))),
        map fst (filter (fun p : Z * Z => p.2 = 0%Z)
                   (zip (MPC.node_id t) (MPC.components t)))).
Proof.
  intros Hlen. unfold MPC_geom_check_ids.
  pose proof (np_where_eq_select (fun p : Z * Z => p.2) 0
                (zip (MPC.node_id t) (MPC.components t)) []) as Hs.
  rewrite snd_zip in Hs by lia. simpl in Hs.
  apply (np_index_fmap fst) in Hs. rewrite fst_zip in Hs by lia.
  rewrite Hs, where_not_where. cbn [mbind result_bind]. unfold np_mask.
  rewrite length_map, Hlen, Nat.eqb_refl. cbn [mbind result_bind].
  by rewrite mask_select_zip.
Qed.

Lemma MPC_geom_check_ids_partition_witness :
  MPC_geom_check_ids mpc_7_8
  = Ok (map fst (filter (fun p : Z * Z => p.2 <> 0%Z)
                   (zip (MPC.node_id mpc_7_8) (MPC.components mpc_7_8))),
        map fst (filter (fun p : Z * Z => p.2 = 0%Z)
                   (zip (MPC.node_id mpc_7_8) (MPC.components mpc_7_8)))).
Proof. apply (MPC_geom_check_ids_partition mpc_7_8). reflexivity. Defined.

Example MPC_geom_check_ids_7_8 :
  MPC_geom_check_ids mpc_7_8 = Ok ([10; 12; 20; 21]%Z, [11]%Z).
Proof. reflexivity. Qed.


(** ** SPC1: parsing and writing *)

Lemma SPC1_write_rows_ok (size : nat) (node_id : list Z)
    (L : list (out_field * out_field * (nat * nat))) :
  Forall (fun x : out_field * out_field * (nat * nat) =>
            py_slice node_id x.2.1 x.2.2 <> []) L ->
  SPC1_write_rows size node_id L
  = Ok (map (fun x : out_field * out_field * (nat * nat) =>
               {| field_width := size;
                  list_fields := [OStr "SPC1"; x.1.1; x.1.2]
                                 ++ map OInt (py_slice node_id x.2.1 x.2.2) |})
            L).
Proof.
  induction 1 as [|[[s c] [i0 i1]] L Hx _ IH]; simpl in *; [done|].
  destruct (py_slice node_id i0 i1) as [|g nodes] eqn:E; [done|].
  simpl. by rewrite IH.
Qed.

Lemma SPC1_write_rows_raise (size : nat) (node_id : list Z)
    (L : list (out_field * out_field * (nat * nat))) :
  Exists (fun x : out_field * out_field * (nat * nat) =>
            py_slice node_id x.2.1 x.2.2 = []) L ->
  SPC1_write_rows size node_id L = Raise AssertionError.
Proof.
  induction 1 as [[[s c] [i0 i1]] L Hx|[[s c] [i0 i1]] L _ IH]; simpl in *.
  - by rewrite Hx.
  - rewrite IH. by destruct (py_slice node_id i0 i1).
Qed.

Lemma SPC1_written_rows (t : SPC1.table) (rows : list SPC1_row) (k : nat) :
  SPC1_holds t rows ->
  zip (zip (map OInt (SPC1.spc_id t))
           (array_default_int (SPC1.components t) 0)) (SPC1.inode t) !! k
  = (fun r : SPC1_row =>
       (OInt r.1.1, if (r.1.2 =? 0)%Z then OBlank else OInt r.1.2,
        (sum_nat (take k (map (fun r : SPC1_row => length r.2) rows)),
         sum_nat (take k (map (fun r : SPC1_row => length r.2) rows))
         + length r.2))) <$> rows !! k.
Proof.
  intros (E1 & E2 & E3 & E4 & E5). unfold SPC1.inode, array_default_int.
  rewrite !lookup_zip_with, E1, E2, E3, E5, !list_lookup_fmap.
  destruct (rows !! k) as [[[sid c] nodes]|] eqn:Ek; simpl; [|done].
  rewrite <- (length_map (fun r : SPC1_row => length r.2) rows) at 1.
  rewrite (make_idim_nth _ k (length nodes))
    by (by rewrite list_lookup_fmap, Ek).
  done.
Qed.

Lemma SPC1_write_file_holds (t : SPC1.table) (rows : list SPC1_row)
    (size : nat) :
  SPC1_holds t rows ->
  (Forall (fun r : SPC1_row => r.2 <> []) rows ->
   SPC1_write_file t size = Ok (map (SPC1_line size) rows))
  /\ (Exists (fun r : SPC1_row => r.2 = []) rows ->
      SPC1_write_file t size = Raise AssertionError).
Proof.
  intros Ht. pose proof Ht as (E1 & E2 & E3 & E4 & E5).
  assert (length (SPC1.spc_id t) = length rows) as El
    by (by rewrite E1, length_map).
  unfold SPC1_write_file. rewrite El. split.
  - intros Hne. destruct (length rows =? 0) eqn:En.
    { apply Nat.eqb_eq, length_zero_iff_nil in En. by subst. }
    rewrite SPC1_write_rows_ok.
    + f_equal. apply list_eq. intros k.
      rewrite !list_lookup_fmap, (SPC1_written_rows t rows k Ht).
      destruct (rows !! k) as [[[sid c] nodes]|] eqn:Ek; simpl; [|done].
      rewrite E4.
      pose proof (flat_map_nth_slice (fun r : SPC1_row => r.2) rows k _ Ek)
        as S1.
      simpl in S1. by rewrite S1.
    + apply Forall_lookup. intros k x Hk.
      rewrite (SPC1_written_rows t rows k Ht) in Hk.
      destruct (rows !! k) as [[[sid c] nodes]|] eqn:Ek; simpl in Hk;
        [|done].
      injection Hk as <-. simpl. rewrite E4.
      pose proof (flat_map_nth_slice (fun r : SPC1_row => r.2) rows k _ Ek)
        as S1.
      simpl in S1. rewrite S1.
      rewrite Forall_lookup in Hne. apply (Hne k _ Ek).
  - intros Hbad. destruct (length rows =? 0) eqn:En.
    { apply Nat.eqb_eq, length_zero_iff_nil in En. subst.
      by apply Exists_nil in Hbad. }
    apply SPC1_write_rows_raise.
    apply Exists_exists in Hbad as ([[sid c] nodes] & Hin & Hempty).
    simpl in Hempty. subst nodes.
    apply list_elem_of_lookup in Hin as [k Ek]. 
    apply Exists_exists.
    eexists. split.
    + apply list_elem_of_lookup. exists k.
      rewrite (SPC1_written_rows t rows k Ht), Ek. reflexivity.
    + simpl. rewrite E4.
      pose proof (flat_map_nth_slice (fun r : SPC1_row => r.2) rows k _ Ek)
        as S1.
      simpl in S1. by rewrite Nat.add_0_r in *.
Qed.

(** X11: [SPC1.write_file] on a table that holds rows writes one card per
    row, [SPC1], the set id, the components (blank when 0) and the nodes of
    the row read through [inode]; a row without nodes makes it raise
    [AssertionError]. *)
Theorem SPC1_write_file_rows (t : SPC1.table) (rows : list SPC1_row)
    (size : nat) :
  SPC1_holds t rows ->
  (Forall (fun r : SPC1_row => r.2 <> []) rows ->
   SPC1_write_file t size = Ok (map (SPC1_line size) rows))
  /\ (Exists (fun r : SPC1_row => r.2 = []) rows ->
      SPC1_write_file t size = Raise AssertionError).
Proof. apply SPC1_write_file_holds. Qed.

Lemma SPC1_write_file_rows_witness :
  SPC1_write_file spc1_2_5_2 8 = Ok (map (SPC1_line 8) spc1_rows_2_5_2).
Proof.
  destruct (SPC1_write_file_rows spc1_2_5_2 spc1_rows_2_5_2 8) as [H _];
    [by repeat split|].
  apply H. by repeat constructor.
Defined.

Lemma SPC1_parse_cards_overflow (t : SPC1.table) :
  SPC1.cards t <> [] -> SPC1_fits (SPC1.cards t) = false ->
  SPC1.parse_cards t = Raise OverflowError.
Proof.
  intros Hne. unfold SPC1.parse_cards, parse_cards_check, SPC1_fits.
  destruct (SPC1.cards t) as [|c cs] eqn:Ec; [done|].
  remember (c :: cs) as l eqn:El. clear Hne.
  unfold np_int32.
  first_fits. by intros ->.
Qed.

Lemma SPC1_parse_cards_holds (t : SPC1.table) :
  SPC1.cards t <> [] -> SPC1_fits (SPC1.cards t) = true ->
  exists t', SPC1.parse_cards t = Ok t'
             /\ SPC1_holds t' (map SPC1_row_of_card (SPC1.cards t))
             /\ SPC1.cards t' = [].
Proof.
  intros Hne. unfold SPC1.parse_cards, parse_cards_check, SPC1_fits.
  destruct (SPC1.cards t) as [|c cs] eqn:Ec; [done|].
  remember (c :: cs) as l eqn:El. clear Hne.
  unfold np_int32. intros [-> ->]%andb_true_iff. cbn [mbind result_bind].
  eexists. split; [reflexivity|]. split; [|done].
  unfold SPC1_holds. simpl. rewrite !length_map, <- !list_fmap_compose.
  repeat split.
  - apply map_ext. by intros [[[? ?] ?] ?].
  - apply map_ext. by intros [[[? ?] ?] ?].
  - apply map_ext. by intros [[[? ?] ?] ?].
  - rewrite flat_map_concat_map, flat_map_concat_map, <- list_fmap_compose.
    f_equal. apply map_ext. by intros [[[? ?] ?] ?].
Qed.

(** X12: whatever an SPC1 table held, [parse_cards] on a non-empty staged
    list whose set ids and components are in the range of [int32] leaves
    it holding the staged cards only, and [write_file] then writes exactly
    one card per staged card, in order; a card staged with no node, which
    [add] accepts, makes [write_file] raise [AssertionError].  A staged
    set id or component outside the range of [int32] makes [parse_cards]
    raise [OverflowError]. *)
Theorem SPC1_parse_then_write (t : SPC1.table) (size : nat) :
  SPC1.cards t <> [] ->
  (SPC1_fits (SPC1.cards t) = true ->
   exists t',
     SPC1.parse_cards t = Ok t'
     /\ SPC1.n t' = length (SPC1.cards t)
     /\ (Forall (fun c : SPC1.card => c.1.2 <> []) (SPC1.cards t) ->
         SPC1_write_file t' size
         = Ok (map (fun c => SPC1_line size (SPC1_row_of_card c))
                   (SPC1.cards t)))
     /\ (Exists (fun c : SPC1.card => c.1.2 = []) (SPC1.cards t) ->
         SPC1_write_file t' size = Raise AssertionError))
  /\ (SPC1_fits (SPC1.cards t) = false ->
      SPC1.parse_cards t = Raise OverflowError).
Proof.
  intros Hne. split; [|apply SPC1_parse_cards_overflow, Hne].
  intros Hf.
  destruct (SPC1_parse_cards_holds t Hne Hf) as (t' & Hp & Ht & _).
  exists t'. split; [done|].
  destruct (SPC1_write_file_holds t' _ size Ht) as [Hok Hbad].
  split; [|split].
  - destruct Ht as (_ & _ & _ & _ & ->). by rewrite length_map.
  - intros Hall. rewrite Hok; [by rewrite <- list_fmap_compose|].
    apply Forall_fmap. eapply Forall_impl; [exact Hall|].
    by intros [[[? ?] ?] ?].
  - intros Hex. apply Hbad. apply Exists_fmap.
    eapply Exists_impl; [exact Hex|]. by intros [[[? ?] ?] ?].
Qed.

Lemma SPC1_parse_then_write_witness :
  (exists t',
     SPC1.parse_cards (SPC1.add spc1_2_5_2 9 0 (inr [40; 41]%Z) "") = Ok t'
     /\ SPC1.n t' = 1
     /\ SPC1_write_file t' 8
        = Ok [{| field_width := 8;
                 list_fields := [OStr "SPC1"; OInt 9; OBlank; OInt 40;
                                 OInt 41] |}])
  /\ (exists t',
        SPC1.parse_cards (SPC1.add SPC1.init 9 0 (inr []) "") = Ok t'
        /\ SPC1_write_file t' 8 = Raise AssertionError).
Proof.
  split.
  - destruct (SPC1_parse_then_write
                (SPC1.add spc1_2_5_2 9 0 (inr [40; 41]%Z) "") 8)
      as [H _]; [discriminate|].
    destruct (H eq_refl) as (t' & Hp & Hn & Hok & _).
    exists t'. split; [exact Hp|]. split; [exact Hn|].
    apply Hok. by repeat constructor.
  - destruct (SPC1_parse_then_write (SPC1.add SPC1.init 9 0 (inr []) "") 8)
      as [H _]; [discriminate|].
    destruct (H eq_refl) as (t' & Hp & _ & _ & Hbad).
    exists t'. split; [exact Hp|]. apply Hbad. by constructor.
Defined.

(** ** SPC: staging and parsing *)












(** ** ASET, BSET, CSET, QSET and OMIT: the written groups *)

Lemma zip_longest_aligned {A B} (a : list A) (b : list B) :
  length a = length b ->
  zip_longest a b = map (fun p => (Some p.1, Some p.2)) (zip a b).
Proof.
  intros Hlen. unfold zip_longest. rewrite <- Hlen, Nat.max_id.
  apply list_eq. intros i. rewrite !list_lookup_fmap, lookup_zip_with.
  destruct (decide (i < length a)) as [Hi|Hi].
  - rewrite lookup_seq_lt by done. simpl.
    destruct (lookup_lt_is_Some_2 a i Hi) as [x Hx].
    destruct (lookup_lt_is_Some_2 b i ltac:(lia)) as [y Hy].
    by rewrite Hx, Hy.
  - rewrite lookup_seq_ge by lia. simpl.
    by rewrite (lookup_ge_None_2 a i) by lia.
Qed.

Lemma first_seen_snoc (l : list Z) (x : Z) :
  first_seen (l ++ [x])
  = if bool_decide (x ∈ first_seen l) then first_seen l
    else first_seen l ++ [x].
Proof. unfold first_seen. by rewrite foldl_app. Qed.

Lemma elem_of_first_seen (l : list Z) (x : Z) : x ∈ first_seen l <-> x ∈ l.
Proof.
  induction l as [|y l IH] using rev_ind.
  - done.
  - rewrite first_seen_snoc. case_bool_decide as Hy.
    + rewrite elem_of_app, list_elem_of_singleton, <- IH.
      split; [tauto|]. intros [H| ->]; done.
    + rewrite !elem_of_app, IH. done.
Qed.

Lemma first_seen_NoDup (l : list Z) : NoDup (first_seen l).
Proof.
  induction l as [|y l IH] using rev_ind.
  - constructor.
  - rewrite first_seen_snoc. case_bool_decide as Hy; [done|].
    apply NoDup_app. split; [done|]. split; [|apply NoDup_singleton].
    intros x Hx ->%list_elem_of_singleton. done.
Qed.

Lemma group_append_map {V} (ks : list Z) (f : Z -> list V) (c : Z) (v : V) :
  NoDup ks ->
  group_append (map (fun k => (Some k, f k)) ks) (Some c) v
  = if bool_decide (c ∈ ks)
    then map (fun k => (Some k, if decide (k = c) then f k ++ [v] else f k))
             ks
    else map (fun k => (Some k, f k)) ks ++ [(Some c, [v])].
Proof.
  induction 1 as [|k0 ks Hnin Hnd IH]; simpl; [done|].
  destruct (decide (Some c = Some k0)) as [[= ->]|Hne].
  - rewrite bool_decide_eq_true_2 by left. simpl.
    rewrite decide_True by done. f_equal.
    apply map_ext_in. intros k Hk. rewrite decide_False; [done|].
    intros ->. apply Hnin. by apply list_elem_of_In.
  - rewrite IH. assert (k0 <> c) by congruence.
    rewrite decide_False by done.
    destruct (bool_decide (c ∈ ks)) eqn:Ec.
    + rewrite bool_decide_eq_true_2; [done|].
      right. by apply bool_decide_eq_true in Ec.
    + rewrite bool_decide_eq_false_2; [done|].
      apply bool_decide_eq_false in Ec.
      intros [?|?]%elem_of_cons; congruence.
Qed.

Lemma filter_none {A} (P : A -> Prop) `{forall x, Decision (P x)}
    (l : list A) :
  (forall x, x ∈ l -> ~ P x) -> filter P l = [].
Proof.
  induction l as [|x l IH]; intros Hl; [done|].
  rewrite filter_cons, decide_False by (apply Hl; left).
  apply IH. intros y Hy. apply Hl. by right.
Qed.

(** The dictionary built from aligned columns. *)
Lemma comp_to_nids_groups (pairs : list (Z * Z)) :
  foldl (fun d '(nid, comp) => group_append d comp nid) []
        (map (fun p : Z * Z => (Some p.1, Some p.2)) pairs)
  = map (fun c => (Some c,
                   map Some (map fst (filter (fun p : Z * Z => p.2 = c)
                                             pairs))))
        (first_seen (map snd pairs)).
Proof.
  induction pairs as [|[nid c] pairs IH] using rev_ind; [done|].
  rewrite !map_app, foldl_app, IH. simpl. rewrite first_seen_snoc.
  rewrite (group_append_map _
             (fun c => map Some (map fst (filter (fun p : Z * Z => p.2 = c)
                                                 pairs))))
    by apply first_seen_NoDup.
  destruct (bool_decide (c ∈ first_seen (map snd pairs))) eqn:Ec.
  - apply map_ext_in. intros k Hk. f_equal.
    rewrite filter_app, !map_app, filter_cons, filter_nil. simpl.
    destruct (decide (k = c)); destruct (decide (c = k)); try congruence;
      simpl; by rewrite ?app_nil_r.
  - apply bool_decide_eq_false in Ec. rewrite map_app. simpl. f_equal.
    + apply map_ext_in. intros k Hk. f_equal.
      rewrite filter_app, filter_cons, filter_nil. simpl.
      rewrite decide_False; [by rewrite app_nil_r|].
      intros ->. apply Ec. by apply list_elem_of_In.
    + f_equal. f_equal. rewrite filter_app, filter_cons, filter_nil. simpl.
      rewrite decide_True by done.
      assert (filter (fun p : Z * Z => p.2 = c) pairs = []) as ->; [|done].
      apply filter_none. intros p Hp Hc. apply Ec.
      apply elem_of_first_seen, list_elem_of_fmap. exists p. by split.
Qed.

(** X15: [ABCOQSET.write_file] on a non-empty table whose two columns
    have the same length writes one card per distinct component, in the
    order in which the components first occur in the table; the card of a
    component lists, after the class name and the component, the nodes of
    all rows with that component in table order.  Every card is printed
    with the one printer chosen from the largest node id. *)
Theorem ABCOQSET_write_file_groups
    (update_field_size : Z -> nat -> nat) (get_print_card : nat -> Z -> nat)
    (array_str : list (option Z) -> nat -> list out_field)
    (t : ABCOQSET.table) (size : nat) :
  (forall ids sz, array_str (map Some ids) sz = map OInt ids) ->
  ABCOQSET.n t <> 0 -> ABCOQSET.node_id t <> [] ->
  length (ABCOQSET.node_id t) = length (ABCOQSET.component t) ->
  exists max_int,
    np_max (ABCOQSET.node_id t) = Ok max_int
    /\ ABCOQSET.write_file update_field_size get_print_card array_str t size
       = Ok (map (fun c =>
                    {| field_width :=
                         get_print_card (update_field_size max_int size)
                                        max_int;
                       list_fields :=
                         [OStr (ABCOQSET.class_name (ABCOQSET.type t));
                          OInt c]
                         ++ map OInt (nodes_with (ABCOQSET.node_id t)
                                        (ABCOQSET.component t) c) |})
                 (first_seen (ABCOQSET.component t))).
Proof.
  intros Harr Hn Hne Hlen.
  unfold ABCOQSET.write_file, parse_node_check, ABCOQSET.comp_to_nids.
  rewrite (proj2 (Nat.eqb_neq _ _) Hn).
  destruct (ABCOQSET.node_id t) as [|x l] eqn:En; [done|].
  rewrite <- En in *. clear Hne.
  assert (exists m, np_max (ABCOQSET.node_id t) = Ok m) as [m Hm]
    by (rewrite En; simpl; eauto).
  exists m. split; [done|]. rewrite Hm. simpl.
  rewrite zip_longest_aligned, comp_to_nids_groups by done.
  rewrite snd_zip by lia. rewrite <- list_fmap_compose. f_equal.
  apply map_ext. intros c. simpl. by rewrite Harr.
Qed.

Lemma ABCOQSET_write_file_groups_witness :
  exists max_int,
    np_max (ABCOQSET.node_id aset_3) = Ok max_int
    /\ ABCOQSET.write_file (fun _ size => size) (fun size _ => size)
         array_str_plain aset_3 8
       = Ok (map (fun c =>
                    {| field_width := 8;
                       list_fields :=
                         [OStr (ABCOQSET.class_name (ABCOQSET.type aset_3));
                          OInt c]
                         ++ map OInt (nodes_with (ABCOQSET.node_id aset_3)
                                        (ABCOQSET.component aset_3) c) |})
                 (first_seen (ABCOQSET.component aset_3))).
Proof.
  apply (ABCOQSET_write_file_groups (fun _ size => size) (fun size _ => size)
           array_str_plain aset_3 8).
  - intros ids sz. unfold array_str_plain. by rewrite <- list_fmap_compose.
  - discriminate.
  - discriminate.
  - reflexivity.
Defined.

Example aset_3_written :
  ABCOQSET.write_file (fun _ size => size) (fun size _ => size)
    array_str_plain aset_3 8
  = Ok [{| field_width := 8;
           list_fields := [OStr "ASET1"; OInt 2; OInt 16; OInt 1] |};
        {| field_width := 8;
           list_fields := [OStr "ASET1"; OInt 3516; OInt 23] |};
        {| field_width := 8;
           list_fields := [OStr "ASET1"; OInt 4; OInt 9] |}].
Proof. reflexivity. Qed.

(** ** SUPORT and SUPORT1: the written cards *)

Lemma zip_longest3_aligned {A B C} (a : list A) (b : list B) (c : list C) :
  length b = length a -> length c = length a ->
  zip_longest3 a b c
  = map (fun r => (Some r.1.1, Some r.1.2, Some r.2)) (zip (zip a b) c).
Proof.
  intros Hb Hc. unfold zip_longest3. rewrite Hb, Hc, !Nat.max_id.
  apply list_eq. intros i. rewrite !list_lookup_fmap, !lookup_zip_with.
  destruct (decide (i < length a)) as [Hi|Hi].
  - rewrite lookup_seq_lt by done. simpl.
    destruct (lookup_lt_is_Some_2 a i Hi) as [x Hx].
    destruct (lookup_lt_is_Some_2 b i ltac:(lia)) as [y Hy].
    destruct (lookup_lt_is_Some_2 c i ltac:(lia)) as [z Hz].
    by rewrite Hx, Hy, Hz.
  - rewrite lookup_seq_ge by lia. simpl.
    by rewrite (lookup_ge_None_2 a i) by lia.
Qed.

(** The dictionary built row by row holds, for every key in the order of
    its first occurrence, the values of the rows with that key. *)
Lemma group_rows {R V} (key : R -> Z) (val : R -> V) (rows : list R) :
  foldl (fun d r => group_append d (Some (key r)) (val r)) [] rows
  = map (fun c => (Some c, map val (filter (fun r => key r = c) rows)))
        (first_seen (map key rows)).
Proof.
  induction rows as [|r rows IH] using rev_ind; [done|].
  rewrite !map_app, foldl_app, IH. simpl. rewrite first_seen_snoc.
  rewrite (group_append_map _
             (fun c => map val (filter (fun r => key r = c) rows)))
    by apply first_seen_NoDup.
  destruct (bool_decide (key r ∈ first_seen (map key rows))) eqn:Ec.
  - apply map_ext_in. intros k Hk. f_equal.
    rewrite filter_app, !map_app, filter_cons, filter_nil. simpl.
    destruct (decide (k = key r)); destruct (decide (key r = k));
      try congruence; simpl; by rewrite ?app_nil_r.
  - apply bool_decide_eq_false in Ec. rewrite map_app. simpl. f_equal.
    + apply map_ext_in. intros k Hk. f_equal.
      rewrite filter_app, filter_cons, filter_nil. simpl.
      rewrite decide_False; [by rewrite app_nil_r|].
      intros E. apply Ec. rewrite E. by apply list_elem_of_In.
    + f_equal. f_equal. rewrite filter_app, filter_cons, filter_nil. simpl.
      rewrite decide_True by done.
      assert (filter (fun r0 => key r0 = key r) rows = []) as ->; [|done].
      apply filter_none. intros p Hp Hc. apply Ec.
      apply elem_of_first_seen, list_elem_of_fmap. exists p. by split.
Qed.

Lemma chunks_fuel_irrel {A} (k : nat) (f1 f2 : nat) (l : list A) :
  0 < k -> length l < f1 -> length l < f2 ->
  chunks_fuel f1 k l = chunks_fuel f2 k l.
Proof.
  intros Hk. revert f2 l. induction f1 as [|f1 IH]; intros f2 l H1 H2; [lia|].
  destruct f2 as [|f2]; [lia|]. simpl.
  destruct (length l <? k) eqn:E; [done|].
  apply Nat.ltb_ge in E. f_equal.
  apply IH; rewrite length_drop; lia.
Qed.

Lemma chunks_short {A} (k : nat) (l : list A) :
  length l < k -> chunks k l = [l].
Proof.
  intros H. unfold chunks. simpl. by rewrite (proj2 (Nat.ltb_lt _ _) H).
Qed.

Lemma chunks_full {A} (k : nat) (a l : list A) :
  0 < k -> length a = k -> chunks k (a ++ l) = a :: chunks k l.
Proof.
  intros Hk <-. remember (chunks (length a) l) as R eqn:ER.
  unfold chunks. cbn [chunks_fuel].
  rewrite (proj2 (Nat.ltb_ge _ _)) by (rewrite length_app; lia).
  rewrite take_app_length, drop_app_length. f_equal.
  subst R. unfold chunks. apply chunks_fuel_irrel; rewrite ?length_app; lia.
Qed.

Lemma pair_fields_snoc (l : list (Z * Z)) (p : Z * Z) :
  pair_fields (l ++ [p]) = pair_fields l ++ [OInt p.1; OInt p.2].
Proof. unfold pair_fields. by rewrite flat_map_app. Qed.

Lemma pair_fields_length (l : list (Z * Z)) :
  length (pair_fields l) = 2 * length l.
Proof. induction l as [|p l IH]; simpl; lia. Qed.

Lemma write_suport_chunks (width : nat) (rest acc : list (Z * Z)) :
  length acc < 4 ->
  SUPORT.write_suport width ([OStr "SUPORT"] ++ pair_fields acc)
    (map (fun p : Z * Z => (Some p.1, Some p.2)) rest)
  = map (fun ch => {| field_width := width;
                      list_fields := [OStr "SUPORT"] ++ pair_fields ch |})
        (filter (fun ch => ch <> []) (chunks 4 (acc ++ rest))).
Proof.
  revert acc. induction rest as [|p rest IH]; intros acc Hacc.
  - rewrite app_nil_r, chunks_short by done. cbn [map SUPORT.write_suport].
    rewrite filter_cons, filter_nil.
    destruct acc as [|a acc]; [done|].
    rewrite decide_True by done. simpl.
    done.
  - cbn [map SUPORT.write_suport SUPORT.add_pair fst snd].
    rewrite <- app_assoc.
    change [MAT1.oint (Some p.1); MAT1.oint (Some p.2)]
      with [OInt p.1; OInt p.2].
    rewrite <- pair_fields_snoc, length_app, pair_fields_length, length_app.
    cbn [length]. 
    replace (acc ++ p :: rest) with ((acc ++ [p]) ++ rest)
      by (by rewrite <- app_assoc).
    destruct (decide (length acc = 3)) as [E|E].
    + rewrite E. cbn [Nat.add Nat.mul Nat.eqb].
      rewrite chunks_full by (rewrite ?length_app; simpl; lia).
      rewrite filter_cons, decide_True by (by destruct acc).
      cbn [map]. f_equal. apply (IH []). simpl. lia.
    + replace (1 + 2 * (length acc + 1) =? 9) with false
        by (symmetry; apply Nat.eqb_neq; lia).
      apply IH. rewrite length_app. simpl. lia.
Qed.

Lemma write_suport1_chunks (width : nat) (sid : Z) (rest acc : list (Z * Z)) :
  length acc < 3 ->
  SUPORT.write_suport1 width (Some sid)
    ([OStr "SUPORT1"; OInt sid] ++ pair_fields acc)
    (map (fun p : Z * Z => (Some p.1, Some p.2)) rest)
  = map (fun ch => {| field_width := width;
                      list_fields := [OStr "SUPORT1"; OInt sid]
                                     ++ pair_fields ch |})
        (chunks 3 (acc ++ rest)).
Proof.
  revert acc. induction rest as [|p rest IH]; intros acc Hacc.
  - rewrite app_nil_r, chunks_short by done. done.
  - cbn [map SUPORT.write_suport1 SUPORT.add_pair fst snd].
    rewrite <- app_assoc.
    change [MAT1.oint (Some p.1); MAT1.oint (Some p.2)]
      with [OInt p.1; OInt p.2].
    rewrite <- pair_fields_snoc, length_app, pair_fields_length, length_app.
    cbn [length].
    replace (acc ++ p :: rest) with ((acc ++ [p]) ++ rest)
      by (by rewrite <- app_assoc).
    destruct (decide (length acc = 2)) as [E|E].
    + rewrite E. cbn [Nat.add Nat.mul Nat.eqb].
      rewrite chunks_full by (rewrite ?length_app; simpl; lia).
      cbn [map]. f_equal. apply (IH []). simpl. lia.
    + replace (2 + 2 * (length acc + 1) =? 8) with false
        by (symmetry; apply Nat.eqb_neq; lia).
      apply IH. rewrite length_app. simpl. lia.
Qed.

Lemma foldl_map {A B C} (f : A -> C -> A) (g : B -> C) (a : A) (l : list B) :
  foldl f a (map g l) = foldl (fun a x => f a (g x)) a l.
Proof. revert a. induction l as [|x l IH]; intros a; simpl; [done|apply IH]. Qed.

Lemma zip3_fst {A B C} (a : list A) (b : list B) (c : list C) :
  length b = length a -> length c = length a ->
  map (fun r : A * B * C => r.1.1) (zip (zip a b) c) = a.
Proof.
  revert b c. induction a as [|x a IH]; intros [|y b] [|z c]; simpl;
    try done.
  intros [= Hb] [= Hc]. f_equal. by apply IH.
Qed.

Lemma SUPORT_write_file_aligned (update_field_size : Z -> nat -> nat)
    (t : SUPORT.table) (size : nat) :
  SUPORT.n t <> 0 -> SUPORT.node_id t <> [] ->
  length (SUPORT.node_id t) = length (SUPORT.suport_id t) ->
  length (SUPORT.component t) = length (SUPORT.suport_id t) ->
  exists max_int,
    np_max (SUPORT.node_id t) = Ok max_int
    /\ SUPORT.write_file update_field_size t size
       = Ok (flat_map
               (fun sid => SUPORT_cards (update_field_size max_int size) sid
                             (SUPORT_pairs t sid))
               (first_seen (SUPORT.suport_id t))).
Proof.
  intros Hn Hne Hb Hc.
  unfold SUPORT.write_file, parse_node_check, SUPORT.suport_id_to_nid_comp.
  rewrite (proj2 (Nat.eqb_neq _ _) Hn).
  destruct (SUPORT.node_id t) as [|x l] eqn:En; [done|].
  rewrite <- En in *. clear Hne.
  assert (exists m, np_max (SUPORT.node_id t) = Ok m) as [m Hm]
    by (rewrite En; simpl; eauto).
  exists m. split; [done|]. rewrite Hm. simpl.
  rewrite zip_longest3_aligned by done. rewrite foldl_map.
  pose proof (group_rows (fun r : Z * Z * Z => r.1.1)
                (fun r : Z * Z * Z => (Some r.1.2, Some r.2))
                (zip (zip (SUPORT.suport_id t) (SUPORT.node_id t))
                     (SUPORT.component t))) as G.
  simpl in G.
  assert (map (fun r : Z * Z * Z => r.1.1)
              (zip (zip (SUPORT.suport_id t) (SUPORT.node_id t))
                   (SUPORT.component t)) = SUPORT.suport_id t) as Ek.
  { apply zip3_fst; lia. }
  rewrite Ek in G. clear Ek.
  etrans; [|f_equal; apply flat_map_ext; intros sid; reflexivity].
  match goal with
  | |- Ok (flat_map ?F (foldl ?f [] ?rows)) = _ =>
      replace (foldl f [] rows) with
        (map (fun c => (Some c,
                 map (fun r : Z * Z * Z => (Some r.1.2, Some r.2))
                     (filter (fun r : Z * Z * Z => r.1.1 = c) rows)))
             (first_seen (SUPORT.suport_id t)))
  end.
  f_equal. rewrite flat_map_concat_map, <- list_fmap_compose.
  rewrite <- flat_map_concat_map. apply flat_map_ext. intros sid. simpl.
  unfold SUPORT_cards, SUPORT_pairs.
  match goal with
  | |- context [map (fun r : Z * Z * Z => (Some r.1.2, Some r.2)) ?l] =>
      replace (map (fun r : Z * Z * Z => (Some r.1.2, Some r.2)) l)
        with (map (fun p : Z * Z => (Some p.1, Some p.2))
                  (map (fun r : Z * Z * Z => (r.1.2, r.2)) l))
        by (by rewrite <- list_fmap_compose)
  end.
  destruct (sid =? 0)%Z.
  - apply (write_suport_chunks _ _ []). simpl. lia.
  - apply (write_suport1_chunks _ _ _ []). simpl. lia.
Qed.

(** X16: [SUPORT.write_file] on a non-empty table with aligned columns
    writes the sets in the order in which their ids first occur.  The
    pairs of the set 0 are written as SUPORT cards of four pairs, the last
    one holding the pairs that remain, if any; the pairs of any other set
    are written as SUPORT1 cards of three pairs, followed by one more card
    with the pairs that remain, written even when none remains. *)
Theorem SUPORT_write_file_cards (update_field_size : Z -> nat -> nat)
    (t : SUPORT.table) (size : nat) :
  SUPORT.n t <> 0 -> SUPORT.node_id t <> [] ->
  length (SUPORT.node_id t) = length (SUPORT.suport_id t) ->
  length (SUPORT.component t) = length (SUPORT.suport_id t) ->
  exists max_int,
    np_max (SUPORT.node_id t) = Ok max_int
    /\ SUPORT.write_file update_field_size t size
       = Ok (flat_map
               (fun sid => SUPORT_cards (update_field_size max_int size) sid
                             (SUPORT_pairs t sid))
               (first_seen (SUPORT.suport_id t))).
Proof. apply SUPORT_write_file_aligned. Qed.

Lemma SUPORT_write_file_cards_witness :
  exists max_int,
    np_max (SUPORT.node_id suport_0_4) = Ok max_int
    /\ SUPORT.write_file (fun _ size => size) suport_0_4 8
       = Ok (flat_map
               (fun sid => SUPORT_cards 8 sid (SUPORT_pairs suport_0_4 sid))
               (first_seen (SUPORT.suport_id suport_0_4))).
Proof.
  apply (SUPORT_write_file_cards (fun _ size => size) suport_0_4 8).
  - discriminate.
  - discriminate.
  - reflexivity.
  - reflexivity.
Defined.

Example suport_0_4_written :
  SUPORT.write_file (fun _ size => size) suport_0_4 8
  = Ok [{| field_width := 8;
           list_fields := [OStr "SUPORT"; OInt 1; OInt 3; OInt 2; OInt 3;
                           OInt 5; OInt 3; OInt 6; OInt 3] |};
        {| field_width := 8;
           list_fields := [OStr "SUPORT"; OInt 7; OInt 3] |};
        {| field_width := 8;
           list_fields := [OStr "SUPORT1"; OInt 4; OInt 10; OInt 1; OInt 11;
                           OInt 2; OInt 12; OInt 3] |};
        {| field_width := 8; list_fields := [OStr "SUPORT1"; OInt 4] |}].
Proof. reflexivity. Qed.

Lemma chunks_multiple {A} (k m : nat) (l : list A) :
  0 < k -> length l = k * m -> [] ∈ chunks k l.
Proof.
  intros Hk. revert l. induction m as [|m IH]; intros l Hl.
  - rewrite Nat.mul_0_r in Hl. apply length_zero_iff_nil in Hl. subst.
    rewrite chunks_short by done. by left.
  - rewrite <- (take_drop k l).
    rewrite chunks_full by (rewrite ?length_take; lia).
    right. apply IH. rewrite length_drop. lia.
Qed.

(** X17: a SUPORT1 set whose number of rows is a multiple of three is
    written with a last card that holds no pair, [SUPORT1, sid] alone;
    no SUPORT card is written without a pair. *)
Theorem SUPORT1_bare_card (update_field_size : Z -> nat -> nat)
    (t : SUPORT.table) (size : nat) (sid : Z) (m : nat) :
  SUPORT.n t <> 0 -> SUPORT.node_id t <> [] ->
  length (SUPORT.node_id t) = length (SUPORT.suport_id t) ->
  length (SUPORT.component t) = length (SUPORT.suport_id t) ->
  sid ∈ SUPORT.suport_id t -> sid <> 0%Z ->
  length (SUPORT_pairs t sid) = 3 * m ->
  exists max_int cards,
    np_max (SUPORT.node_id t) = Ok max_int
    /\ SUPORT.write_file update_field_size t size = Ok cards
    /\ {| field_width := update_field_size max_int size;
          list_fields := [OStr "SUPORT1"; OInt sid] |} ∈ cards
    /\ forall width, {| field_width := width;
                        list_fields := [OStr "SUPORT"] |} ∉ cards.
Proof.
  intros Hn Hne Hb Hc Hsid Hnz Hm.
  destruct (SUPORT_write_file_aligned update_field_size t size Hn Hne Hb Hc)
    as (mx & Hmx & Hw).
  eexists mx, _. split; [done|]. split; [exact Hw|]. split.
  - apply list_elem_of_In, in_flat_map. exists sid. split.
    + by apply list_elem_of_In, elem_of_first_seen.
    + apply list_elem_of_In. unfold SUPORT_cards.
      rewrite (proj2 (Z.eqb_neq _ _) Hnz).
      apply list_elem_of_fmap. exists []. split; [done|].
      apply (chunks_multiple 3 m); [lia|done].
  - intros width Hin. apply list_elem_of_In, in_flat_map in Hin
      as (s & _ & Hin).
    apply list_elem_of_In in Hin. unfold SUPORT_cards in Hin.
    destruct (s =? 0)%Z.
    + apply list_elem_of_fmap in Hin as (ch & Heq & Hch).
      apply list_elem_of_filter in Hch as [Hch _].
      destruct ch as [|p ch]; [done|]. discriminate Heq.
    + apply list_elem_of_fmap in Hin as (ch & Heq & _). discriminate Heq.
Qed.

Lemma SUPORT1_bare_card_witness :
  exists max_int cards,
    np_max (SUPORT.node_id suport_0_4) = Ok max_int
    /\ SUPORT.write_file (fun _ size => size) suport_0_4 8 = Ok cards
    /\ {| field_width := 8; list_fields := [OStr "SUPORT1"; OInt 4] |}
       ∈ cards
    /\ forall width, {| field_width := width;
                        list_fields := [OStr "SUPORT"] |} ∉ cards.
Proof.
  apply (SUPORT1_bare_card (fun _ size => size) suport_0_4 8 4 1).
  - discriminate.
  - discriminate.
  - reflexivity.
  - reflexivity.
  - by_decide.
  - discriminate.
  - reflexivity.
Defined.

(** ** SPCOFF: staging and parsing *)

Lemma SPCOFF_setup_four (cs : list SPCOFF.card) :
  Exists (fun c => exists sid nids comps cm, c = SPCOFF.Card4 sid nids comps cm)
         cs ->
  SPCOFF._setup cs = Raise ValueError.
Proof.
  induction 1 as [c cs (sid & nids & comps & cm & ->)|c cs _ IH]; simpl;
    [done|].
  destruct c; [done|]. by rewrite IH.
Qed.

Lemma SPCOFF_setup_three (cs : list SPCOFF.card) :
  Forall (fun c => exists nodes comps cm, c = SPCOFF.Card3 nodes comps cm)
         cs ->
  SPCOFF._setup cs
  = Ok (SPCOFF_staged_nodes cs, SPCOFF_staged_components cs).
Proof.
  induction 1 as [|c cs (nodes & comps & cm & ->) _ IH]; simpl; [done|].
  by rewrite IH.
Qed.

(** X18: a tuple staged by [SPCOFF.add_set] is never parsed: [add_set]
    accepts aligned lists, and [parse_cards] raises [ValueError] on every
    table whose staged list holds that tuple, whatever else is staged. *)
Theorem SPCOFF_add_set_never_parses (t : SPCOFF.table) (nids comps : list Z)
    (comment : string) :
  length nids = length comps ->
  exists t1,
    SPCOFF.add_set t nids comps comment = Ok t1
    /\ SPCOFF.n t1 = SPCOFF.n t + length nids
    /\ forall t2,
         SPCOFF.Card4 0 nids comps comment ∈ SPCOFF.cards t2 ->
         SPCOFF.parse_cards t2 = Raise ValueError.
Proof.
  intros Hlen. unfold SPCOFF.add_set. rewrite Hlen, Nat.eqb_refl. simpl.
  eexists. split; [reflexivity|]. split; [done|].
  intros t2 Hin. unfold SPCOFF.parse_cards, parse_cards_check.
  destruct (SPCOFF.cards t2) as [|c cs] eqn:Ec; [by apply elem_of_nil in Hin|].
  rewrite <- Ec in *. rewrite SPCOFF_setup_four; [done|].
  apply Exists_exists. eexists. split; [exact Hin|]. eauto.
Qed.

Lemma SPCOFF_add_set_never_parses_witness :
  exists t1,
    SPCOFF.add_set SPCOFF.init [5; 7]%Z [3; 12]%Z "" = Ok t1
    /\ SPCOFF.n t1 = SPCOFF.n SPCOFF.init + length [5; 7]%Z
    /\ forall t2,
         SPCOFF.Card4 0 [5; 7]%Z [3; 12]%Z "" ∈ SPCOFF.cards t2 ->
         SPCOFF.parse_cards t2 = Raise ValueError.
Proof.
  apply (SPCOFF_add_set_never_parses SPCOFF.init [5; 7]%Z [3; 12]%Z "").
  reflexivity.
Defined.

Lemma read_constraints_lengths (components_or_blank : BDFCard -> nat -> result Z)
    (card : BDFCard) (counters : list nat) (nodes comps : list Z) :
  SPCOFF.read_constraints components_or_blank card counters
  = Ok (nodes, comps) ->
  length comps = length nodes.
Proof.
  revert nodes comps. induction counters as [|c counters IH];
    intros nodes comps; simpl.
  - by intros [= <- <-].
  - destruct (integer card _); simpl; [|discriminate].
    destruct (components_or_blank card _); simpl; [|discriminate].
    destruct (SPCOFF.read_constraints _ _ _) as [[ns cs]|]; simpl;
      [|discriminate].
    intros [= <- <-]. simpl. f_equal. by apply IH.
Qed.

Lemma SPCOFF_staged_snoc (cs : list SPCOFF.card) (nodes comps : list Z)
    (cm : string) :
  SPCOFF_staged_nodes (cs ++ [SPCOFF.Card3 nodes comps cm])
  = SPCOFF_staged_nodes cs ++ nodes
  /\ SPCOFF_staged_components (cs ++ [SPCOFF.Card3 nodes comps cm])
     = SPCOFF_staged_components cs ++ comps.
Proof.
  unfold SPCOFF_staged_nodes, SPCOFF_staged_components.
  rewrite !flat_map_app. simpl. by rewrite !app_nil_r.
Qed.

Lemma SPCOFF_stage_counted (t : SPCOFF.table) (nodes comps : list Z)
    (cm : string) :
  SPCOFF_counted t -> length comps = length nodes ->
  SPCOFF_counted (SPCOFF.stage t (SPCOFF.Card3 nodes comps cm) (length nodes)).
Proof.
  intros (H1 & H2 & H3 & H4) Hl. unfold SPCOFF_counted. simpl.
  destruct (SPCOFF_staged_snoc (SPCOFF.cards t) nodes comps cm) as [-> ->].
  rewrite !length_app. repeat split; try lia.
  apply Forall_app. split; [done|]. repeat constructor. eauto.
Qed.

Lemma SPCOFF_parse_counted (t : SPCOFF.table) :
  SPCOFF_counted t ->
  exists t',
    SPCOFF.parse_cards t = Ok t'
    /\ SPCOFF.node_id t'
       = SPCOFF.node_id t ++ SPCOFF_staged_nodes (SPCOFF.cards t)
    /\ SPCOFF.component t'
       = SPCOFF.component t ++ SPCOFF_staged_components (SPCOFF.cards t)
    /\ SPCOFF.n t' = SPCOFF.n t
    /\ SPCOFF.cards t' = [].
Proof.
  intros (H1 & H2 & H3 & H4). unfold SPCOFF.parse_cards, parse_cards_check.
  destruct (SPCOFF.cards t) as [|c cs] eqn:Ec.
  - exists t. simpl. by rewrite !app_nil_r.
  - rewrite <- Ec in *. rewrite SPCOFF_setup_three by done. simpl.
    unfold SPCOFF._save.
    destruct (length (SPCOFF.node_id t) =? 0) eqn:E0; simpl.
    + apply Nat.eqb_eq in E0. rewrite E0 in H2.
      apply length_zero_iff_nil in E0, H2. rewrite E0, H2 in *. simpl in *.
      eexists. split; [reflexivity|]. simpl. by rewrite H1.
    + eexists. split; [reflexivity|]. simpl.
      rewrite length_app. by rewrite H1.
Qed.

Lemma SPCOFF_built_counted
    (expand_thru_fields : list (option field_value) -> result (list Z))
    (components_or_blank parse_components : BDFCard -> nat -> result Z)
    (t : SPCOFF.table) :
  SPCOFF_built expand_thru_fields components_or_blank parse_components t ->
  SPCOFF_counted t.
Proof.
  induction 1 as [|t t1 card cm _ IH Ha|t t1 card cm _ IH Ha|t t1 _ IH Hp].
  - by repeat split.
  - unfold SPCOFF.add_set_card in Ha.
    destruct (SPCOFF.read_constraints _ _ _) as [[nodes comps]|] eqn:Er;
      simpl in Ha; [|discriminate].
    destruct (1 <? length card); simpl in Ha; [|discriminate].
    injection Ha as <-. apply SPCOFF_stage_counted; [done|].
    by apply read_constraints_lengths in Er.
  - unfold SPCOFF.add_set1_card in Ha.
    destruct (parse_components card 1) as [comp|]; simpl in Ha;
      [|discriminate].
    destruct (2 <? length card); simpl in Ha; [|discriminate].
    destruct (expand_thru_fields _) as [nodes|]; simpl in Ha; [|discriminate].
    injection Ha as <-. apply SPCOFF_stage_counted; [done|].
    by rewrite length_replicate.
  - destruct (SPCOFF_parse_counted t IH) as (t' & Hp' & E1 & E2 & E3 & E4).
    rewrite Hp in Hp'. injection Hp' as <-.
    destruct IH as (H1 & H2 & H3 & H4).
    unfold SPCOFF_counted. rewrite E1, E2, E3, E4, !length_app. simpl.
    repeat split; try lia. constructor.
Qed.

(** X19: on every table built from the empty one by [add_set_card],
    [add_set1_card] and [parse_cards], [n] is the number of stored nodes
    plus the number of staged nodes and the two columns are aligned;
    [parse_cards] succeeds on it, appends the staged nodes and components
    to the columns in staging order, empties the staged list and leaves
    [n] as it was. *)
Theorem SPCOFF_parse_cards_appends
    (expand_thru_fields : list (option field_value) -> result (list Z))
    (components_or_blank parse_components : BDFCard -> nat -> result Z)
    (t : SPCOFF.table) :
  SPCOFF_built expand_thru_fields components_or_blank parse_components t ->
  SPCOFF.n t
  = length (SPCOFF.node_id t) + length (SPCOFF_staged_nodes (SPCOFF.cards t))
  /\ length (SPCOFF.component t) = length (SPCOFF.node_id t)
  /\ exists t',
       SPCOFF.parse_cards t = Ok t'
       /\ SPCOFF.node_id t'
          = SPCOFF.node_id t ++ SPCOFF_staged_nodes (SPCOFF.cards t)
       /\ SPCOFF.component t'
          = SPCOFF.component t ++ SPCOFF_staged_components (SPCOFF.cards t)
       /\ SPCOFF.n t' = SPCOFF.n t
       /\ SPCOFF.cards t' = [].
Proof.
  intros Hb.
  pose proof (SPCOFF_built_counted _ _ _ _ Hb) as Hc.
  split; [apply Hc|]. split; [apply Hc|].
  by apply SPCOFF_parse_counted.
Qed.

Lemma spcoff_restaged_built :
  SPCOFF_built integer_fields blank_or_integer blank_or_integer
    spcoff_restaged.
Proof.
  eapply (SPCOFF_built_set1_card _ _ _ spcoff_parsed _ spcoff1_card_4 "");
    [|reflexivity].
  eapply (SPCOFF_built_parse _ _ _ spcoff_staged); [|reflexivity].
  eapply (SPCOFF_built_set_card _ _ _ SPCOFF.init _ spcoff_card_5_7 "");
    [|reflexivity].
  constructor.
Defined.

Lemma SPCOFF_parse_cards_appends_witness :
  SPCOFF.n spcoff_restaged
  = length (SPCOFF.node_id spcoff_restaged)
    + length (SPCOFF_staged_nodes (SPCOFF.cards spcoff_restaged))
  /\ length (SPCOFF.component spcoff_restaged)
     = length (SPCOFF.node_id spcoff_restaged)
  /\ exists t',
       SPCOFF.parse_cards spcoff_restaged = Ok t'
       /\ SPCOFF.node_id t'
          = SPCOFF.node_id spcoff_restaged
            ++ SPCOFF_staged_nodes (SPCOFF.cards spcoff_restaged)
       /\ SPCOFF.component t'
          = SPCOFF.component spcoff_restaged
            ++ SPCOFF_staged_components (SPCOFF.cards spcoff_restaged)
       /\ SPCOFF.n t' = SPCOFF.n spcoff_restaged
       /\ SPCOFF.cards t' = [].
Proof.
  apply (SPCOFF_parse_cards_appends integer_fields blank_or_integer
           blank_or_integer spcoff_restaged).
  exact spcoff_restaged_built.
Defined.

(** ** ACCEL: what [add_card] reads *)

Lemma double_inv (card : BDFCard) (i : nat) (x : float) :
  double card i = Ok x -> card_field card i = Some (FFloat x).
Proof.
  unfold double. destruct (card_field card i) as [[z|y|s]|]; try discriminate.
  by intros [= ->].
Qed.

Lemma read_locs_same (card : BDFCard) (ifields : list nat)
    (acc locs vals : list float) :
  ACCEL.read_locs card ifields (acc, acc) = Ok (locs, vals) ->
  vals = locs
  /\ exists xs, locs = acc ++ xs
       /\ Forall2 (fun i x => card_field card i = Some (FFloat x)) ifields xs.
Proof.
  revert acc. induction ifields as [|i ifields IH]; intros acc; simpl.
  - intros [= <- <-]. split; [done|]. exists []. by rewrite app_nil_r.
  - destruct (double card i) as [x|] eqn:Ex; simpl; [|discriminate].
    intros H. destruct (IH _ H) as (-> & xs & -> & Hxs).
    split; [done|]. exists (x :: xs). split; [by rewrite <- app_assoc|].
    constructor; [by apply double_inv|done].
Qed.

(** X20: whenever [ACCEL.add_card] succeeds, the staged [vals] are the
    staged [locs]: both are read from the fields 9, 11, 13, ... of the
    card, and the fields 10, 12, ... that hold the values are not
    staged. *)
Theorem ACCEL_add_card_vals_are_locs
    (string_field : BDFCard -> nat -> result string) (card : BDFCard)
    (comment comment' direction : string) (sid cid : Z)
    (N locs vals : list float) :
  ACCEL.add_card string_field card comment
  = Ok (sid, N, direction, locs, vals, cid, comment') ->
  vals = locs
  /\ Forall2 (fun i x => card_field card i = Some (FFloat x))
             (ACCEL.loc_fields (length card)) locs.
Proof.
  unfold ACCEL.add_card.
  destruct (integer card 1); simpl; [|discriminate].
  destruct (integer_or_blank card 2 0); simpl; [|discriminate].
  destruct (double_or_blank card 3 0); simpl; [|discriminate].
  destruct (double_or_blank card 4 0); simpl; [|discriminate].
  destruct (double_or_blank card 5 0); simpl; [|discriminate].
  destruct (string_field card 6); simpl; [|discriminate].
  destruct (ACCEL.read_locs _ _ _) as [[ls vs]|] eqn:Er; simpl;
    [|discriminate].
  intros [= <- <- <- <- <- <- <-].
  destruct (read_locs_same _ _ _ _ _ Er) as (-> & xs & -> & Hxs). done.
Qed.

Lemma ACCEL_add_card_vals_are_locs_witness :
  [1; 2]%float = [1; 2]%float
  /\ Forall2 (fun i x => card_field accel_card_100 i = Some (FFloat x))
             (ACCEL.loc_fields (length accel_card_100)) [1; 2]%float.
Proof.
  apply (ACCEL_add_card_vals_are_locs text_field accel_card_100 "" "" "X"
           100 2 [0; 1; 2]%float [1; 2]%float [1; 2]%float).
  reflexivity.
Defined.

(** ** SLOAD *)

Lemma SLOAD_card_length (sid : Z) (pairs : list (Z * float)) :
  length (SLOAD_card sid pairs) = 2 + 2 * length pairs.
Proof.
  unfold SLOAD_card. rewrite length_app. simpl. f_equal. f_equal.
  induction pairs as [|p pairs IH]; simpl; lia.
Qed.

Lemma SLOAD_card_app (sid : Z) (a b : list (Z * float)) :
  SLOAD_card sid (a ++ b)
  = SLOAD_card sid a
    ++ flat_map (fun p : Z * float => [Some (FInt p.1); Some (FFloat p.2)]) b.
Proof. unfold SLOAD_card. by rewrite flat_map_app, app_assoc. Qed.

Lemma SLOAD_read_groups (sid : Z) (rest done : list (Z * float))
    (acc : list Z * list float) :
  SLOAD.read_groups (SLOAD_card sid (done ++ rest))
    (seq (length done) (length rest)) acc
  = Ok (acc.1 ++ map fst rest, acc.2 ++ map snd rest).
Proof.
  revert done acc. induction rest as [|[node mag] rest IH];
    intros done [nodes mags]; simpl.
  - by rewrite !app_nil_r.
  - rewrite SLOAD_card_app.
    rewrite (integer_reads _ _ node).
    2:{ etrans; [apply (card_field_app _ _ _ 0)|done].
        rewrite SLOAD_card_length. lia. }
    cbn [mbind result_bind].
    rewrite (double_reads _ _ mag).
    2:{ etrans; [apply (card_field_app _ _ _ 1)|done].
        rewrite SLOAD_card_length. lia. }
    cbn [mbind result_bind]. rewrite <- SLOAD_card_app.
    specialize (IH (done ++ [(node, mag)]) (nodes ++ [node], mags ++ [mag])).
    rewrite <- app_assoc, length_app, Nat.add_1_r in IH. simpl in IH.
    rewrite IH. by rewrite <- !app_assoc.
Qed.

(** X21: [SLOAD.add_card] on a card of node and magnitude pairs stages the
    load id with the nodes and the magnitudes in card order; on a card
    with one more field after the pairs it raises [RuntimeError]. *)
Theorem SLOAD_add_card_pairs (sid : Z) (pairs : list (Z * float))
    (comment : string) :
  SLOAD.add_card (SLOAD_card sid pairs) comment
  = Ok (sid, map fst pairs, map snd pairs, comment)
  /\ forall f, SLOAD.add_card (SLOAD_card sid pairs ++ [f]) comment
               = Raise RuntimeError.
Proof.
  split.
  - unfold SLOAD.add_card. rewrite (integer_reads _ 1 sid) by done.
    cbn [mbind result_bind]. rewrite SLOAD_card_length.
    replace (2 + 2 * length pairs - 2) with (length pairs * 2) by lia.
    rewrite Nat.Div0.mod_mul, Nat.div_mul by lia. cbn [Nat.eqb].
    pose proof (SLOAD_read_groups sid pairs [] ([], [])) as H.
    cbn [app length fst snd] in H. by rewrite H.
  - intros f. unfold SLOAD.add_card.
    rewrite (integer_reads _ 1 sid) by done.
    cbn [mbind result_bind]. rewrite length_app, SLOAD_card_length.
    replace (2 + 2 * length pairs + length [f] - 2)
      with (1 + length pairs * 2) by (simpl; lia).
    by rewrite Nat.Div0.mod_add.
Qed.

Lemma zip3_map {R A B C} (fa : R -> A) (fb : R -> B) (fc : R -> C)
    (sel rows : list R) :
  zip (zip (map fa sel) (map fb rows)) (map fc rows)
  = map (fun x : R * R => (fa x.1, fb x.2, fc x.2)) (zip sel rows).
Proof.
  revert rows. induction sel as [|s sel IH]; intros [|r rows]; simpl;
    try done.
  f_equal. apply IH.
Qed.

(** X22: slicing an SLOAD table hands [nodes] and [mags] over whole, so
    that the cards written from the slice carry the load ids of the
    selected rows but the nodes and the magnitudes of the first rows of
    the table: the [k]-th card pairs the id of the [k]-th selected row
    with the node and the magnitude of row [k]. *)
Theorem SLOAD_slice_write_mispairs (rows sel : list SLOAD_row) (i : list nat)
    (size : nat) :
  np_index rows i = Ok sel -> i <> [] ->
  exists t',
    SLOAD.__apply_slice__ (SLOAD_of_rows rows) i = Ok t'
    /\ SLOAD.write_file t' size
       = Ok (map (fun x : SLOAD_row * SLOAD_row =>
                    SLOAD_line size x.1.1.1 x.2.1.2 x.2.2)
                 (zip sel rows)).
Proof.
  intros Hi Hne. unfold SLOAD.__apply_slice__. simpl.
  rewrite (np_index_fmap _ _ _ _ Hi). simpl.
  eexists. split; [reflexivity|].
  unfold SLOAD.write_file, parse_load_check. simpl.
  destruct i as [|k i]; [done|]. simpl.
  rewrite <- list_fmap_compose.
  rewrite (zip3_map (fun r : SLOAD_row => OInt r.1.1)
             (fun r : SLOAD_row => r.1.2) (fun r : SLOAD_row => r.2)).
  rewrite <- list_fmap_compose. done.
Qed.

Lemma SLOAD_slice_write_mispairs_witness :
  exists t',
    SLOAD.__apply_slice__ (SLOAD_of_rows sload_rows_16) [2] = Ok t'
    /\ SLOAD.write_file t' 8
       = Ok [SLOAD_line 8 18 2 5.5].
Proof.
  apply (SLOAD_slice_write_mispairs sload_rows_16
           [(18%Z, 14%Z, 2.5%float)] [2] 8).
  - reflexivity.
  - discriminate.
Defined.

(** ** FORCE and MOMENT: a later batch *)

Lemma Load0_staged_rows (cs : list Load0.card) :
  zip (zip (zip (zip
    (map (fun '(sid, node, cid, magi, xyzi, comment) => sid) cs)
    (map (fun '(sid, node, cid, magi, xyzi, comment) => node) cs))
    (map (fun '(sid, node, cid, magi, xyzi, comment) => cid) cs))
    (map (fun '(sid, node, cid, magi, xyzi, comment) => magi) cs))
    (map (fun '(sid, node, cid, magi, xyzi, comment) => xyzi) cs)
  = map Load0_row_of_card cs.
Proof.
  induction cs as [|[[[[[sid node] cid] magi] xyzi] cm] cs IH]; simpl;
    [done|].
  f_equal. exact IH.
Qed.

(** X23: [Load0.parse_cards] (FORCE, MOMENT) keeps no row of an earlier
    batch: on a table that stores rows and has cards staged whose load,
    node and coordinate system ids are in the range of [int32], it
    succeeds and leaves the table with exactly the staged cards as rows,
    [n] being their number.  Only on an empty table is anything stacked,
    and then the stored columns are empty.  A staged id outside the range
    of [int32] makes it raise [OverflowError]. *)
Theorem Load0_later_batch_replaces (rows : list Load0_row)
    (staged : list Load0.card) :
  staged <> [] ->
  (Load0_fits staged = true ->
   exists t',
     Load0.parse_cards (Load0_of_rows rows staged) = Ok t'
     /\ Load0_rows t' = map Load0_row_of_card staged
     /\ Load0.n t' = length staged
     /\ Load0.cards t' = [])
  /\ (Load0_fits staged = false ->
      Load0.parse_cards (Load0_of_rows rows staged) = Raise OverflowError).
Proof.
  intros Hne. unfold Load0.parse_cards, parse_cards_check, Load0_fits.
  cbn [Load0_of_rows Load0.cards].
  destruct staged as [|c cs] eqn:Es; [done|]. rewrite <- Es. clear Hne.
  assert ((0 <? length staged) = true) as -> by (by rewrite Es).
  cbn [py_assert mbind result_bind]. unfold np_int32.
  split; cycle 1.
  { do 2 first_fits. by intros ->. }
  intros [[-> ->]%andb_true_iff ->]%andb_true_iff.
  cbn [mbind result_bind]. unfold Load0._save.
  destruct rows as [|r rows]; simpl.
  - rewrite Nat.eqb_refl. simpl. eexists. split; [reflexivity|].
    unfold Load0_rows. simpl. rewrite length_map.
    split; [apply Load0_staged_rows|done].
  - rewrite Nat.eqb_refl. simpl. eexists. split; [reflexivity|].
    unfold Load0_rows. simpl. rewrite length_map.
    split; [apply Load0_staged_rows|done].
Qed.

Lemma Load0_later_batch_replaces_witness :
  exists t',
    Load0.parse_cards
      (Load0_of_rows [(1, 5, 0, 2%float, (1, 0, 0)%float)]%Z
         [(3, 10, 0, 100%float, (0, 0, 1)%float, ""%string)]%Z) = Ok t'
    /\ Load0_rows t'
       = map Load0_row_of_card
             [(3, 10, 0, 100%float, (0, 0, 1)%float, ""%string)]%Z
    /\ Load0.n t' = length [(3, 10, 0, 100%float, (0, 0, 1)%float, ""%string)]%Z
    /\ Load0.cards t' = [].
Proof.
  destruct (Load0_later_batch_replaces
              [(1, 5, 0, 2%float, (1, 0, 0)%float)]%Z
              [(3, 10, 0, 100%float, (0, 0, 1)%float, ""%string)]%Z)
    as [H _]; [discriminate|].
  apply H. reflexivity.
Defined.

Example force_card_3_staged :
  Load0.add_card (Load0_of_rows [(1, 5, 0, 2%float, (1, 0, 0)%float)]%Z [])
    force_card_3 ""
  = Ok (Load0_of_rows [(1, 5, 0, 2%float, (1, 0, 0)%float)]%Z
          [(3, 10, 0, 100%float, (0, 0, 1)%float, ""%string)]%Z).
Proof. reflexivity. Qed.

(** ** PLOTEL: a written deck read back *)

Lemma PLOTEL_write_rows_of_rows (size : nat) (rows : list PLOTEL_row) :
  PLOTEL_write_rows size
    (zip (map (fun r : PLOTEL_row => r.1.1) rows)
         (map (fun r : PLOTEL_row => [r.1.2; r.2]) rows))
  = Ok (map (PLOTEL_line size) rows).
Proof.
  induction rows as [|[[eid n1] n2] rows IH]; simpl; [done|].
  by rewrite IH.
Qed.

Lemma PLOTEL_add_cards_lines (size : nat) (rows : list PLOTEL_row)
    (t : PLOTEL.table) :
  PLOTEL_add_cards t
    (map (fun l => card_of_fields (list_fields l))
         (map (PLOTEL_line size) rows))
  = Ok {| PLOTEL.cards :=
            PLOTEL.cards t
            ++ map (fun r : PLOTEL_row => (r.1.1, [r.1.2; r.2], ""%string))
                   rows;
          PLOTEL.n := PLOTEL.n t + 2 * length rows;
          PLOTEL.element_id := PLOTEL.element_id t;
          PLOTEL.nodes := PLOTEL.nodes t |}.
Proof.
  revert t. induction rows as [|[[eid n1] n2] rows IH]; intros t.
  - simpl. rewrite app_nil_r, Nat.add_0_r. by destruct t.
  - cbn [map PLOTEL_add_cards]. 
    assert (PLOTEL.add_card t
              (card_of_fields (list_fields (PLOTEL_line size (eid, n1, n2))))
              "" 
            = Ok {| PLOTEL.cards := PLOTEL.cards t ++ [(eid, [n1; n2], ""%string)];
                    PLOTEL.n := S (S (PLOTEL.n t));
                    PLOTEL.element_id := PLOTEL.element_id t;
                    PLOTEL.nodes := PLOTEL.nodes t |}) as -> by done.
    cbn [mbind result_bind]. rewrite IH. cbn.
    f_equal. f_equal; [by rewrite <- app_assoc|lia].
Qed.

Lemma PLOTEL_assign_rows_pairs (rows : list PLOTEL_row) :
  PLOTEL_assign_rows (map (fun r : PLOTEL_row => [r.1.2; r.2]) rows)
  = Ok (map (fun r : PLOTEL_row => [r.1.2; r.2]) rows).
Proof.
  induction rows as [|r rows IH]; simpl; [done|]. by rewrite IH.
Qed.

(** X24: the deck that [PLOTEL.write_file] writes for a non-empty parsed
    table, one card per element, is read back by [add_card], card after
    card from the empty table, and [parse_cards] into the same table.
    While the cards are staged [n] is twice the number of elements;
    [parse_cards] sets it to their number. *)
Theorem PLOTEL_written_deck_reads_back (rows : list PLOTEL_row) (size : nat) :
  rows <> [] ->
  exists lines t1,
    PLOTEL_write_file (PLOTEL_of_rows rows) size = Ok lines
    /\ length lines = length rows
    /\ PLOTEL_add_cards PLOTEL.init
         (map (fun l => card_of_fields (list_fields l)) lines) = Ok t1
    /\ PLOTEL.n t1 = 2 * length rows
    /\ PLOTEL_parse_cards t1 = Ok (PLOTEL_of_rows rows).
Proof.
  intros Hne. exists (map (PLOTEL_line size) rows). eexists.
  split; [|split; [by rewrite length_map|split; [apply PLOTEL_add_cards_lines|]]].
  - unfold PLOTEL_write_file, parse_element_check. simpl.
    destruct rows as [|r rows]; [done|].
    apply (PLOTEL_write_rows_of_rows size (r :: rows)).
  - split; [done|]. unfold PLOTEL_parse_cards, parse_cards_check. simpl.
    destruct rows as [|r rows]; [done|].
    remember (r :: rows) as l. simpl.
    destruct (map _ l) as [|c cs] eqn:Em; [by subst|]. rewrite <- Em.
    rewrite <- !list_fmap_compose.
    match goal with
    | |- context [PLOTEL_assign_rows ?x] =>
        replace x with (map (fun r : PLOTEL_row => [r.1.2; r.2]) l)
          by reflexivity
    end.
    rewrite PLOTEL_assign_rows_pairs. simpl. by rewrite length_map.
Qed.

Lemma PLOTEL_written_deck_reads_back_witness :
  exists lines t1,
    PLOTEL_write_file (PLOTEL_of_rows [(3101, 1, 2); (3102, 2, 3)]%Z) 8
    = Ok lines
    /\ length lines = length [(3101, 1, 2); (3102, 2, 3)]%Z
    /\ PLOTEL_add_cards PLOTEL.init
         (map (fun l => card_of_fields (list_fields l)) lines) = Ok t1
    /\ PLOTEL.n t1 = 2 * length [(3101, 1, 2); (3102, 2, 3)]%Z
    /\ PLOTEL_parse_cards t1
       = Ok (PLOTEL_of_rows [(3101, 1, 2); (3102, 2, 3)]%Z).
Proof.
  apply (PLOTEL_written_deck_reads_back [(3101, 1, 2); (3102, 2, 3)]%Z 8).
  discriminate.
Defined.
